(** * font-picker: the stylesheet loading policy and the picker widget

    A shallow embedding of [src/js/font-download.js] and
    [src/FontPicker/FontPicker.js].

    - JavaScript strings are sequences of UTF-16 code units.
    - The document is a tree of elements; [getElementById] walks it in
      tree order, and the functions of [font-download.js] pass it along
      explicitly.
    - The picker is a record of the object's fields and of the elements
      it has created; its methods are actions on that record that may
      throw and keep what they did before they threw.  The promise of
      [fontManager.init()] and the events of the page drive a small state
      machine.
    - What the two files call but do not contain enters as a parameter:
      [isFontAvailable], the constructor and the methods of
      [FontManager], [String.prototype.toLowerCase] and the HTML parser
      behind [innerHTML].  The throttle of the scroll handler
      ([lodash.throttle]) is modelled with its clock and its timeouts.
    - Numbers are binary64 floating-point numbers; times are integers of
      milliseconds. *)

From Stdlib Require Import List NArith ZArith Bool String Ascii Lia Floats.
From Stdlib Require Uint63.
From Equations Require Import Equations.
Import ListNotations.

Set Warnings "-register-all".

(* ===================================================================== *)
(** ** JavaScript strings                                                 *)
(* ===================================================================== *)

(** A JavaScript string is a sequence of 16-bit code units;
    [split('')], [indexOf] and the regular expressions of the source all
    work on code units. *)
Definition code_unit := N.
Definition jsstring := list code_unit.

(** A string literal of the source. *)
Definition lit (s : string) : jsstring :=
  map N_of_ascii (list_ascii_of_string s).

Definition jsstring_eqb (a b : jsstring) : bool :=
  if list_eq_dec N.eq_dec a b then true else false.

(** The class [\s] of ECMAScript regular expressions: WhiteSpace and
    LineTerminator code points. *)
Definition is_whitespace (c : code_unit) : bool :=
  ((9 <=? c) && (c <=? 13)          (* \t \n \v \f \r *)
   || (c =? 32)                     (* space *)
   || (c =? 160)                    (* U+00A0 *)
   || (c =? 5760)                   (* U+1680 *)
   || ((8192 <=? c) && (c <=? 8202)) (* U+2000 .. U+200A *)
   || (c =? 8232) || (c =? 8233)    (* U+2028, U+2029 *)
   || (c =? 8239) || (c =? 8287)    (* U+202F, U+205F *)
   || (c =? 12288)                  (* U+3000 *)
   || (c =? 65279))%N.              (* U+FEFF *)

(** ASCII whitespace of the DOM standard (what [DOMTokenList.add]
    refuses): TAB, LF, FF, CR and SPACE. *)
Definition is_ascii_whitespace (c : code_unit) : bool :=
  ((c =? 9) || (c =? 10) || (c =? 12) || (c =? 13) || (c =? 32))%N.

(** [s.replace(/\s+/g, rep)]: every maximal run of whitespace is replaced
    by one copy of [rep].  [in_run] tells that the previous code unit was
    whitespace, so the current run has been replaced already. *)
Fixpoint replace_ws_runs_from (in_run : bool) (rep s : jsstring) : jsstring :=
  match s with
  | [] => []
  | c :: s' =>
      if is_whitespace c then
        if in_run then replace_ws_runs_from true rep s'
        else rep ++ replace_ws_runs_from true rep s'
      else c :: replace_ws_runs_from false rep s'
  end.

Definition replace_ws_runs (rep s : jsstring) : jsstring :=
  replace_ws_runs_from false rep s.

(** [s.replace(/ /g, '+')]: every space becomes a plus sign. *)
Definition replace_spaces_plus (s : jsstring) : jsstring :=
  flat_map (fun c => if (c =? 32)%N then lit "+" else [c]) s.

(** [s.indexOf(x)] on the array of code units: the first index of [x], or
    [-1]. *)
Fixpoint indexOf_from (x : code_unit) (s : list code_unit) (i : Z) : Z :=
  match s with
  | [] => (-1)%Z
  | y :: s' => if (y =? x)%N then i else indexOf_from x s' (i + 1)%Z
  end.

Definition indexOf (s : list code_unit) (x : code_unit) : Z :=
  indexOf_from x s 0%Z.

(** [arr.filter((x, n, s) => ...)]: the callback receives the element, its
    index and the whole array. *)
Fixpoint array_filter_from (f : code_unit -> Z -> list code_unit -> bool)
    (whole rest : list code_unit) (n : Z) : list code_unit :=
  match rest with
  | [] => []
  | x :: rest' =>
      if f x n whole then x :: array_filter_from f whole rest' (n + 1)%Z
      else array_filter_from f whole rest' (n + 1)%Z
  end.

Definition array_filter (f : code_unit -> Z -> list code_unit -> bool)
    (arr : list code_unit) : list code_unit :=
  array_filter_from f arr arr 0%Z.

(** The two halves of a surrogate pair. *)
Definition is_high_surrogate (c : code_unit) : bool :=
  ((55296 <=? c) && (c <=? 56319))%N.          (* U+D800 .. U+DBFF *)
Definition is_low_surrogate (c : code_unit) : bool :=
  ((56320 <=? c) && (c <=? 57343))%N.          (* U+DC00 .. U+DFFF *)

(** The conversion of a string to a [USVString], which the DOM applies to
    a value assigned to [link.href]: a surrogate that is not half of a
    pair becomes U+FFFD. *)
Fixpoint to_USVString (s : jsstring) : jsstring :=
  match s with
  | [] => []
  | c :: s' =>
      if is_high_surrogate c then
        match s' with
        | d :: s'' =>
            if is_low_surrogate d then c :: d :: to_USVString s''
            else 65533%N :: to_USVString s'
        | [] => [65533%N]
        end
      else if is_low_surrogate c then 65533%N :: to_USVString s'
      else c :: to_USVString s'
  end.

(* ===================================================================== *)
(** ** What the browser provides                                          *)
(* ===================================================================== *)

(** A node made by the HTML parser: a text, a comment, or an element with
    its local name, the tokens of its [class] attribute and its children.
    The other attributes play no part in the code. *)
#[local] Unset Elimination Schemes.
Inductive DomNode :=
| TextNode (data : jsstring)
| CommentNode (data : jsstring)
| ElementNode (localName : jsstring) (classList : list jsstring)
    (childNodes : list DomNode).
#[local] Set Elimination Schemes.

(** What the code takes from the engine, and the development is
    parametric in:
    - [String.prototype.toLowerCase], which follows the Unicode case
      mappings;
    - the HTML fragment parser behind [element.innerHTML = markup]: the
      nodes it makes of [markup] inside an element with the local name
      [context]. *)
Class JSRuntime := {
  toLowerCase : jsstring -> jsstring;
  parseFragment : forall (context markup : jsstring), list DomNode
}.

(** The restriction of [toLowerCase] to Basic Latin, used to run the model
    on ASCII font names. *)
Definition ascii_toLowerCase (s : jsstring) : jsstring :=
  map (fun c => if ((65 <=? c) && (c <=? 90))%N then (c + 32)%N else c) s.

(** The children that a text without markup gives an element: one text
    node, or none for the empty string. *)
Definition text_nodes (s : jsstring) : list DomNode :=
  match s with
  | [] => []
  | _ => [TextNode s]
  end.

(** The restriction of the parser to text without markup, used to run the
    model on such font names. *)
Definition ascii_runtime : JSRuntime :=
  {| toLowerCase := ascii_toLowerCase;
     parseFragment := fun _ markup => text_nodes markup |}.

(* ===================================================================== *)
(** ** Numbers                                                            *)
(* ===================================================================== *)

(** The number of a non-negative integer below [2^53], such as the length
    of an array. *)
Definition of_integer (z : Z) : float := PrimFloat.of_uint63 (Uint63.of_Z z).

(** The least integer that is not below [m * 2^e], for [e < 0]. *)
Definition ceiling (m : positive) (e : Z) : Z :=
  let d := (2 ^ (- e))%Z in
  if (Zpos m mod d =? 0)%Z then (Zpos m / d)%Z else (Zpos m / d + 1)%Z.

(** [Math.ceil]: NaN, the infinities and the zeros are returned as they
    are, and so is a number with a non-negative exponent, which is an
    integer; a negative number is cut off towards zero, where [-0] keeps
    its sign. *)
Definition Math_ceil (x : float) : float :=
  match Prim2SF x with
  | S754_finite s m e =>
      if (0 <=? e)%Z then x
      else if s then (- of_integer (Zpos m / 2 ^ (- e)))%float
           else of_integer (ceiling m e)
  | _ => x
  end.

(* ===================================================================== *)
(** ** The document                                                       *)
(* ===================================================================== *)

Record Attributes := {
  attr_id : jsstring;     (* the empty string when the element has no id *)
  attr_rel : jsstring;
  attr_href : jsstring
}.

(** An element with its tag name, attributes and child elements. *)
#[local] Unset Elimination Schemes.
Inductive Node :=
| Element (tagName : jsstring) (attrs : Attributes) (childNodes : list Node).
#[local] Set Elimination Schemes.

(** Induction over a tree of elements, with the hypothesis available for
    every child. *)
Fixpoint Node_ind (P : Node -> Prop)
    (step : forall t a cs, Forall P cs -> P (Element t a cs))
    (n : Node) : P n :=
  match n with
  | Element t a cs =>
      step t a cs
        ((fix children (l : list Node) : Forall P l :=
            match l with
            | [] => Forall_nil P
            | c :: l' => @Forall_cons _ P c l' (Node_ind P step c) (children l')
            end) cs)
  end.

Definition node_id (n : Node) : jsstring :=
  match n with Element _ a _ => attr_id a end.

Definition node_href (n : Node) : jsstring :=
  match n with Element _ a _ => attr_href a end.

Definition node_rel (n : Node) : jsstring :=
  match n with Element _ a _ => attr_rel a end.

Definition node_tagName (n : Node) : jsstring :=
  match n with Element t _ _ => t end.

Definition node_children (n : Node) : list Node :=
  match n with Element _ _ cs => cs end.

(** The document: the children of [<head>] and the children of [<body>], in
    document order.  [<html>], [<head>] and [<body>] themselves carry no
    id. *)
Record Document := { head : list Node; body : list Node }.

(** An element has the ID [i] when its id attribute is [i] and not
    empty. *)
Definition has_id (i : jsstring) (n : Node) : bool :=
  negb (jsstring_eqb i []) && jsstring_eqb (node_id n) i.

(** The first element of a subtree, in tree order, with the given ID. *)
Fixpoint find_in_node (i : jsstring) (n : Node) : option Node :=
  if has_id i n then Some n
  else
    match n with
    | Element _ _ cs =>
        (fix find_in_list (l : list Node) : option Node :=
           match l with
           | [] => None
           | c :: l' =>
               match find_in_node i c with
               | Some r => Some r
               | None => find_in_list l'
               end
           end) cs
    end.

Fixpoint find_in_forest (i : jsstring) (l : list Node) : option Node :=
  match l with
  | [] => None
  | c :: l' =>
      match find_in_node i c with
      | Some r => Some r
      | None => find_in_forest i l'
      end
  end.

(** [document.getElementById(i)]. *)
Definition getElementById (d : Document) (i : jsstring) : option Node :=
  match find_in_forest i (head d) with
  | Some r => Some r
  | None => find_in_forest i (body d)
  end.

(** Removing the first element with the given ID below a node;
    [None] when no proper descendant has the ID. *)
Fixpoint remove_below (i : jsstring) (n : Node) : option Node :=
  match n with
  | Element t a cs =>
      option_map (Element t a)
        ((fix remove_in_list (l : list Node) : option (list Node) :=
            match l with
            | [] => None
            | c :: l' =>
                if has_id i c then Some l'
                else
                  match remove_below i c with
                  | Some c' => Some (c' :: l')
                  | None => option_map (cons c) (remove_in_list l')
                  end
            end) cs)
  end.

Fixpoint remove_in_forest (i : jsstring) (l : list Node) : option (list Node) :=
  match l with
  | [] => None
  | c :: l' =>
      if has_id i c then Some l'
      else
        match remove_below i c with
        | Some c' => Some (c' :: l')
        | None => option_map (cons c) (remove_in_forest i l')
        end
  end.

(** [document.getElementById(i).outerHTML = '']: the element found (the
    first one with that ID) is taken out of its parent, with its
    subtree. *)
Definition removeElementById (d : Document) (i : jsstring) : Document :=
  match remove_in_forest i (head d) with
  | Some h' => {| head := h'; body := body d |}
  | None =>
      match remove_in_forest i (body d) with
      | Some b' => {| head := head d; body := b' |}
      | None => d
      end
  end.

(** [document.head.appendChild(n)]. *)
Definition head_appendChild (n : Node) (d : Document) : Document :=
  {| head := head d ++ [n]; body := body d |}.

(* ===================================================================== *)
(** ** font-download.js                                                   *)
(* ===================================================================== *)

(** A font object of the catalog, with the two fields the code reads. *)
Record Font := { family : jsstring; variants : list jsstring }.

(** [`:${font.variants[0]}`]: an empty array gives [undefined], which the
    template prints as such. *)
Definition first_variant (f : Font) : jsstring :=
  match variants f with
  | [] => lit "undefined"
  | v :: _ => v
  end.

(** The part of the stylesheet URL shared by [downloadFullFont] and
    [downloadPreviewFont]. *)
Definition stylesheet_url (f : Font) : jsstring :=
  lit "https://fonts.googleapis.com/css?family="
  ++ replace_spaces_plus (family f)
  ++ (if existsb (jsstring_eqb (lit "regular")) (variants f)
      then lit ":regular"
      else lit ":" ++ first_variant f).

(** The element that [document.createElement('link')] gives, after
    [rel], [href] and [id] have been assigned: [href] takes a
    [USVString]. *)
Definition link_element (url id : jsstring) : Node :=
  Element (lit "link")
    {| attr_id := id; attr_rel := lit "stylesheet";
       attr_href := to_USVString url |} [].

Definition full_id (fontId : jsstring) : jsstring := lit "font-full-" ++ fontId.
Definition preview_id (fontId : jsstring) : jsstring :=
  lit "font-preview-" ++ fontId.

Definition downloadFullFont (font : Font) (fontId : jsstring) (d : Document)
    : Document :=
  let url := stylesheet_url font in
  head_appendChild (link_element url (full_id fontId)) d.

(** The characters to download: the family name without whitespace, then
    each code unit kept where it occurs first. *)
Definition downloadChars (font : Font) : jsstring :=
  let chars := replace_ws_runs [] (family font) in
  array_filter (fun x n s => (indexOf s x =? n)%Z) chars.

Definition preview_url (font : Font) : jsstring :=
  stylesheet_url font ++ lit "&text=" ++ downloadChars font.

Definition downloadPreviewFont (font : Font) (fontId : jsstring) (d : Document)
    : Document :=
  let url := preview_url font in
  head_appendChild (link_element url (preview_id fontId)) d.

Definition is_some {A} (o : option A) : bool :=
  match o with Some _ => true | None => false end.

Section FontDownload.
Context {rt : JSRuntime}.

(** The answer of [isFontAvailable] (module [./is-font-available], which
    is outside the modelled sources) at the time of the call. *)
Variable isFontAvailable : jsstring -> bool.

(** [font.family.replace(/\s+/g, '-').toLowerCase()], as line 70
    computes it. *)
Definition checkFullFont_fontId (fam : jsstring) : jsstring :=
  toLowerCase (replace_ws_runs (lit "-") fam).

(** The same expression on line 88. *)
Definition checkPreviewFont_fontId (fam : jsstring) : jsstring :=
  toLowerCase (replace_ws_runs (lit "-") fam).

Definition checkFullFont (font : Font) (d : Document) : Document :=
  let fontId := checkFullFont_fontId (family font) in
  if is_some (getElementById d (preview_id fontId)) then
    downloadFullFont font fontId (removeElementById d (preview_id fontId))
  else if negb (is_some (getElementById d (full_id fontId)))
          && negb (isFontAvailable (family font)) then
    downloadFullFont font fontId d
  else d.

Definition checkPreviewFont (font : Font) (d : Document) : Document :=
  let fontId := checkPreviewFont_fontId (family font) in
  if negb (is_some (getElementById d (full_id fontId)))
     && negb (isFontAvailable (family font)) then
    downloadPreviewFont font fontId d
  else d.
End FontDownload.

(** A call of one of the two exported functions, with the availability
    test as it answers during that call. *)
Inductive Call :=
| CheckFullFont (avail : jsstring -> bool) (font : Font)
| CheckPreviewFont (avail : jsstring -> bool) (font : Font).

Definition call {rt : JSRuntime} (c : Call) (d : Document) : Document :=
  match c with
  | CheckFullFont avail font => checkFullFont avail font d
  | CheckPreviewFont avail font => checkPreviewFont avail font d
  end.

Definition run_calls {rt : JSRuntime} (cs : list Call) (d : Document)
    : Document :=
  fold_left (fun d c => call c d) cs d.

(* ===================================================================== *)
(** ** Completions, JSON values and the network                           *)
(* ===================================================================== *)

(** What the code can throw, or a promise can be rejected with. *)
Inductive JSError :=
| Error (message : jsstring)        (* [Error(message)] of the source *)
| TypeError                         (* a property read on null or undefined *)
| DOMException (name : jsstring)    (* raised by a DOM operation *)
| OtherError (description : jsstring). (* raised by code outside the model *)

(** The outcome of a piece of code (or of a promise): it returns (fulfils
    with) a value or throws (rejects with) an error. *)
Inductive Completion (A : Type) :=
| Normal (a : A)
| Throw (e : JSError).
Arguments Normal {A} a.
Arguments Throw {A} e.

(** A value produced by [JSON.parse]. *)
#[local] Unset Elimination Schemes.
Inductive JSON :=
| JNull
| JBool (b : bool)
| JNumber (x : float)
| JString (s : jsstring)
| JArray (elements : list JSON)
| JObject (members : list (jsstring * JSON)).
#[local] Set Elimination Schemes.

(** A JavaScript value as far as [fetchFontList] can return one. *)
Inductive JSValue :=
| VUndefined
| VJson (j : JSON).

(** The own property [key] of a parsed object: when the text repeats a
    key, [JSON.parse] keeps the last value. *)
Fixpoint own_property (key : jsstring) (members : list (jsstring * JSON))
    : option JSON :=
  match members with
  | [] => None
  | (k, v) :: rest =>
      match own_property key rest with
      | Some w => Some w
      | None => if jsstring_eqb k key then Some v else None
      end
  end.

(** The member called [key] of a JSON value: only an object has
    members. *)
Definition member (key : jsstring) (j : JSON) : option JSON :=
  match j with
  | JObject members => own_property key members
  | _ => None
  end.

Definition has_member (key : jsstring) (j : JSON) : bool :=
  is_some (member key j).

(** [json.items].  Reading a property of [null] throws a [TypeError]; an
    object gives its own property or [undefined]; a boolean, a number, a
    string and an array are looked up in their prototypes, none of which
    defines [items]. *)
Definition get_items (json : JSON) : Completion JSValue :=
  match json with
  | JNull => Throw TypeError
  | JObject members =>
      match own_property (lit "items") members with
      | Some v => Normal (VJson v)
      | None => Normal VUndefined
      end
  | JBool _ | JNumber _ | JString _ | JArray _ => Normal VUndefined
  end.

Record Request := { req_method : jsstring; req_url : jsstring }.

(** A response, as far as the code looks at it: the outcome of
    [response.json()]. *)
Record Response := { response_json : Completion JSON }.

(** The network: the outcome of [window.fetch] for each request. *)
Definition Network := Request -> Completion Response.

Definition font_list_url (apiKey : jsstring) : jsstring :=
  lit "https://www.googleapis.com/webfonts/v1/webfonts?sort=popularity&key="
  ++ apiKey.

(** [fetchFontList]: the requests it issues, in order, and the outcome of
    the promise it returns. *)
Definition fetchFontList (net : Network) (apiKey : jsstring)
    : list Request * Completion JSValue :=
  let request := {| req_method := lit "GET"; req_url := font_list_url apiKey |} in
  ([request],
   match net request with
   | Throw e => Throw e
   | Normal response =>
       match response_json response with
       | Throw e => Throw e
       | Normal json => get_items json
       end
   end).

(* ===================================================================== *)
(** ** FontPicker.js: the widget state                                    *)
(* ===================================================================== *)

(** The font manager as the picker reads it.  The class itself
    ([../FontManager/FontManager]) is outside the modelled sources. *)
Record FontManager := { activeFont : Font; fonts : list Font }.

(** The options the picker reads: [options.name], absent or a string. *)
Record Options := { name : option jsstring }.

(** The third argument of the constructor: left out, [null], or an
    object. *)
Inductive OptionsArg :=
| OptionsUndefined
| OptionsNull
| OptionsObject (o : Options).

(** An element created by the picker.  [el_content] holds the nodes that
    an assignment to [innerHTML] has put below the element; the elements
    that the picker appends with [appendChild] are listed in the picker
    itself. *)
Record Elem := {
  el_tag : jsstring;
  el_type : jsstring;
  el_content : list DomNode;
  el_classList : list jsstring
}.

Definition createElement (tag : jsstring) : Elem :=
  {| el_tag := tag; el_type := []; el_content := []; el_classList := [] |}.

Definition set_type (v : jsstring) (e : Elem) : Elem :=
  {| el_tag := el_tag e; el_type := v; el_content := el_content e;
     el_classList := el_classList e |}.
(** [e.innerHTML = v]: the children of the element are replaced by what
    the parser makes of [v] inside an element of this kind. *)
Definition set_innerHTML {rt : JSRuntime} (v : jsstring) (e : Elem) : Elem :=
  {| el_tag := el_tag e; el_type := el_type e;
     el_content := parseFragment (el_tag e) v;
     el_classList := el_classList e |}.
Definition set_classList (v : list jsstring) (e : Elem) : Elem :=
  {| el_tag := el_tag e; el_type := el_type e; el_content := el_content e;
     el_classList := v |}.

(** [DOMTokenList]: an ordered set of tokens.  [add] and [remove] first
    check every token: the empty string raises a [SyntaxError], a token
    with ASCII whitespace an [InvalidCharacterError]. *)
Definition validate_token (t : jsstring) : Completion unit :=
  if jsstring_eqb t [] then Throw (DOMException (lit "SyntaxError"))
  else if existsb is_ascii_whitespace t
       then Throw (DOMException (lit "InvalidCharacterError"))
       else Normal tt.

Fixpoint validate_tokens (ts : list jsstring) : Completion unit :=
  match ts with
  | [] => Normal tt
  | t :: ts' =>
      match validate_token t with
      | Throw e => Throw e
      | Normal _ => validate_tokens ts'
      end
  end.

Definition contains (t : jsstring) (cl : list jsstring) : bool :=
  existsb (jsstring_eqb t) cl.

Definition append_token (cl : list jsstring) (t : jsstring) : list jsstring :=
  if contains t cl then cl else cl ++ [t].

Definition remove_token (cl : list jsstring) (t : jsstring) : list jsstring :=
  filter (fun c => negb (jsstring_eqb t c)) cl.

Definition classList_add (ts : list jsstring) (cl : list jsstring)
    : Completion (list jsstring) :=
  match validate_tokens ts with
  | Throw e => Throw e
  | Normal _ => Normal (fold_left append_token ts cl)
  end.

Definition classList_remove (ts : list jsstring) (cl : list jsstring)
    : Completion (list jsstring) :=
  match validate_tokens ts with
  | Throw e => Throw e
  | Normal _ => Normal (fold_left remove_token ts cl)
  end.

(** The elements the picker appends to other elements. *)
Inductive ElemRef := DropdownButton | DropdownFont | DropdownIcon | FontList.

Inductive LogEntry :=
| LogString (s : jsstring)
| LogError (e : JSError).

(** A node below the list [ul]: the button of the entry at a position of
    the list, or a node that the parser has put below that button, given
    by the child positions that lead to it from the button. *)
Inductive NodeRef :=
| FontButton (i : nat)
| Descendant (i : nat) (path : list nat).

(** The value of a property that holds a node. *)
Inductive Reference :=
| Undefined
| Null
| Ref (r : NodeRef).

(** The picker object, the elements it holds and what it has done to its
    surroundings.
    - [dropdownIcon] is the element bound to the local constant of
      [generateUI] that the two promise handlers capture;
    - [ul_entries] are the [<li>] children of [ul], each given by its only
      child, the font button;
    - [activeFontA] refers to a node below [ul];
    - [div_children] and [div_title] are the children appended to, and the
      title set on, the element found under [pickerId];
    - [init_calls] counts the calls of [fontManager.init()];
    - [click_listener] tells that [closeEventListener] is registered on the
      document;
    - [downloadPreviews_calls] lists the arguments of the calls of
      [fontManager.downloadPreviews], in the order of the calls. *)
Record FontPicker := {
  pickerSuffix : jsstring;
  pickerId : jsstring;
  fontManager : FontManager;
  expanded : bool;
  dropdownButton : Elem;
  button_children : list ElemRef;
  dropdownFont : Elem;
  dropdownIcon : Elem;
  ul : Elem;
  ul_onscroll : bool;
  ul_entries : list Elem;
  activeFontA : Reference;
  div_children : list ElemRef;
  div_title : option jsstring;
  init_calls : nat;
  click_listener : bool;
  console : list LogEntry;
  downloadPreviews_calls : list float
}.

(** The object as the constructor leaves it before [generateUI] runs. *)
Definition blank_picker (suffix id : jsstring) (fm : FontManager) : FontPicker :=
  {| pickerSuffix := suffix; pickerId := id; fontManager := fm;
     expanded := false;
     dropdownButton := createElement []; button_children := [];
     dropdownFont := createElement []; dropdownIcon := createElement [];
     ul := createElement []; ul_onscroll := false; ul_entries := [];
     activeFontA := Undefined; div_children := []; div_title := None;
     init_calls := 0; click_listener := false; console := [];
     downloadPreviews_calls := [] |}.

(** Field updates. *)
Definition set_fontManager (v : FontManager) (p : FontPicker) : FontPicker :=
  {| pickerSuffix := pickerSuffix p; pickerId := pickerId p;
     fontManager := v; expanded := expanded p;
     dropdownButton := dropdownButton p;
     button_children := button_children p; dropdownFont := dropdownFont p;
     dropdownIcon := dropdownIcon p; ul := ul p;
     ul_onscroll := ul_onscroll p; ul_entries := ul_entries p;
     activeFontA := activeFontA p; div_children := div_children p;
     div_title := div_title p; init_calls := init_calls p;
     click_listener := click_listener p; console := console p;
     downloadPreviews_calls := downloadPreviews_calls p |}.
Definition set_expanded (v : bool) (p : FontPicker) : FontPicker :=
  {| pickerSuffix := pickerSuffix p; pickerId := pickerId p;
     fontManager := fontManager p; expanded := v;
     dropdownButton := dropdownButton p;
     button_children := button_children p; dropdownFont := dropdownFont p;
     dropdownIcon := dropdownIcon p; ul := ul p;
     ul_onscroll := ul_onscroll p; ul_entries := ul_entries p;
     activeFontA := activeFontA p; div_children := div_children p;
     div_title := div_title p; init_calls := init_calls p;
     click_listener := click_listener p; console := console p;
     downloadPreviews_calls := downloadPreviews_calls p |}.
Definition set_dropdownButton (v : Elem) (p : FontPicker) : FontPicker :=
  {| pickerSuffix := pickerSuffix p; pickerId := pickerId p;
     fontManager := fontManager p; expanded := expanded p;
     dropdownButton := v; button_children := button_children p;
     dropdownFont := dropdownFont p; dropdownIcon := dropdownIcon p;
     ul := ul p; ul_onscroll := ul_onscroll p; ul_entries := ul_entries p;
     activeFontA := activeFontA p; div_children := div_children p;
     div_title := div_title p; init_calls := init_calls p;
     click_listener := click_listener p; console := console p;
     downloadPreviews_calls := downloadPreviews_calls p |}.
Definition set_button_children (v : list ElemRef) (p : FontPicker) : FontPicker :=
  {| pickerSuffix := pickerSuffix p; pickerId := pickerId p;
     fontManager := fontManager p; expanded := expanded p;
     dropdownButton := dropdownButton p; button_children := v;
     dropdownFont := dropdownFont p; dropdownIcon := dropdownIcon p;
     ul := ul p; ul_onscroll := ul_onscroll p; ul_entries := ul_entries p;
     activeFontA := activeFontA p; div_children := div_children p;
     div_title := div_title p; init_calls := init_calls p;
     click_listener := click_listener p; console := console p;
     downloadPreviews_calls := downloadPreviews_calls p |}.
Definition set_dropdownFont (v : Elem) (p : FontPicker) : FontPicker :=
  {| pickerSuffix := pickerSuffix p; pickerId := pickerId p;
     fontManager := fontManager p; expanded := expanded p;
     dropdownButton := dropdownButton p;
     button_children := button_children p; dropdownFont := v;
     dropdownIcon := dropdownIcon p; ul := ul p;
     ul_onscroll := ul_onscroll p; ul_entries := ul_entries p;
     activeFontA := activeFontA p; div_children := div_children p;
     div_title := div_title p; init_calls := init_calls p;
     click_listener := click_listener p; console := console p;
     downloadPreviews_calls := downloadPreviews_calls p |}.
Definition set_dropdownIcon (v : Elem) (p : FontPicker) : FontPicker :=
  {| pickerSuffix := pickerSuffix p; pickerId := pickerId p;
     fontManager := fontManager p; expanded := expanded p;
     dropdownButton := dropdownButton p;
     button_children := button_children p; dropdownFont := dropdownFont p;
     dropdownIcon := v; ul := ul p; ul_onscroll := ul_onscroll p;
     ul_entries := ul_entries p; activeFontA := activeFontA p;
     div_children := div_children p; div_title := div_title p;
     init_calls := init_calls p; click_listener := click_listener p;
     console := console p;
     downloadPreviews_calls := downloadPreviews_calls p |}.
Definition set_ul (v : Elem) (p : FontPicker) : FontPicker :=
  {| pickerSuffix := pickerSuffix p; pickerId := pickerId p;
     fontManager := fontManager p; expanded := expanded p;
     dropdownButton := dropdownButton p;
     button_children := button_children p; dropdownFont := dropdownFont p;
     dropdownIcon := dropdownIcon p; ul := v; ul_onscroll := ul_onscroll p;
     ul_entries := ul_entries p; activeFontA := activeFontA p;
     div_children := div_children p; div_title := div_title p;
     init_calls := init_calls p; click_listener := click_listener p;
     console := console p;
     downloadPreviews_calls := downloadPreviews_calls p |}.
Definition set_ul_onscroll (v : bool) (p : FontPicker) : FontPicker :=
  {| pickerSuffix := pickerSuffix p; pickerId := pickerId p;
     fontManager := fontManager p; expanded := expanded p;
     dropdownButton := dropdownButton p;
     button_children := button_children p; dropdownFont := dropdownFont p;
     dropdownIcon := dropdownIcon p; ul := ul p; ul_onscroll := v;
     ul_entries := ul_entries p; activeFontA := activeFontA p;
     div_children := div_children p; div_title := div_title p;
     init_calls := init_calls p; click_listener := click_listener p;
     console := console p;
     downloadPreviews_calls := downloadPreviews_calls p |}.
Definition set_ul_entries (v : list Elem) (p : FontPicker) : FontPicker :=
  {| pickerSuffix := pickerSuffix p; pickerId := pickerId p;
     fontManager := fontManager p; expanded := expanded p;
     dropdownButton := dropdownButton p;
     button_children := button_children p; dropdownFont := dropdownFont p;
     dropdownIcon := dropdownIcon p; ul := ul p;
     ul_onscroll := ul_onscroll p; ul_entries := v;
     activeFontA := activeFontA p; div_children := div_children p;
     div_title := div_title p; init_calls := init_calls p;
     click_listener := click_listener p; console := console p;
     downloadPreviews_calls := downloadPreviews_calls p |}.
Definition set_activeFontA (v : Reference) (p : FontPicker) : FontPicker :=
  {| pickerSuffix := pickerSuffix p; pickerId := pickerId p;
     fontManager := fontManager p; expanded := expanded p;
     dropdownButton := dropdownButton p;
     button_children := button_children p; dropdownFont := dropdownFont p;
     dropdownIcon := dropdownIcon p; ul := ul p;
     ul_onscroll := ul_onscroll p; ul_entries := ul_entries p;
     activeFontA := v; div_children := div_children p;
     div_title := div_title p; init_calls := init_calls p;
     click_listener := click_listener p; console := console p;
     downloadPreviews_calls := downloadPreviews_calls p |}.
Definition set_div_children (v : list ElemRef) (p : FontPicker) : FontPicker :=
  {| pickerSuffix := pickerSuffix p; pickerId := pickerId p;
     fontManager := fontManager p; expanded := expanded p;
     dropdownButton := dropdownButton p;
     button_children := button_children p; dropdownFont := dropdownFont p;
     dropdownIcon := dropdownIcon p; ul := ul p;
     ul_onscroll := ul_onscroll p; ul_entries := ul_entries p;
     activeFontA := activeFontA p; div_children := v;
     div_title := div_title p; init_calls := init_calls p;
     click_listener := click_listener p; console := console p;
     downloadPreviews_calls := downloadPreviews_calls p |}.
Definition set_div_title (v : option jsstring) (p : FontPicker) : FontPicker :=
  {| pickerSuffix := pickerSuffix p; pickerId := pickerId p;
     fontManager := fontManager p; expanded := expanded p;
     dropdownButton := dropdownButton p;
     button_children := button_children p; dropdownFont := dropdownFont p;
     dropdownIcon := dropdownIcon p; ul := ul p;
     ul_onscroll := ul_onscroll p; ul_entries := ul_entries p;
     activeFontA := activeFontA p; div_children := div_children p;
     div_title := v; init_calls := init_calls p;
     click_listener := click_listener p; console := console p;
     downloadPreviews_calls := downloadPreviews_calls p |}.
Definition set_init_calls (v : nat) (p : FontPicker) : FontPicker :=
  {| pickerSuffix := pickerSuffix p; pickerId := pickerId p;
     fontManager := fontManager p; expanded := expanded p;
     dropdownButton := dropdownButton p;
     button_children := button_children p; dropdownFont := dropdownFont p;
     dropdownIcon := dropdownIcon p; ul := ul p;
     ul_onscroll := ul_onscroll p; ul_entries := ul_entries p;
     activeFontA := activeFontA p; div_children := div_children p;
     div_title := div_title p; init_calls := v;
     click_listener := click_listener p; console := console p;
     downloadPreviews_calls := downloadPreviews_calls p |}.
Definition set_click_listener (v : bool) (p : FontPicker) : FontPicker :=
  {| pickerSuffix := pickerSuffix p; pickerId := pickerId p;
     fontManager := fontManager p; expanded := expanded p;
     dropdownButton := dropdownButton p;
     button_children := button_children p; dropdownFont := dropdownFont p;
     dropdownIcon := dropdownIcon p; ul := ul p;
     ul_onscroll := ul_onscroll p; ul_entries := ul_entries p;
     activeFontA := activeFontA p; div_children := div_children p;
     div_title := div_title p; init_calls := init_calls p;
     click_listener := v; console := console p;
     downloadPreviews_calls := downloadPreviews_calls p |}.
Definition set_console (v : list LogEntry) (p : FontPicker) : FontPicker :=
  {| pickerSuffix := pickerSuffix p; pickerId := pickerId p;
     fontManager := fontManager p; expanded := expanded p;
     dropdownButton := dropdownButton p;
     button_children := button_children p; dropdownFont := dropdownFont p;
     dropdownIcon := dropdownIcon p; ul := ul p;
     ul_onscroll := ul_onscroll p; ul_entries := ul_entries p;
     activeFontA := activeFontA p; div_children := div_children p;
     div_title := div_title p; init_calls := init_calls p;
     click_listener := click_listener p; console := v;
     downloadPreviews_calls := downloadPreviews_calls p |}.
Definition set_downloadPreviews_calls (v : list float) (p : FontPicker)
    : FontPicker :=
  {| pickerSuffix := pickerSuffix p; pickerId := pickerId p;
     fontManager := fontManager p; expanded := expanded p;
     dropdownButton := dropdownButton p;
     button_children := button_children p; dropdownFont := dropdownFont p;
     dropdownIcon := dropdownIcon p; ul := ul p;
     ul_onscroll := ul_onscroll p; ul_entries := ul_entries p;
     activeFontA := activeFontA p; div_children := div_children p;
     div_title := div_title p; init_calls := init_calls p;
     click_listener := click_listener p; console := console p;
     downloadPreviews_calls := v |}.

(* ===================================================================== *)
(** ** FontPicker.js: the methods                                         *)
(* ===================================================================== *)

(** Code that works on the picker and may throw; what it did before it
    threw stays done. *)
Definition Action (A : Type) : Type := FontPicker -> FontPicker * Completion A.

Definition ret {A} (a : A) : Action A := fun p => (p, Normal a).

Definition bind {A B} (c : Action A) (k : A -> Action B) : Action B :=
  fun p =>
    match c p with
    | (p', Normal a) => k a p'
    | (p', Throw e) => (p', Throw e)
    end.

Definition throw {A} (e : JSError) : Action A := fun p => (p, Throw e).
Definition read {A} (f : FontPicker -> A) : Action A := fun p => (p, Normal (f p)).
Definition modify (f : FontPicker -> FontPicker) : Action unit :=
  fun p => (f p, Normal tt).
Definition lift {A} (c : Completion A) : Action A := fun p => (p, c).

(** [c.catch(h)] on the promise of [c], and [try { c } catch (e) { h }]. *)
Definition try_catch {A} (c : Action A) (h : JSError -> Action A) : Action A :=
  fun p =>
    match c p with
    | (p', Normal a) => (p', Normal a)
    | (p', Throw e) => h e p'
    end.

Declare Scope action_scope.
Delimit Scope action_scope with action.
Notation "x <- c ;; k" := (bind c (fun x => k))
  (at level 61, c at next level, right associativity) : action_scope.
Notation "c ;; k" := (bind c (fun _ => k))
  (at level 61, right associativity) : action_scope.
#[local] Open Scope action_scope.

(** [el.classList.add(...)] or [el.classList.remove(...)] on an element
    held in a field of the picker. *)
Definition on_classList (get : FontPicker -> Elem)
    (set : Elem -> FontPicker -> FontPicker)
    (op : list jsstring -> Completion (list jsstring)) : Action unit :=
  e <- read get ;;
  cl <- lift (op (el_classList e)) ;;
  modify (set (set_classList cl e)).

Definition quote : jsstring := [34%N].

Definition errMessage : jsstring :=
  lit "Error trying to fetch the list of available fonts".

(** The synchronous part of [generateUI]: everything up to the call of
    [fontManager.init()], whose promise gets the two handlers below. *)
Definition generateUI {rt : JSRuntime} (d : Document) : Action unit :=
  modify (set_expanded false) ;;
  id <- read pickerId ;;
  match getElementById d id with
  | None => throw (Error (lit "Missing div with id=" ++ quote ++ id ++ quote))
  | Some _ =>
      (* dropdown button *)
      modify (set_dropdownButton (createElement (lit "button"))) ;;
      on_classList dropdownButton set_dropdownButton
        (classList_add [lit "dropdown-button"]) ;;
      modify (fun p => set_dropdownButton
                         (set_type (lit "button") (dropdownButton p)) p) ;;
      modify (fun p => set_div_children (div_children p ++ [DropdownButton]) p) ;;
      (* name of the selected font *)
      modify (set_dropdownFont (createElement (lit "p"))) ;;
      fam <- read (fun p => family (activeFont (fontManager p))) ;;
      modify (fun p => set_dropdownFont (set_innerHTML fam (dropdownFont p)) p) ;;
      on_classList dropdownFont set_dropdownFont
        (classList_add [lit "dropdown-font-name"]) ;;
      modify (fun p => set_button_children
                         (button_children p ++ [DropdownFont]) p) ;;
      (* dropdown icon *)
      modify (set_dropdownIcon (createElement (lit "p"))) ;;
      on_classList dropdownIcon set_dropdownIcon
        (classList_add [lit "dropdown-icon"; lit "loading"]) ;;
      modify (fun p => set_button_children
                         (button_children p ++ [DropdownIcon]) p) ;;
      (* font list *)
      modify (set_ul (createElement (lit "ul"))) ;;
      (* this.fontManager.init() *)
      modify (fun p => set_init_calls (S (init_calls p)) p)
  end.

(** [new FontPicker(apiKey, defaultFont, options, onChange)] in the
    document [d].  [options.name] is read first, which throws when
    [options] was left out or is [null]; [new_FontManager] is the outcome
    of [new FontManager(apiKey, defaultFont, options, onChange)], a class
    outside the modelled sources. *)
Definition new_FontPicker {rt : JSRuntime} (d : Document) (options : OptionsArg)
    (new_FontManager : Completion FontManager) : Completion FontPicker :=
  match options with
  | OptionsUndefined | OptionsNull => Throw TypeError
  | OptionsObject o =>
      let suffix :=
        match name o with
        | Some n => if jsstring_eqb n [] then [] else lit "-" ++ n
        | None => []
        end in
      let id := lit "font-picker" ++ suffix in
      match new_FontManager with
      | Throw e => Throw e
      | Normal fm =>
          match generateUI d (blank_picker suffix id fm) with
          | (p, Normal _) => Normal p
          | (_, Throw e) => Throw e
          end
      end
  end.

(* ===================================================================== *)
(** ** The nodes below the list                                           *)
(* ===================================================================== *)

(** The node that a path of child positions leads to, from the parent of
    the nodes given. *)
Fixpoint node_at (path : list nat) (nodes : list DomNode) : option DomNode :=
  match path with
  | [] => None
  | k :: path' =>
      match nth_error nodes k, path' with
      | None, _ => None
      | Some n, [] => Some n
      | Some (ElementNode _ _ cs), _ => node_at path' cs
      | Some _, _ => None
      end
  end.

(** The list with the element at position [k] replaced. *)
Definition replace_nth {A} (k : nat) (x : A) (l : list A) : list A :=
  firstn k l ++ x :: skipn (S k) l.

(** [node.classList.add(...)] or [node.classList.remove(...)] on the node
    that a path leads to.  A text and a comment have no [classList], and
    the call on [undefined] throws. *)
Fixpoint on_descendant_classList
    (op : list jsstring -> Completion (list jsstring))
    (path : list nat) (nodes : list DomNode) : Completion (list DomNode) :=
  match path with
  | [] => Throw TypeError
  | k :: path' =>
      match nth_error nodes k with
      | Some (ElementNode t cl cs) =>
          match path' with
          | [] =>
              match op cl with
              | Normal cl' => Normal (replace_nth k (ElementNode t cl' cs) nodes)
              | Throw e => Throw e
              end
          | _ =>
              match on_descendant_classList op path' cs with
              | Normal cs' => Normal (replace_nth k (ElementNode t cl cs') nodes)
              | Throw e => Throw e
              end
          end
      | _ => Throw TypeError
      end
  end.

(** The [<li>] elements at and below a node, in tree order, each by the
    path that leads to it from the node. *)
Fixpoint li_paths (n : DomNode) : list (list nat) :=
  match n with
  | ElementNode t _ cs =>
      (if jsstring_eqb t (lit "li") then [[]] else [])
      ++ (fix below (l : list DomNode) (k : nat) : list (list nat) :=
            match l with
            | [] => []
            | c :: l' => map (cons k) (li_paths c) ++ below l' (S k)
            end) cs 0%nat
  | TextNode _ | CommentNode _ => []
  end.

(** The same for the nodes of one parent, the first of which has the
    position [k]. *)
Fixpoint li_paths_from (nodes : list DomNode) (k : nat) : list (list nat) :=
  match nodes with
  | [] => []
  | n :: nodes' => map (cons k) (li_paths n) ++ li_paths_from nodes' (S k)
  end.

(** An element of [ul.getElementsByTagName('li')]: the [<li>] of an
    entry, or one that the parser has put below the button of an
    entry. *)
Inductive LiRef :=
| EntryLi (i : nat)
| ParsedLi (i : nat) (path : list nat).

(** [ul.getElementsByTagName('li')] for the entries from position [i] on:
    the [<li>] descendants of the list in tree order. *)
Fixpoint li_elements_from (entries : list Elem) (i : nat) : list LiRef :=
  match entries with
  | [] => []
  | e :: entries' =>
      EntryLi i :: map (ParsedLi i) (li_paths_from (el_content e) 0)
      ++ li_elements_from entries' (S i)
  end.

Definition getElementsByTagName_li (entries : list Elem) : list LiRef :=
  li_elements_from entries 0.

(** [li.firstChild]: the button of an entry, or the first child of a
    parsed [<li>], which is [null] when it has no children. *)
Definition firstChild (entries : list Elem) (li : LiRef) : Reference :=
  match li with
  | EntryLi i => Ref (FontButton i)
  | ParsedLi i path =>
      match nth_error entries i with
      | Some e =>
          match node_at path (el_content e) with
          | Some (ElementNode _ _ (_ :: _)) => Ref (Descendant i (path ++ [0%nat]))
          | _ => Null
          end
      | None => Null
      end
  end.

(* ===================================================================== *)
(** ** The throttle of the scroll handler                                 *)
(* ===================================================================== *)

Definition THROTTLE_INTERVAL : Z := 250.

(** The variables of the function that [throttle(func, wait)] of
    [lodash.throttle] returns, a debounced function with a leading and a
    trailing call and [maxWait = wait].  [lastArgs] tells that a call is
    waiting to be handed on, [timerId] that the variable is defined, and
    [timeouts] counts the timeouts that were set and have not fired:
    setting a new one does not clear the old one. *)
Record Throttle := {
  lastArgs : bool;
  lastCallTime : option Z;
  lastInvokeTime : Z;
  timerId : bool;
  timeouts : nat
}.

(** The variables when [throttle] returns. *)
Definition new_throttle : Throttle :=
  {| lastArgs := false; lastCallTime := None; lastInvokeTime := 0;
     timerId := false; timeouts := 0 |}.

Definition shouldInvoke (wait : Z) (th : Throttle) (time : Z) : bool :=
  match lastCallTime th with
  | None => true
  | Some lastCall =>
      (wait <=? time - lastCall)%Z || (time - lastCall <? 0)%Z
      || (wait <=? time - lastInvokeTime th)%Z
  end.

(** [invokeFunc(time)], without the call of [func] itself. *)
Definition invokeFunc (th : Throttle) (time : Z) : Throttle :=
  {| lastArgs := false; lastCallTime := lastCallTime th;
     lastInvokeTime := time; timerId := timerId th; timeouts := timeouts th |}.

(** [timerId = setTimeout(timerExpired, ...)]. *)
Definition setTimeout (th : Throttle) : Throttle :=
  {| lastArgs := lastArgs th; lastCallTime := lastCallTime th;
     lastInvokeTime := lastInvokeTime th; timerId := true;
     timeouts := S (timeouts th) |}.

(** [leadingEdge(time)]: a timeout is set for the trailing edge, and
    [func] is called. *)
Definition leadingEdge (th : Throttle) (time : Z) : Throttle * bool :=
  (invokeFunc (setTimeout th) time, true).

(** [trailingEdge(time)]: [func] is called only when a call is waiting. *)
Definition trailingEdge (th : Throttle) (time : Z) : Throttle * bool :=
  let th :=
    {| lastArgs := lastArgs th; lastCallTime := lastCallTime th;
       lastInvokeTime := lastInvokeTime th; timerId := false;
       timeouts := timeouts th |} in
  if lastArgs th then (invokeFunc th time, true)
  else (th, false).

(** A call of the throttled function when the clock shows [time]: the
    variables afterwards, and whether [func] was called. *)
Definition debounced (wait : Z) (th : Throttle) (time : Z) : Throttle * bool :=
  let isInvoking := shouldInvoke wait th time in
  let th :=
    {| lastArgs := true; lastCallTime := Some time;
       lastInvokeTime := lastInvokeTime th; timerId := timerId th;
       timeouts := timeouts th |} in
  if isInvoking then
    if negb (timerId th) then leadingEdge th time
    else (invokeFunc (setTimeout th) time, true)   (* a call in a tight loop *)
  else if negb (timerId th) then (setTimeout th, false)
  else (th, false).

(** [timerExpired()], when one of the timeouts fires and the clock shows
    [time]. *)
Definition timerExpired (wait : Z) (th : Throttle) (time : Z) : Throttle * bool :=
  let th :=
    {| lastArgs := lastArgs th; lastCallTime := lastCallTime th;
       lastInvokeTime := lastInvokeTime th; timerId := timerId th;
       timeouts := Nat.pred (timeouts th) |} in
  if shouldInvoke wait th time then trailingEdge th time
  else (setTimeout th, false).

(** What [onScroll] reads from the list element. *)
Record Layout := {
  scrollHeight : float;
  scrollTop : float;
  clientHeight : float
}.

Section Widget.
Context {rt : JSRuntime}.

(** [fontManager.setActiveFont(fontFamily)], which is outside the
    modelled sources: the index it returns and the manager as it leaves
    it. *)
Variable fm_setActiveFont : jsstring -> FontManager -> Z * FontManager.

(** [fontFamily.replace(/\s+/g, '-').toLowerCase()], as line 71
    computes it. *)
Definition generateUI_fontId (fontFamily : jsstring) : jsstring :=
  toLowerCase (replace_ws_runs (lit "-") fontFamily).

(** One turn of the loop over [fontManager.fonts]: the list entry of one
    font.  The button is referred to by the position its [<li>] gets in
    the list. *)
Definition render_entry (font : Font) : Action unit :=
  let fontFamily := family font in
  let fontId := generateUI_fontId fontFamily in
  suffix <- read pickerSuffix ;;
  let fontButton :=
    set_innerHTML fontFamily
      (set_type (lit "button") (createElement (lit "button"))) in
  cl <- lift (classList_add [lit "font-" ++ fontId ++ suffix]
                (el_classList fontButton)) ;;
  let fontButton := set_classList cl fontButton in
  active <- read (fun p => family (activeFont (fontManager p))) ;;
  fontButton <-
    (if jsstring_eqb fontFamily active then
       cl <- lift (classList_add [lit "active-font"]
                     (el_classList fontButton)) ;;
       position <- read (fun p => List.length (ul_entries p)) ;;
       modify (set_activeFontA (Ref (FontButton position))) ;;
       ret (set_classList cl fontButton)
     else ret fontButton) ;;
  modify (fun p => set_ul_entries (ul_entries p ++ [fontButton]) p).

Fixpoint render_entries (fs : list Font) : Action unit :=
  match fs with
  | [] => ret tt
  | font :: fs' => render_entry font ;; render_entries fs'
  end.

(** The handler given to [.then]. *)
Definition init_fulfilled : Action unit :=
  on_classList dropdownIcon set_dropdownIcon
    (classList_remove [lit "loading"]) ;;
  on_classList dropdownIcon set_dropdownIcon
    (classList_add [lit "finished"]) ;;
  modify (set_ul_onscroll true) ;;
  fs <- read (fun p => fonts (fontManager p)) ;;
  render_entries fs ;;
  modify (fun p => set_div_children (div_children p ++ [FontList]) p).

(** The handler given to [.catch]. *)
Definition init_rejected (err : JSError) : Action unit :=
  on_classList dropdownIcon set_dropdownIcon
    (classList_remove [lit "loading"]) ;;
  on_classList dropdownIcon set_dropdownIcon
    (classList_add [lit "error"]) ;;
  modify (fun p => set_console (console p ++ [LogString errMessage]) p) ;;
  modify (fun p => set_console (console p ++ [LogError err]) p) ;;
  modify (set_div_title (Some errMessage)).

(** How the promise of [fontManager.init()] settles, with the manager
    as [init] leaves it. *)
Inductive InitOutcome :=
| InitFulfilled (fm : FontManager)
| InitRejected (fm : FontManager) (err : JSError).

(** [init().then(...).catch(...)]: the second handler also receives
    what the first one throws. *)
Definition init_settled (o : InitOutcome) : Action unit :=
  match o with
  | InitFulfilled fm =>
      modify (set_fontManager fm) ;;
      try_catch init_fulfilled init_rejected
  | InitRejected fm err =>
      modify (set_fontManager fm) ;;
      init_rejected err
  end.

Definition toggleExpanded : Action unit :=
  e <- read expanded ;;
  if e then
    modify (set_expanded false) ;;
    on_classList dropdownButton set_dropdownButton
      (classList_remove [lit "expanded"]) ;;
    on_classList ul set_ul (classList_remove [lit "expanded"]) ;;
    modify (set_click_listener false)
  else
    modify (set_expanded true) ;;
    on_classList dropdownButton set_dropdownButton
      (classList_add [lit "expanded"]) ;;
    on_classList ul set_ul (classList_add [lit "expanded"]) ;;
    modify (set_click_listener true).

(** [closeEventListener(e)]: [path] lists the clicked element and its
    ancestors, each by whether it is the element found under
    [pickerId]. *)
Definition closeEventListener (path : list bool) : Action unit :=
  if existsb (fun is_picker => is_picker) path then ret tt
  else toggleExpanded.

Definition getActiveFont (p : FontPicker) : Font :=
  activeFont (fontManager p).

(** [onScroll]: [layout] is what the list element shows when the method
    runs; [fontManager.downloadPreviews] is outside the modelled sources,
    and [fm] is the manager as that call leaves it. *)
Definition onScroll (layout : Layout) (fm : FontManager) : Action unit :=
  n <- read (fun p => List.length (fonts (fontManager p))) ;;
  let elementHeight := (scrollHeight layout / of_integer (Z.of_nat n))%float in
  let downloadIndex :=
    Math_ceil ((scrollTop layout + clientHeight layout) / elementHeight)%float in
  modify (fun p => set_downloadPreviews_calls
                     (downloadPreviews_calls p ++ [(downloadIndex + 5)%float]) p) ;;
  modify (set_fontManager fm).

(** [el.classList] operation on the font button at a position of the
    list. *)
Definition on_entry_classList (i : nat)
    (op : list jsstring -> Completion (list jsstring)) : Action unit :=
  entries <- read ul_entries ;;
  match nth_error entries i with
  | None => throw TypeError
  | Some e =>
      cl <- lift (op (el_classList e)) ;;
      modify (fun p =>
                set_ul_entries
                  (firstn i (ul_entries p) ++ set_classList cl e
                     :: skipn (S i) (ul_entries p)) p)
  end.

(** [this.activeFontA.classList] operation: on the button of an entry, or
    on a node below one; [undefined] and [null] have no properties. *)
Definition on_activeFontA_classList
    (op : list jsstring -> Completion (list jsstring)) : Action unit :=
  a <- read activeFontA ;;
  match a with
  | Undefined | Null => throw TypeError
  | Ref (FontButton i) => on_entry_classList i op
  | Ref (Descendant i path) =>
      entries <- read ul_entries ;;
      match nth_error entries i with
      | None => throw TypeError
      | Some e =>
          content <- lift (on_descendant_classList op path (el_content e)) ;;
          modify (fun p =>
                    set_ul_entries
                      (replace_nth i
                         {| el_tag := el_tag e; el_type := el_type e;
                            el_content := content;
                            el_classList := el_classList e |}
                         (ul_entries p)) p)
      end
  end.

Definition setActiveFont (fontFamily : jsstring) : Action unit :=
  fm <- read fontManager ;;
  let listIndex := fst (fm_setActiveFont fontFamily fm) in
  modify (set_fontManager (snd (fm_setActiveFont fontFamily fm))) ;;
  if (0 <=? listIndex)%Z then
    modify (fun p => set_dropdownFont
                       (set_innerHTML fontFamily (dropdownFont p)) p) ;;
    on_activeFontA_classList (classList_remove [lit "active-font"]) ;;
    entries <- read ul_entries ;;
    match nth_error (getElementsByTagName_li entries) (Z.to_nat listIndex) with
    | None => throw TypeError
    | Some li =>
        modify (set_activeFontA (firstChild entries li)) ;;
        on_activeFontA_classList (classList_add [lit "active-font"])
    end
  else ret tt.

(** What happens to the widget after its construction.  [now] is what
    the clock shows, in milliseconds; a scroll event and a timeout of the
    throttle come with the layout of the list and with the manager as a
    call of [downloadPreviews] at that moment would leave it. *)
Inductive Event :=
| EvInitSettled (o : InitOutcome)
| EvToggleExpanded                  (* dropdown button, or a call *)
| EvFontButton (i : nat)            (* click or key press on an entry *)
| EvDocumentClick (path : list bool)
| EvScroll (now : Z) (layout : Layout) (fm : FontManager)
| EvTimeout (now : Z) (layout : Layout) (fm : FontManager)
| EvSetActiveFont (fontFamily : jsstring).

(** The picker together with the state of the promise of
    [fontManager.init()] and the variables of the throttled scroll
    handler. *)
Record Widget := {
  picker : FontPicker;
  init_pending : bool;
  scroll_throttle : Throttle
}.

Definition after {A} (a : Action A) (w : Widget) : Widget :=
  {| picker := fst (a (picker w)); init_pending := init_pending w;
     scroll_throttle := scroll_throttle w |}.

(** The throttled handler has decided: [func], which calls [onScroll],
    runs or does not. *)
Definition throttled (decision : Throttle * bool) (layout : Layout)
    (fm : FontManager) (w : Widget) : Widget :=
  {| picker := if snd decision then fst (onScroll layout fm (picker w))
               else picker w;
     init_pending := init_pending w;
     scroll_throttle := fst decision |}.

Definition handle (w : Widget) (e : Event) : Widget :=
  match e with
  | EvInitSettled o =>
      if init_pending w then
        {| picker := fst (init_settled o (picker w)); init_pending := false;
           scroll_throttle := scroll_throttle w |}
      else w
  | EvToggleExpanded => after toggleExpanded w
  | EvFontButton i =>
      if (i <? List.length (ul_entries (picker w)))%nat then
        after (toggleExpanded ;;
               fs <- read (fun p => fonts (fontManager p)) ;;
               match nth_error fs i with
               | None => throw TypeError
               | Some font => setActiveFont (family font)
               end) w
      else w
  | EvDocumentClick path =>
      if click_listener (picker w) then after (closeEventListener path) w
      else w
  | EvScroll now layout fm =>
      if ul_onscroll (picker w) then
        throttled (debounced THROTTLE_INTERVAL (scroll_throttle w) now)
          layout fm w
      else w
  | EvTimeout now layout fm =>
      match timeouts (scroll_throttle w) with
      | O => w
      | S _ =>
          throttled (timerExpired THROTTLE_INTERVAL (scroll_throttle w) now)
            layout fm w
      end
  | EvSetActiveFont fontFamily => after (setActiveFont fontFamily) w
  end.

Definition run_events (w : Widget) (es : list Event) : Widget :=
  fold_left handle es w.

Definition start (p : FontPicker) : Widget :=
  {| picker := p; init_pending := true; scroll_throttle := new_throttle |}.
End Widget.

(* ===================================================================== *)
(** ** Sample inputs                                                      *)
(* ===================================================================== *)

Definition openSans : Font :=
  {| family := lit "Open Sans"; variants := [lit "300"; lit "regular"] |}.

Definition lobster : Font :=
  {| family := lit "Lobster"; variants := [lit "regular"] |}.

Definition emptyDocument : Document := {| head := []; body := [] |}.

(** A font that is not installed, with its stylesheet not loaded yet. *)
Definition notAvailable : jsstring -> bool := fun _ => false.

(** A page whose body holds one [<div>] with the given id. *)
Definition page_with_div (id : jsstring) : Document :=
  {| head := [];
     body := [Element (lit "div")
                {| attr_id := id; attr_rel := []; attr_href := [] |} []] |}.

(** Fonts whose family names hold a character that a URL reads as a
    delimiter, and one with two characters outside the Basic Multilingual
    Plane (U+1F600 and U+1F601), which share their first code unit. *)
Definition ampersandFont : Font :=
  {| family := lit "A&B"; variants := [lit "regular"] |}.

Definition hashFont : Font :=
  {| family := lit "C#"; variants := [lit "regular"] |}.

Definition astralFont : Font :=
  {| family := [55357; 56832; 55357; 56833]%N; variants := [lit "regular"] |}.

(** The [href] of the link that [downloadPreviewFont] appends to the head
    of the empty document. *)
Definition preview_href (font : Font) : list jsstring :=
  map node_href (head (downloadPreviewFont font (lit "id") emptyDocument)).

(** A network that answers every request with a response whose body
    parses to [j]. *)
Definition serve (j : JSON) : Network :=
  fun _ => Normal {| response_json := Normal j |}.

Fixpoint family_index (fam : jsstring) (fs : list Font) (i : Z) : Z :=
  match fs with
  | [] => (-1)%Z
  | f :: fs' =>
      if jsstring_eqb (family f) fam then i else family_index fam fs' (i + 1)%Z
  end.

(** A font manager method for the runs below: the position of the family
    in the list, or [-1]; a font that is found becomes the active one. *)
Definition sample_setActiveFont (fam : jsstring) (fm : FontManager)
    : Z * FontManager :=
  let i := family_index fam (fonts fm) 0%Z in
  (i, match nth_error (fonts fm) (Z.to_nat i) with
      | Some f => if (0 <=? i)%Z then {| activeFont := f; fonts := fonts fm |}
                  else fm
      | None => fm
      end).

Definition managerBefore : FontManager :=
  {| activeFont := openSans; fonts := [] |}.

Definition managerAfter : FontManager :=
  {| activeFont := openSans; fonts := [openSans; lobster] |}.

(** A list of two entries of 20 pixels each, shown in full. *)
Definition sampleLayout : Layout :=
  {| scrollHeight := 40; scrollTop := 0; clientHeight := 40 |}.

(** The picker of a page with the container [font-picker], right after
    its construction. *)
Definition samplePicker : FontPicker :=
  match new_FontPicker (rt := ascii_runtime) (page_with_div (lit "font-picker"))
          (OptionsObject {| name := None |}) (Normal managerBefore) with
  | Normal p => p
  | Throw _ => blank_picker [] [] managerBefore
  end.

(** The same picker after the font list has arrived. *)
Definition renderedPicker : FontPicker :=
  picker
    (handle (rt := ascii_runtime) sample_setActiveFont (start samplePicker)
       (EvInitSettled (InitFulfilled managerAfter))).

(** The font list arrives, and the list is scrolled three times within
    a quarter of a second; the manager stays as it is. *)
Definition threeScrolls : list Event :=
  [EvInitSettled (InitFulfilled managerAfter);
   EvScroll 1000 sampleLayout managerAfter;
   EvScroll 1100 sampleLayout managerAfter;
   EvScroll 1200 sampleLayout managerAfter].

(** A picker called [a b], in a page with the container
    [font-picker-a b]. *)
Definition spacedPicker : FontPicker :=
  match new_FontPicker (rt := ascii_runtime)
          (page_with_div (lit "font-picker-a b"))
          (OptionsObject {| name := Some (lit "a b") |})
          (Normal managerBefore) with
  | Normal p => p
  | Throw _ => blank_picker [] [] managerBefore
  end.

(* ===================================================================== *)
(** ** The strings of the specification                                   *)
(* ===================================================================== *)

(** The string without its whitespace. *)
Definition without_whitespace (s : jsstring) : jsstring :=
  filter (fun c => negb (is_whitespace c)) s.

(** Every character once, at the place where it occurs first; [seen]
    holds the characters met so far. *)
Fixpoint first_occurrences (seen s : jsstring) : jsstring :=
  match s with
  | [] => []
  | c :: s' =>
      if existsb (N.eqb c) seen then first_occurrences seen s'
      else c :: first_occurrences (c :: seen) s'
  end.

(** The distinct characters of a family name: whitespace removed,
    duplicates dropped, in order of first occurrence. *)
Definition distinct_chars (fam : jsstring) : jsstring :=
  first_occurrences [] (without_whitespace fam).

(** Every space replaced by a plus sign. *)
Definition plus_for_spaces (s : jsstring) : jsstring :=
  map (fun c => if (c =? 32)%N then 43%N else c) s.

(** The variant a stylesheet is requested in: [regular] when the font has
    it, else the first variant of the font. *)
Definition requested_variant (f : Font) : jsstring :=
  if existsb (jsstring_eqb (lit "regular")) (variants f) then lit "regular"
  else first_variant f.

(** The string up to the first [stop], and the string behind the first
    [start]. *)
Fixpoint up_to (stop : code_unit) (s : jsstring) : jsstring :=
  match s with
  | [] => []
  | c :: s' => if (c =? stop)%N then [] else c :: up_to stop s'
  end.

Fixpoint behind (start : code_unit) (s : jsstring) : option jsstring :=
  match s with
  | [] => None
  | c :: s' => if (c =? start)%N then Some s' else behind start s'
  end.

(** The pieces of a string between the occurrences of [sep]. *)
Fixpoint pieces (sep : code_unit) (s : jsstring) : list jsstring :=
  match s with
  | [] => [[]]
  | c :: s' =>
      if (c =? sep)%N then [] :: pieces sep s'
      else
        match pieces sep s' with
        | piece :: rest => (c :: piece) :: rest
        | [] => [[c]]
        end
  end.

(** The query of a URL: what stands between the first [?] and the
    fragment, which the first [#] starts. *)
Definition url_query (url : jsstring) : option jsstring :=
  behind 63%N (up_to 35%N url).

(** The parameters of the query, in order: the non-empty pieces between
    the [&], each split at its first [=] into a name and a value. *)
Definition query_parameters (url : jsstring) : list (jsstring * jsstring) :=
  match url_query url with
  | None => []
  | Some q =>
      map (fun piece =>
             (up_to 61%N piece,
              match behind 61%N piece with Some v => v | None => [] end))
        (filter (fun piece => negb (jsstring_eqb piece [])) (pieces 38%N q))
  end.

(** The value of the first parameter with the given name. *)
Definition query_parameter (name url : jsstring) : option jsstring :=
  option_map snd
    (find (fun nv => jsstring_eqb (fst nv) name) (query_parameters url)).

(** The string holds no [c], and the string holds no surrogate code
    unit. *)
Definition free_of (c : code_unit) (s : jsstring) : bool :=
  forallb (fun x => negb (x =? c)%N) s.

Definition no_surrogates (s : jsstring) : bool :=
  forallb (fun c => negb (is_high_surrogate c || is_low_surrogate c)) s.

(** A character that stands for itself in the query of a URL, so that
    the value of a parameter is the text written behind its [=]: a
    character of the Basic Multilingual Plane (no surrogate code unit)
    that is no control character and none of [#], [%], [&] and [+]. *)
Definition stands_for_itself (c : code_unit) : bool :=
  negb ((c <? 32) || (c =? 35) || (c =? 37) || (c =? 38) || (c =? 43)
        || is_high_surrogate c || is_low_surrogate c)%N.

Fixpoint drop_whitespace (s : jsstring) : jsstring :=
  match s with
  | [] => []
  | c :: s' => if is_whitespace c then drop_whitespace s' else s
  end.

(** The family name with every run of whitespace replaced by one
    hyphen. *)
Equations? hyphenate (s : jsstring) : jsstring by wf (List.length s) lt :=
  hyphenate [] := [];
  hyphenate (c :: s') with is_whitespace c => {
    | true := lit "-" ++ hyphenate (drop_whitespace s');
    | false := c :: hyphenate s' }.
Proof.
  clear hyphenate.
  assert (H : forall t, (List.length (drop_whitespace t) <= List.length t)%nat).
  { induction t as [|x t IH]; simpl; [lia|].
    destruct (is_whitespace x); simpl; lia. }
  specialize (H s'). lia.
Qed.

(* ===================================================================== *)
(** ** Invariants of the widget and of the document                       *)
(* ===================================================================== *)

(** The parts of the picker that only the promise handlers of
    [generateUI] write: the icon, the children and the title of the
    container, the scroll handler, the console and the call of [init];
    the list keeps its entries. *)
Definition untouched (p p' : FontPicker) : Prop :=
  dropdownIcon p' = dropdownIcon p
  /\ div_children p' = div_children p
  /\ div_title p' = div_title p
  /\ ul_onscroll p' = ul_onscroll p
  /\ console p' = console p
  /\ init_calls p' = init_calls p
  /\ pickerSuffix p' = pickerSuffix p
  /\ List.length (ul_entries p') = List.length (ul_entries p).

Definition preserves {A} (a : Action A) : Prop :=
  forall p, untouched p (fst (a p)).

(** An action keeps a relation between the picker before and after it,
    whether it completes or throws. *)
Definition keeps {A} (R : FontPicker -> FontPicker -> Prop) (a : Action A)
    : Prop :=
  forall p, R p (fst (a p)).

(** No call of [fontManager.downloadPreviews] was made. *)
Definition requests_kept (p p' : FontPicker) : Prop :=
  downloadPreviews_calls p' = downloadPreviews_calls p.

(** The picker between [generateUI] and the settling of the promise. *)
Definition loading (p : FontPicker) : Prop :=
  el_classList (dropdownIcon p) = [lit "dropdown-icon"; lit "loading"]
  /\ div_children p = [DropdownButton]
  /\ div_title p = None
  /\ ul_onscroll p = false
  /\ console p = []
  /\ init_calls p = 1%nat
  /\ ul_entries p = [].

(** What rendering the list leaves alone: everything but the entries and
    the reference to the active one. *)
Definition outside_list (p p' : FontPicker) : Prop :=
  dropdownIcon p' = dropdownIcon p
  /\ div_children p' = div_children p
  /\ div_title p' = div_title p
  /\ ul_onscroll p' = ul_onscroll p
  /\ console p' = console p
  /\ init_calls p' = init_calls p
  /\ pickerSuffix p' = pickerSuffix p
  /\ fontManager p' = fontManager p.

(** A string that [DOMTokenList] accepts inside a token. *)
Definition no_ascii_whitespace (s : jsstring) : Prop :=
  existsb is_ascii_whitespace s = false.

(** The three states of the icon, and the class list of each. *)
Inductive IconState := IconLoading | IconFinished | IconError.

Definition icon_class (s : IconState) : jsstring :=
  match s with
  | IconLoading => lit "loading"
  | IconFinished => lit "finished"
  | IconError => lit "error"
  end.

Definition icon_in_state (s : IconState) (p : FontPicker) : Prop :=
  el_classList (dropdownIcon p) = [lit "dropdown-icon"; icon_class s].

(** The state the icon is to take when the promise settles. *)
Definition settled_state (o : InitOutcome) : IconState :=
  match o with
  | InitFulfilled _ => IconFinished
  | InitRejected _ _ => IconError
  end.

(** The name of the picker, when there is one, is free of ASCII
    whitespace, as an id and a class name have to be. *)
Definition name_accepted (options : OptionsArg) : Prop :=
  match options with
  | OptionsObject {| name := Some n |} => no_ascii_whitespace n
  | _ => True
  end.

(** The picker after a handler has taken [loading] off the icon and put
    the class [state] on it. *)
Definition icon_marked (state : jsstring) (p : FontPicker) : FontPicker :=
  set_dropdownIcon
    (set_classList
       (append_token
          (remove_token (el_classList (dropdownIcon p)) (lit "loading")) state)
       (dropdownIcon p)) p.

(** The number of elements with the ID [i], in a subtree, a list of
    subtrees and the document. *)
Fixpoint count_in_node (i : jsstring) (n : Node) : nat :=
  match n with
  | Element _ _ cs =>
      ((if has_id i n then 1 else 0)
       + (fix count_in_list (l : list Node) : nat :=
            match l with
            | [] => 0
            | c :: l' => count_in_node i c + count_in_list l'
            end) cs)%nat
  end.

Fixpoint count_in_forest (i : jsstring) (l : list Node) : nat :=
  match l with
  | [] => 0%nat
  | c :: l' => (count_in_node i c + count_in_forest i l')%nat
  end.

Definition count_id (d : Document) (i : jsstring) : nat :=
  (count_in_forest i (head d) + count_in_forest i (body d))%nat.

(** For the font id [x] the document holds at most one preview link, and
    not a preview link together with a full link. *)
Definition exclusive (x : jsstring) (d : Document) : Prop :=
  (count_id d (preview_id x) <= 1)%nat
  /\ (count_id d (preview_id x) = 0%nat \/ count_id d (full_id x) = 0%nat).

(** Every call of [checkPreviewFont] in the sequence is made for a font
    whose preview link is not in the document yet. *)
Fixpoint previews_requested_once {rt : JSRuntime} (cs : list Call)
    (d : Document) : Prop :=
  match cs with
  | [] => True
  | c :: cs' =>
      match c with
      | CheckPreviewFont _ font =>
          getElementById d
            (preview_id (checkPreviewFont_fontId (family font))) = None
      | CheckFullFont _ _ => True
      end
      /\ previews_requested_once cs' (call c d)
  end.

(** What removing the first element with the ID [i] does to the counts:
    no count grows, and the count of [i] shrinks; nothing is removed only
    when there is nothing to remove. *)
Definition removal_shrinks_forest (i : jsstring) (l : list Node) : Prop :=
  (forall l', remove_in_forest i l = Some l' ->
     (forall j, count_in_forest j l' <= count_in_forest j l)%nat
     /\ (count_in_forest i l' < count_in_forest i l)%nat)
  /\ (remove_in_forest i l = None -> count_in_forest i l = 0%nat).

Definition removal_shrinks_node (i : jsstring) (n : Node) : Prop :=
  (forall n', remove_below i n = Some n' ->
     (forall j, count_in_node j n' <= count_in_node j n)%nat
     /\ (count_in_node i n' < count_in_node i n)%nat)
  /\ (remove_below i n = None -> count_in_forest i (node_children n) = 0%nat).

(* ===================================================================== *)
(** ** Further sample inputs                                              *)
(* ===================================================================== *)

(** The empty document after the preview of Open Sans was requested. *)
Definition previewedDocument : Document :=
  checkPreviewFont (rt := ascii_runtime) notAvailable openSans emptyDocument.

(** A font that is installed. *)
Definition available : jsstring -> bool := fun _ => true.

(* ===================================================================== *)
(** ** The rendered list, in the words of its description                 *)
(* ===================================================================== *)

(** The class that ties a list entry to its font. *)
Definition font_class {rt : JSRuntime} (suffix : jsstring) (font : Font)
    : jsstring :=
  lit "font-" ++ generateUI_fontId (family font) ++ suffix.

(** The button of a font in the list: its content is what the parser
    makes of the family name, and it carries the class of the font and,
    for the active family, the class [active-font]. *)
Definition entry_for {rt : JSRuntime} (suffix active : jsstring) (font : Font)
    : Elem :=
  {| el_tag := lit "button";
     el_type := lit "button";
     el_content := parseFragment (lit "button") (family font);
     el_classList :=
       if jsstring_eqb (family font) active
       then [font_class suffix font; lit "active-font"]
       else [font_class suffix font] |}.

(** The position, counted from [i], of the last font of the list with
    the family [active]. *)
Fixpoint last_active (active : jsstring) (fs : list Font) (i : nat)
    : option nat :=
  match fs with
  | [] => None
  | f :: fs' =>
      match last_active active fs' (S i) with
      | Some k => Some k
      | None => if jsstring_eqb (family f) active then Some i else None
      end
  end.

(** The reference to the button at that position, or [undefined]. *)
Definition button_at (position : option nat) : Reference :=
  match position with
  | Some k => Ref (FontButton k)
  | None => Undefined
  end.

(** A text without markup: it holds no [<] and no [&], and neither
    U+0000 nor a carriage return, which the parser drops or replaces. *)
Definition plain_text (s : jsstring) : bool :=
  forallb (fun c => negb ((c =? 60) || (c =? 38) || (c =? 0) || (c =? 13))%N) s.

(** The parser reads a text without markup as that text, whatever the
    element it is assigned to. *)
Definition reads_plain_text (rt : JSRuntime) : Prop :=
  forall context s,
    plain_text s = true -> parseFragment context s = text_nodes s.

(** The parser has put no [<li>] below the button of the entry. *)
Definition no_parsed_li (e : Elem) : Prop :=
  li_paths_from (el_content e) 0 = [].

(** The entry is marked as the active one. *)
Definition highlighted (e : Elem) : bool :=
  contains (lit "active-font") (el_classList e).

(** A manager whose active font is not in its list. *)
Definition managerOrphan : FontManager :=
  {| activeFont := openSans; fonts := [lobster] |}.

(** The sample picker after a list without the active font has
    arrived. *)
Definition orphanPicker : FontPicker :=
  picker
    (handle (rt := ascii_runtime) sample_setActiveFont (start samplePicker)
       (EvInitSettled (InitFulfilled managerOrphan))).

(* ===================================================================== *)
(** ** What the methods of the picker keep                                *)
(* ===================================================================== *)

(** The selection as the picker shows it: the name in the dropdown
    button, the entries with their classes, and the reference to the
    active entry. *)
Definition selection_kept (p p' : FontPicker) : Prop :=
  dropdownFont p' = dropdownFont p
  /\ ul_entries p' = ul_entries p
  /\ activeFontA p' = activeFontA p.

(** The expansion of the list: the flag, the button and the list element
    with their classes, and the listener on the document. *)
Definition expansion_kept (p p' : FontPicker) : Prop :=
  expanded p' = expanded p
  /\ dropdownButton p' = dropdownButton p
  /\ ul p' = ul p
  /\ click_listener p' = click_listener p.

(** The flag, the class [expanded] on the button and on the list, and
    the listener on the document agree. *)
Definition expansion_consistent (p : FontPicker) : Prop :=
  click_listener p = expanded p
  /\ el_classList (dropdownButton p)
     = (if expanded p then [lit "dropdown-button"; lit "expanded"]
        else [lit "dropdown-button"])
  /\ el_classList (ul p) = (if expanded p then [lit "expanded"] else []).

(** An action that starts without an active entry ends without one. *)
Definition stays_unselected (p p' : FontPicker) : Prop :=
  activeFontA p = Undefined -> activeFontA p' = Undefined.

(* ===================================================================== *)
(** ** What the container shows once the promise is settled               *)
(* ===================================================================== *)

(** The list is appended to the container behind the dropdown button,
    the icon shows [finished], and nothing was logged. *)
Definition list_shown (p : FontPicker) : Prop :=
  div_children p = [DropdownButton; FontList]
  /\ el_classList (dropdownIcon p) = [lit "dropdown-icon"; lit "finished"]
  /\ div_title p = None
  /\ console p = [].

(** The list is not appended, the icon carries [error], the title of the
    container is the error message, and the message and one error were
    logged. *)
Definition error_shown (p : FontPicker) : Prop :=
  div_children p = [DropdownButton]
  /\ contains (lit "error") (el_classList (dropdownIcon p)) = true
  /\ div_title p = Some errMessage
  /\ exists err, console p = [LogString errMessage; LogError err].

(* ===================================================================== *)
(** ** Strings: the font id and the characters of the preview            *)
(* ===================================================================== *)

Lemma jsstring_eqb_eq (a b : jsstring) : jsstring_eqb a b = true <-> a = b.
Proof.
  unfold jsstring_eqb. destruct (list_eq_dec N.eq_dec a b); split; congruence.
Qed.

Lemma jsstring_eqb_neq (a b : jsstring) : jsstring_eqb a b = false <-> a <> b.
Proof.
  unfold jsstring_eqb. destruct (list_eq_dec N.eq_dec a b); split; congruence.
Qed.

(** Inside a run of whitespace the scan first skips the rest of the run. *)
Lemma replace_in_run (rep s : jsstring) :
  replace_ws_runs_from true rep s
  = replace_ws_runs_from false rep (drop_whitespace s).
Proof.
  induction s as [|c s IH]; simpl; [reflexivity|].
  destruct (is_whitespace c) eqn:Hc; simpl; [exact IH|].
  rewrite Hc. reflexivity.
Qed.

(** The regular expression replacement is the replacement of runs. *)
Lemma replace_ws_runs_hyphenate (s : jsstring) :
  replace_ws_runs (lit "-") s = hyphenate s.
Proof.
  unfold replace_ws_runs.
  funelim (hyphenate s); simp hyphenate.
  - reflexivity.
  - cbn [replace_ws_runs_from]. rewrite Heq. cbn [negb].
    rewrite replace_in_run.
    match goal with IH : replace_ws_runs_from false _ _ = hyphenate _ |- _ =>
      rewrite IH end.
    reflexivity.
  - cbn [replace_ws_runs_from]. rewrite Heq.
    match goal with IH : replace_ws_runs_from false _ _ = hyphenate _ |- _ =>
      rewrite IH end.
    reflexivity.
Qed.

(** With the empty replacement, the whitespace is filtered out. *)
Lemma replace_ws_runs_empty (b : bool) (s : jsstring) :
  replace_ws_runs_from b [] s = without_whitespace s.
Proof.
  revert b. induction s as [|c s IH]; intros b; simpl; [reflexivity|].
  destruct (is_whitespace c); simpl.
  - destruct b; apply IH.
  - f_equal. apply IH.
Qed.

(** In [pre ++ x :: rest] the first index of [x] is the length of [pre]
    exactly when [x] does not occur in [pre]. *)
Lemma indexOf_from_at (x : code_unit) (pre rest : jsstring) (i : Z) :
  (0 <= i)%Z ->
  (indexOf_from x (pre ++ x :: rest) i =? i + Z.of_nat (List.length pre))%Z
  = negb (existsb (N.eqb x) pre).
Proof.
  revert i. induction pre as [|y pre IH]; intros i Hi.
  - simpl. rewrite N.eqb_refl. apply Z.eqb_eq. lia.
  - cbn [app indexOf_from existsb List.length].
    rewrite (N.eqb_sym x y). destruct (y =? x)%N; cbn [orb negb].
    + apply Z.eqb_neq. lia.
    + rewrite <- (IH (i + 1)%Z) by lia. f_equal. lia.
Qed.

Lemma indexOf_at (x : code_unit) (pre rest : jsstring) :
  (indexOf (pre ++ x :: rest) x =? Z.of_nat (List.length pre))%Z
  = negb (existsb (N.eqb x) pre).
Proof.
  unfold indexOf. rewrite <- (indexOf_from_at x pre rest 0 (Z.le_refl 0)).
  reflexivity.
Qed.

Lemma existsb_same_members (x : code_unit) (l1 l2 : jsstring) :
  (forall y, In y l1 <-> In y l2) ->
  existsb (N.eqb x) l1 = existsb (N.eqb x) l2.
Proof.
  intros H. apply eq_true_iff_eq. rewrite !existsb_exists.
  split; intros [y [Hy Hxy]]; exists y; split; try assumption; apply H;
    assumption.
Qed.

(** The filter of the source keeps exactly the first occurrences. *)
Lemma array_filter_first_occurrences (pre rest seen : jsstring) :
  (forall y, In y seen <-> In y pre) ->
  array_filter_from (fun x n s => (indexOf s x =? n)%Z) (pre ++ rest) rest
    (Z.of_nat (List.length pre))
  = first_occurrences seen rest.
Proof.
  revert pre seen. induction rest as [|x rest IH]; intros pre seen Hs;
    [reflexivity|].
  cbn [array_filter_from first_occurrences].
  rewrite indexOf_at.
  rewrite (existsb_same_members x seen pre Hs).
  assert (Hnext : (Z.of_nat (List.length pre) + 1)%Z
                  = Z.of_nat (List.length (pre ++ [x]))).
  { rewrite length_app. simpl. lia. }
  assert (Hwhole : pre ++ x :: rest = (pre ++ [x]) ++ rest).
  { rewrite <- app_assoc. reflexivity. }
  destruct (existsb (N.eqb x) pre) eqn:Hx; cbn [negb];
    rewrite Hnext, Hwhole.
  - apply IH. intros y. rewrite Hs, in_app_iff. simpl.
    apply existsb_exists in Hx. destruct Hx as [z [Hz Hxz]].
    apply N.eqb_eq in Hxz. subst z. intuition (subst; assumption).
  - f_equal. apply IH. intros y. rewrite in_app_iff. simpl.
    rewrite Hs. intuition.
Qed.

Lemma downloadChars_distinct (font : Font) :
  downloadChars font = distinct_chars (family font).
Proof.
  unfold downloadChars, distinct_chars, array_filter, replace_ws_runs.
  rewrite replace_ws_runs_empty.
  apply (array_filter_first_occurrences [] (without_whitespace (family font)) []).
  intros y. reflexivity.
Qed.

Lemma first_occurrences_In (seen s : jsstring) (x : code_unit) :
  In x (first_occurrences seen s) <-> In x s /\ ~ In x seen.
Proof.
  revert seen. induction s as [|c s IH]; intros seen; simpl; [tauto|].
  destruct (existsb (N.eqb c) seen) eqn:Hc.
  - apply existsb_exists in Hc. destruct Hc as [z [Hz Hcz]].
    apply N.eqb_eq in Hcz. subst z. rewrite IH.
    intuition (subst; contradiction).
  - assert (Hn : ~ In c seen).
    { intros Hin. apply Bool.not_true_iff_false in Hc. apply Hc.
      apply existsb_exists. exists c. split; [assumption | apply N.eqb_refl]. }
    simpl. rewrite IH. simpl.
    destruct (N.eq_dec c x) as [->|Hne]; intuition.
Qed.

Lemma first_occurrences_NoDup (seen s : jsstring) :
  NoDup (first_occurrences seen s).
Proof.
  revert seen. induction s as [|c s IH]; intros seen; simpl; [constructor|].
  destruct (existsb (N.eqb c) seen); [apply IH|].
  constructor; [|apply IH].
  rewrite first_occurrences_In. simpl. tauto.
Qed.

Lemma without_whitespace_In (s : jsstring) (c : code_unit) :
  In c (without_whitespace s) <-> In c s /\ is_whitespace c = false.
Proof.
  unfold without_whitespace. rewrite filter_In, negb_true_iff. reflexivity.
Qed.

(* ===================================================================== *)
(** ** font-download.js: the URL of the preview stylesheet                *)
(* ===================================================================== *)

Lemma to_USVString_plain (s : jsstring) :
  no_surrogates s = true -> to_USVString s = s.
Proof.
  unfold no_surrogates. induction s as [|c s IH]; [reflexivity|].
  cbn [forallb to_USVString]. rewrite andb_true_iff, negb_true_iff, orb_false_iff.
  intros [[Hh Hl] Hs]. rewrite Hh, Hl, (IH Hs). reflexivity.
Qed.

Lemma replace_spaces_plus_map (s : jsstring) :
  replace_spaces_plus s = plus_for_spaces s.
Proof.
  unfold replace_spaces_plus, plus_for_spaces.
  induction s as [|c s IH]; [reflexivity|].
  cbn [flat_map map]. rewrite IH. destruct (c =? 32)%N; reflexivity.
Qed.

Lemma stylesheet_url_explicit (font : Font) :
  stylesheet_url font
  = lit "https://fonts.googleapis.com/css?family="
    ++ plus_for_spaces (family font) ++ lit ":" ++ requested_variant font.
Proof.
  unfold stylesheet_url, requested_variant. rewrite replace_spaces_plus_map.
  destruct (existsb (jsstring_eqb (lit "regular")) (variants font)); reflexivity.
Qed.

Lemma preview_url_explicit (font : Font) :
  preview_url font
  = lit "https://fonts.googleapis.com/css?family="
    ++ plus_for_spaces (family font) ++ lit ":" ++ requested_variant font
    ++ lit "&text=" ++ distinct_chars (family font).
Proof.
  unfold preview_url. rewrite stylesheet_url_explicit, downloadChars_distinct.
  rewrite <- !app_assoc. reflexivity.
Qed.

Lemma up_to_free (c : code_unit) (s : jsstring) :
  free_of c s = true -> up_to c s = s.
Proof.
  unfold free_of. induction s as [|x s IH]; [reflexivity|].
  cbn [forallb up_to]. rewrite andb_true_iff, negb_true_iff.
  intros [Hx Hs]. rewrite Hx, (IH Hs). reflexivity.
Qed.

Lemma up_to_app (c : code_unit) (a b : jsstring) :
  free_of c a = true -> up_to c (a ++ c :: b) = a.
Proof.
  unfold free_of. induction a as [|x a IH]; cbn [forallb up_to app].
  - rewrite N.eqb_refl. reflexivity.
  - rewrite andb_true_iff, negb_true_iff.
    intros [Hx Ha]. rewrite Hx, (IH Ha). reflexivity.
Qed.

Lemma behind_app (c : code_unit) (a b : jsstring) :
  free_of c a = true -> behind c (a ++ c :: b) = Some b.
Proof.
  unfold free_of. induction a as [|x a IH]; cbn [forallb behind app].
  - rewrite N.eqb_refl. reflexivity.
  - rewrite andb_true_iff, negb_true_iff.
    intros [Hx Ha]. rewrite Hx. exact (IH Ha).
Qed.

Lemma pieces_free (c : code_unit) (s : jsstring) :
  free_of c s = true -> pieces c s = [s].
Proof.
  unfold free_of. induction s as [|x s IH]; [reflexivity|].
  cbn [forallb pieces]. rewrite andb_true_iff, negb_true_iff.
  intros [Hx Hs]. rewrite Hx, (IH Hs). reflexivity.
Qed.

Lemma pieces_app (c : code_unit) (a b : jsstring) :
  free_of c a = true -> pieces c (a ++ c :: b) = a :: pieces c b.
Proof.
  unfold free_of. induction a as [|x a IH]; cbn [forallb pieces app].
  - rewrite N.eqb_refl. reflexivity.
  - rewrite andb_true_iff, negb_true_iff.
    intros [Hx Ha]. rewrite Hx, (IH Ha). reflexivity.
Qed.

Lemma free_of_app (c : code_unit) (a b : jsstring) :
  free_of c (a ++ b) = free_of c a && free_of c b.
Proof. apply forallb_app. Qed.

Lemma no_surrogates_app (a b : jsstring) :
  no_surrogates (a ++ b) = no_surrogates a && no_surrogates b.
Proof. apply forallb_app. Qed.

(** What holds of every character of the name holds of every character
    sent for it. *)
Lemma forallb_distinct_chars (f : code_unit -> bool) (fam : jsstring) :
  forallb f fam = true -> forallb f (distinct_chars fam) = true.
Proof.
  rewrite !forallb_forall. intros H c Hc. apply H.
  unfold distinct_chars in Hc.
  apply first_occurrences_In in Hc. destruct Hc as [Hc _].
  apply without_whitespace_In in Hc. exact (proj1 Hc).
Qed.

Lemma forallb_plus_for_spaces (f : code_unit -> bool) (s : jsstring) :
  f 43%N = true -> forallb f s = true -> forallb f (plus_for_spaces s) = true.
Proof.
  intros Hplus. unfold plus_for_spaces.
  induction s as [|c s IH]; [reflexivity|].
  cbn [forallb map]. rewrite !andb_true_iff. intros [Hc Hs].
  split; [|exact (IH Hs)]. destruct (c =? 32)%N; assumption.
Qed.

Lemma forallb_weaken (f g : code_unit -> bool) (s : jsstring) :
  (forall c, f c = true -> g c = true) ->
  forallb f s = true -> forallb g s = true.
Proof.
  intros Hfg. rewrite !forallb_forall. intros H c Hc. apply Hfg, H, Hc.
Qed.

Lemma stands_for_itself_no_delimiter (c : code_unit) :
  stands_for_itself c = true ->
  negb (c =? 35)%N = true /\ negb (c =? 38)%N = true
  /\ negb (is_high_surrogate c || is_low_surrogate c) = true.
Proof.
  unfold stands_for_itself. rewrite !negb_true_iff, !orb_false_iff.
  intros [[[[[[_ H35] _] H38] _] Hh] Hl]. rewrite Hh, Hl. auto.
Qed.

(** The URL of the preview stylesheet, for a name and a variant whose
    characters stand for themselves: no surrogate is replaced, and the
    query has the two parameters [family] and [text]. *)
Lemma preview_url_query (fam variant : jsstring) :
  forallb stands_for_itself fam = true ->
  forallb stands_for_itself variant = true ->
  let url :=
    lit "https://fonts.googleapis.com/css?family="
    ++ plus_for_spaces fam ++ lit ":" ++ variant
    ++ lit "&text=" ++ distinct_chars fam in
  to_USVString url = url
  /\ query_parameters url
     = [(lit "family", plus_for_spaces fam ++ lit ":" ++ variant);
        (lit "text", distinct_chars fam)].
Proof.
  intros Hfam Hvar. cbv zeta.
  set (F := plus_for_spaces fam). set (T := distinct_chars fam).
  assert (Hall : forall g : code_unit -> bool,
            (forall c, stands_for_itself c = true -> g c = true) ->
            g 43%N = true ->
            forallb g F = true /\ forallb g variant = true
            /\ forallb g T = true).
  { intros g Hg Hplus.
    pose proof (forallb_weaken _ g _ Hg Hfam) as H1.
    pose proof (forallb_weaken _ g _ Hg Hvar) as H2.
    split; [apply forallb_plus_for_spaces; assumption|].
    split; [exact H2 | apply forallb_distinct_chars; exact H1]. }
  assert (H35 : free_of 35%N F = true /\ free_of 35%N variant = true
                /\ free_of 35%N T = true).
  { apply Hall; [|reflexivity].
    intros c Hc. apply (stands_for_itself_no_delimiter c Hc). }
  assert (H38 : free_of 38%N F = true /\ free_of 38%N variant = true
                /\ free_of 38%N T = true).
  { apply Hall; [|reflexivity].
    intros c Hc. apply (stands_for_itself_no_delimiter c Hc). }
  assert (Hs : no_surrogates F = true /\ no_surrogates variant = true
               /\ no_surrogates T = true).
  { apply Hall; [|reflexivity].
    intros c Hc. apply (stands_for_itself_no_delimiter c Hc). }
  destruct H35 as [F35 [V35 T35]]. destruct H38 as [F38 [V38 T38]].
  destruct Hs as [Fs [Vs Ts]].
  split.
  - apply to_USVString_plain.
    rewrite !no_surrogates_app, Fs, Vs, Ts. reflexivity.
  - unfold query_parameters, url_query.
    rewrite up_to_free
      by (rewrite !free_of_app, F35, V35, T35; reflexivity).
    change (lit "https://fonts.googleapis.com/css?family=")
      with (lit "https://fonts.googleapis.com/css" ++ 63%N :: lit "family=").
    rewrite <- app_assoc. cbn [app].
    rewrite behind_app by reflexivity.
    change (lit "&text=") with (38%N :: lit "text=").
    match goal with |- context [pieces 38%N ?q] =>
      replace q
        with ((lit "family=" ++ F ++ lit ":" ++ variant)
              ++ 38%N :: (lit "text=" ++ T))
        by (rewrite <- !app_assoc; reflexivity)
    end.
    rewrite pieces_app
      by (rewrite !free_of_app, F38, V38; reflexivity).
    rewrite pieces_free
      by (rewrite free_of_app, T38; reflexivity).
    cbn [filter].
    replace (jsstring_eqb (lit "family=" ++ F ++ lit ":" ++ variant) [])
      with false by (symmetry; apply jsstring_eqb_neq; discriminate).
    replace (jsstring_eqb (lit "text=" ++ T) [])
      with false by (symmetry; apply jsstring_eqb_neq; discriminate).
    cbn [negb map].
    change (lit "family=") with (lit "family" ++ 61%N :: []).
    change (lit "text=") with (lit "text" ++ 61%N :: []).
    rewrite <- !app_assoc. cbn [app].
    rewrite !up_to_app, !behind_app by reflexivity.
    reflexivity.
Qed.

(** C3, as stated, fails for a family name with a character that a URL
    reads as a delimiter, and for one with characters outside the Basic
    Multilingual Plane: for [A&B] the parameter [text] of the URL is [A];
    for [C#] the URL has no such parameter, because the fragment starts
    before it; for the name made of U+1F600 and U+1F601 the second
    character is cut in two, the half that is left is not a character,
    and the parameter ends with U+FFFD, which the name does not hold. *)
Lemma C3_text_is_not_the_name :
  map (query_parameter (lit "text")) (preview_href ampersandFont)
  = [Some (lit "A")]
  /\ distinct_chars (family ampersandFont) = lit "A&B"
  /\ map (query_parameter (lit "text")) (preview_href hashFont) = [None]
  /\ distinct_chars (family hashFont) = lit "C#"
  /\ map (query_parameter (lit "text")) (preview_href astralFont)
     = [Some [55357; 56832; 65533]%N]
  /\ existsb (N.eqb 65533) (family astralFont) = false.
Proof. vm_compute. repeat split. Qed.

(** C3, amended: for a font whose family name and requested variant are
    made of characters that stand for themselves in a URL, the link that
    [downloadPreviewFont] appends to the head has the URL of the
    stylesheet of that family and variant, and its parameter [text] is the
    distinct characters of the family name: the characters of the name
    that are not whitespace, each of them once, in the order in which they
    occur first. *)
Theorem C3_preview_text_is_distinct_chars (font : Font) (fontId : jsstring)
    (d : Document) :
  forallb stands_for_itself (family font) = true ->
  forallb stands_for_itself (requested_variant font) = true ->
  exists link,
    head (downloadPreviewFont font fontId d) = head d ++ [link]
    /\ node_href link
       = lit "https://fonts.googleapis.com/css?family="
         ++ plus_for_spaces (family font) ++ lit ":" ++ requested_variant font
         ++ lit "&text=" ++ distinct_chars (family font)
    /\ query_parameters (node_href link)
       = [(lit "family",
           plus_for_spaces (family font) ++ lit ":" ++ requested_variant font);
          (lit "text", distinct_chars (family font))]
    /\ query_parameter (lit "text") (node_href link)
       = Some (distinct_chars (family font))
    /\ NoDup (distinct_chars (family font))
    /\ (forall c, In c (distinct_chars (family font))
                  <-> In c (family font) /\ is_whitespace c = false).
Proof.
  intros Hfam Hvar.
  destruct (preview_url_query (family font) (requested_variant font) Hfam Hvar)
    as [Husv Hquery].
  exists (link_element (preview_url font) (preview_id fontId)).
  split; [reflexivity|].
  cbn [node_href link_element attr_href].
  rewrite preview_url_explicit, Husv.
  split; [reflexivity|]. split; [exact Hquery|]. split; [|split].
  - unfold query_parameter. rewrite Hquery. reflexivity.
  - apply first_occurrences_NoDup.
  - intros c. unfold distinct_chars.
    rewrite first_occurrences_In, without_whitespace_In. simpl. tauto.
Qed.

Lemma C3_preview_text_witness :
  forallb stands_for_itself (family openSans) = true
  /\ forallb stands_for_itself (requested_variant openSans) = true
  /\ exists link,
       head (downloadPreviewFont openSans (lit "open-sans") emptyDocument)
       = [link]
       /\ query_parameter (lit "text") (node_href link) = Some (lit "OpenSas").
Proof.
  split; [reflexivity|]. split; [reflexivity|].
  destruct (C3_preview_text_is_distinct_chars openSans (lit "open-sans")
              emptyDocument eq_refl eq_refl)
    as [link [Hhead [_ [_ [Htext _]]]]].
  exists link. split; [exact Hhead | exact Htext].
Defined.

Lemma render_entry_class {rt : JSRuntime} (font : Font) (p : FontPicker) :
  snd (render_entry font p) = Normal tt ->
  exists e,
    ul_entries (fst (render_entry font p)) = ul_entries p ++ [e]
    /\ hd_error (el_classList e)
       = Some (lit "font-" ++ generateUI_fontId (family font) ++ pickerSuffix p).
Proof.
  unfold render_entry, bind, read, lift, modify, ret. cbn [fst snd].
  destruct (classList_add [lit "font-" ++ _ ++ _] _) as [cl|e] eqn:Hadd;
    [|discriminate].
  unfold classList_add in Hadd.
  destruct (validate_tokens _); [|discriminate].
  injection Hadd as <-.
  destruct (jsstring_eqb (family font) (family (activeFont (fontManager p))));
    intros _; eexists; (split; [reflexivity|]); cbn; reflexivity.
Qed.

(** C8: the font id of [checkFullFont], the one of [checkPreviewFont] and
    the one [generateUI] puts in the class of a list entry are the same
    string: the family name with every run of whitespace replaced by a
    hyphen, then lowercased.  So the link that [checkFullFont] appends has
    the id [font-full-] followed by that string, the link that
    [checkPreviewFont] appends has the id [font-preview-] followed by it,
    and the list entry of the font has the class [font-] followed by it
    and the suffix of the picker. *)
Theorem C8_font_ids_agree {rt : JSRuntime} (fam : jsstring) :
  let fontId := toLowerCase (hyphenate fam) in
  checkFullFont_fontId fam = fontId
  /\ checkPreviewFont_fontId fam = fontId
  /\ generateUI_fontId fam = fontId
  /\ (forall avail font d,
        family font = fam -> checkFullFont avail font d <> d ->
        exists h link,
          head (checkFullFont avail font d) = h ++ [link]
          /\ node_id link = lit "font-full-" ++ fontId)
  /\ (forall avail font d,
        family font = fam -> checkPreviewFont avail font d <> d ->
        exists link,
          head (checkPreviewFont avail font d) = head d ++ [link]
          /\ node_id link = lit "font-preview-" ++ fontId)
  /\ (forall font p,
        family font = fam -> snd (render_entry font p) = Normal tt ->
        exists e,
          ul_entries (fst (render_entry font p)) = ul_entries p ++ [e]
          /\ hd_error (el_classList e)
             = Some (lit "font-" ++ fontId ++ pickerSuffix p)).
Proof.
  cbv zeta.
  assert (H1 : checkFullFont_fontId fam = toLowerCase (hyphenate fam)).
  { unfold checkFullFont_fontId. rewrite replace_ws_runs_hyphenate.
    reflexivity. }
  assert (H2 : checkPreviewFont_fontId fam = toLowerCase (hyphenate fam)).
  { unfold checkPreviewFont_fontId. rewrite replace_ws_runs_hyphenate.
    reflexivity. }
  assert (H3 : generateUI_fontId fam = toLowerCase (hyphenate fam)).
  { unfold generateUI_fontId. rewrite replace_ws_runs_hyphenate.
    reflexivity. }
  split; [exact H1|]. split; [exact H2|]. split; [exact H3|].
  split; [|split].
  - intros avail font d Hfam Hchanged. rewrite <- H1, <- Hfam.
    unfold checkFullFont in *. cbv zeta in *.
    destruct (is_some (getElementById d _)).
    + eexists. eexists. split; reflexivity.
    + destruct (negb _ && negb _); [|congruence].
      eexists. eexists. split; reflexivity.
  - intros avail font d Hfam Hchanged. rewrite <- H2, <- Hfam.
    unfold checkPreviewFont in *. cbv zeta in *.
    destruct (negb _ && negb _); [|congruence].
    eexists. split; reflexivity.
  - intros font p Hfam Hok. rewrite <- H3, <- Hfam.
    exact (render_entry_class font p Hok).
Qed.

(* ===================================================================== *)
(** ** font-download.js: which stylesheet is injected                     *)
(* ===================================================================== *)

Lemma head_appendChild_changes (n : Node) (d : Document) :
  head_appendChild n d <> d.
Proof.
  intros H. apply (f_equal (fun x => List.length (head x))) in H.
  simpl in H. rewrite length_app in H. simpl in H. lia.
Qed.

(** C1: [checkPreviewFont] appends the preview link to the head exactly
    when the document has no element with the id [font-full-<fontId>] and
    the family is not available; otherwise it returns the document as it
    was.  The link is a [link] element without children, with the
    relation [stylesheet], the id [font-preview-<fontId>] and the URL of
    the preview stylesheet; it becomes the last child of the head, and
    the rest of the document stays. *)
Theorem C1_checkPreviewFont_injects_iff {rt : JSRuntime}
    (isFontAvailable : jsstring -> bool) (font : Font) (d : Document) :
  let fontId := toLowerCase (hyphenate (family font)) in
  let needed :=
    getElementById d (lit "font-full-" ++ fontId) = None
    /\ isFontAvailable (family font) = false in
  let d' := checkPreviewFont isFontAvailable font d in
  (needed ->
   exists link,
     head d' = head d ++ [link]
     /\ body d' = body d
     /\ node_tagName link = lit "link"
     /\ node_rel link = lit "stylesheet"
     /\ node_id link = lit "font-preview-" ++ fontId
     /\ node_href link
        = to_USVString
            (lit "https://fonts.googleapis.com/css?family="
             ++ plus_for_spaces (family font) ++ lit ":"
             ++ requested_variant font
             ++ lit "&text=" ++ distinct_chars (family font))
     /\ node_children link = [])
  /\ (~ needed -> d' = d)
  /\ (d' <> d <-> needed).
Proof.
  cbv zeta. unfold checkPreviewFont, checkPreviewFont_fontId, full_id.
  rewrite replace_ws_runs_hyphenate.
  set (fontId := toLowerCase (hyphenate (family font))).
  destruct (getElementById d (lit "font-full-" ++ fontId)) as [n|] eqn:Hfull;
    destruct (isFontAvailable (family font)) eqn:Hav; cbn [is_some negb andb].
  1-3: split; [intros [? ?]; congruence|];
       (split; [reflexivity|]);
       (split; [intros H; exfalso; apply H; reflexivity
               | intros [? ?]; congruence]).
  split; [|split].
  - intros _. eexists. split; [reflexivity|]. split; [reflexivity|].
    split; [reflexivity|]. split; [reflexivity|]. split; [reflexivity|].
    split; [|reflexivity].
    cbn [node_href link_element attr_href]. rewrite preview_url_explicit.
    reflexivity.
  - intros H. exfalso. apply H. split; reflexivity.
  - split; [intros _; split; reflexivity|].
    intros _. apply head_appendChild_changes.
Qed.

(** C2: from the empty document, with a font that is not available, two
    calls of [checkPreviewFont] and one call of [checkFullFont] leave a
    preview link and a full link of the same font id in the head: the
    second preview call adds a second preview link, and [checkFullFont]
    removes only the first one before it adds the full link. *)
Theorem C2_preview_and_full_together :
  let d :=
    run_calls (rt := ascii_runtime)
      [CheckPreviewFont notAvailable openSans;
       CheckPreviewFont notAvailable openSans;
       CheckFullFont notAvailable openSans] emptyDocument in
  map node_id (head d)
  = [lit "font-preview-open-sans"; lit "font-full-open-sans"]
  /\ is_some (getElementById d (lit "font-preview-open-sans")) = true
  /\ is_some (getElementById d (lit "font-full-open-sans")) = true.
Proof. vm_compute. repeat split. Qed.

(* ===================================================================== *)
(** ** fetchFontList                                                      *)
(* ===================================================================== *)

(** C4, as stated, fails for a body that is the JSON value [null]: it has
    no member [items], and the promise of [fetchFontList] is rejected
    with a [TypeError] instead of being fulfilled with [undefined]. *)
Lemma C4_null_body_is_rejected :
  has_member (lit "items") JNull = false
  /\ snd (fetchFontList (serve JNull) (lit "KEY")) = Throw TypeError.
Proof. split; reflexivity. Qed.

(** C4, amended: [fetchFontList] issues one GET request, for the font
    list sorted by popularity, and hands on the member [items] of the
    parsed body unchanged; a body other than [null] without such a member
    gives [undefined]. *)
Theorem C4_fetchFontList_returns_items (net : Network) (apiKey : jsstring) :
  let request :=
    {| req_method := lit "GET";
       req_url :=
         lit "https://www.googleapis.com/webfonts/v1/webfonts?sort=popularity&key="
         ++ apiKey |} in
  fst (fetchFontList net apiKey) = [request]
  /\ (forall response json,
        net request = Normal response ->
        response_json response = Normal json ->
        (forall v, member (lit "items") json = Some v ->
                   snd (fetchFontList net apiKey) = Normal (VJson v))
        /\ (json <> JNull -> has_member (lit "items") json = false ->
            snd (fetchFontList net apiKey) = Normal VUndefined)).
Proof.
  cbv zeta. split; [reflexivity|].
  intros response json Hnet Hjson. unfold fetchFontList, font_list_url.
  cbn [snd]. rewrite Hnet, Hjson. split.
  - intros v Hv. destruct json; try discriminate.
    cbn [member] in Hv. cbn [get_items]. rewrite Hv. reflexivity.
  - intros Hnull Hmem. unfold has_member in Hmem.
    destruct json; try reflexivity; [congruence|].
    cbn [member] in Hmem. cbn [get_items].
    destruct (own_property (lit "items") members); [discriminate|reflexivity].
Qed.

(* ===================================================================== *)
(** ** FontPicker.js: construction                                        *)
(* ===================================================================== *)

Section Construction.
Context {rt : JSRuntime}.

Lemma generateUI_missing (d : Document) (p : FontPicker) :
  getElementById d (pickerId p) = None ->
  generateUI d p
  = (set_expanded false p,
     Throw (Error (lit "Missing div with id=" ++ quote ++ pickerId p ++ quote))).
Proof.
  intros H. unfold generateUI, bind, modify, read, throw. cbn [pickerId set_expanded].
  rewrite H. reflexivity.
Qed.

Lemma generateUI_found (d : Document) (p : FontPicker) (n : Node) :
  getElementById d (pickerId p) = Some n ->
  exists p', generateUI d p = (p', Normal tt)
    /\ pickerId p' = pickerId p
    /\ pickerSuffix p' = pickerSuffix p
    /\ fontManager p' = fontManager p
    /\ el_classList (dropdownIcon p') = [lit "dropdown-icon"; lit "loading"]
    /\ el_content (dropdownFont p')
       = parseFragment (lit "p") (family (activeFont (fontManager p)))
    /\ div_children p' = div_children p ++ [DropdownButton]
    /\ div_title p' = div_title p
    /\ ul_entries p' = ul_entries p
    /\ ul_onscroll p' = ul_onscroll p
    /\ activeFontA p' = activeFontA p
    /\ console p' = console p
    /\ init_calls p' = S (init_calls p)
    /\ downloadPreviews_calls p' = downloadPreviews_calls p.
Proof.
  intros H. unfold generateUI, bind, modify, read, throw.
  cbn [pickerId set_expanded]. rewrite H.
  eexists. split; [reflexivity|]. repeat split.
Qed.

(** The constructor with an options object, when [new FontManager]
    completes: the picker is the blank object after [generateUI]. *)
Lemma new_FontPicker_object (d : Document) (o : Options) (fm : FontManager) :
  new_FontPicker d (OptionsObject o) (Normal fm)
  = match generateUI d
            (blank_picker
               (match name o with
                | Some n => if jsstring_eqb n [] then [] else lit "-" ++ n
                | None => []
                end)
               (lit "font-picker"
                ++ match name o with
                   | Some n => if jsstring_eqb n [] then [] else lit "-" ++ n
                   | None => []
                   end) fm) with
    | (p, Normal _) => Normal p
    | (_, Throw e) => Throw e
    end.
Proof. reflexivity. Qed.

(** A picker that was constructed comes from an options object and a
    manager. *)
Lemma new_FontPicker_Normal (d : Document) (options : OptionsArg)
    (new_FontManager : Completion FontManager) (p : FontPicker) :
  new_FontPicker d options new_FontManager = Normal p ->
  exists o fm, options = OptionsObject o /\ new_FontManager = Normal fm.
Proof.
  destruct options as [| |o]; try discriminate.
  destruct new_FontManager as [fm|e]; [|discriminate].
  intros _. exists o, fm. split; reflexivity.
Qed.
End Construction.

(** C9, as stated, fails when the options are left out or [null]: the
    container is in the document, and the constructor throws a
    [TypeError]. *)
Lemma C9_options_left_out :
  is_some (getElementById (page_with_div (lit "font-picker"))
             (lit "font-picker")) = true
  /\ new_FontPicker (rt := ascii_runtime) (page_with_div (lit "font-picker"))
       OptionsUndefined (Normal managerBefore) = Throw TypeError
  /\ new_FontPicker (rt := ascii_runtime) (page_with_div (lit "font-picker"))
       OptionsNull (Normal managerBefore) = Throw TypeError.
Proof. vm_compute. repeat split. Qed.

(** C9, amended: [generateUI] throws the error
    [Missing div with id="<pickerId>"] exactly when the document has no
    element with the id of the picker, and completes otherwise; the
    constructor, called with an options object, gives the picker the id
    [font-picker], or [font-picker-<name>] for a name that is set (a
    non-empty string), and, when [new FontManager] completes, throws that
    error exactly when the element is missing and completes when it is
    there. *)
Theorem C9_throws_iff_div_missing {rt : JSRuntime} (d : Document)
    (o : Options) (fm : FontManager) :
  let id :=
    match name o with
    | Some n => if jsstring_eqb n [] then lit "font-picker"
                else lit "font-picker-" ++ n
    | None => lit "font-picker"
    end in
  let missing id :=
    Error (lit "Missing div with id=" ++ [34%N] ++ id ++ [34%N]) in
  (forall p,
     (getElementById d (pickerId p) = None ->
      snd (generateUI d p) = Throw (missing (pickerId p)))
     /\ (getElementById d (pickerId p) <> None ->
         snd (generateUI d p) = Normal tt))
  /\ (getElementById d id = None ->
      new_FontPicker d (OptionsObject o) (Normal fm) = Throw (missing id))
  /\ (getElementById d id <> None ->
      exists p,
        new_FontPicker d (OptionsObject o) (Normal fm) = Normal p
        /\ pickerId p = id)
  /\ ((exists e, new_FontPicker d (OptionsObject o) (Normal fm) = Throw e)
      <-> getElementById d id = None).
Proof.
  cbv zeta.
  set (id := match name o with
             | Some n => if jsstring_eqb n [] then lit "font-picker"
                         else lit "font-picker-" ++ n
             | None => lit "font-picker"
             end).
  assert (Hid : forall suffix,
            suffix = match name o with
                     | Some n => if jsstring_eqb n [] then [] else lit "-" ++ n
                     | None => []
                     end ->
            lit "font-picker" ++ suffix = id).
  { intros suffix ->. unfold id. destruct (name o) as [n|]; [|reflexivity].
    destruct (jsstring_eqb n []); reflexivity. }
  assert (Hgen : forall p,
            (getElementById d (pickerId p) = None ->
             snd (generateUI d p)
             = Throw (Error (lit "Missing div with id=" ++ [34%N]
                             ++ pickerId p ++ [34%N])))
            /\ (getElementById d (pickerId p) <> None ->
                snd (generateUI d p) = Normal tt)).
  { intros p. split; intros H.
    - rewrite (generateUI_missing d p H). reflexivity.
    - destruct (getElementById d (pickerId p)) as [n|] eqn:Hn; [|congruence].
      destruct (generateUI_found d p n Hn) as [p' [Hrun _]].
      rewrite Hrun. reflexivity. }
  assert (Hnew_missing : getElementById d id = None ->
            new_FontPicker d (OptionsObject o) (Normal fm)
            = Throw (Error (lit "Missing div with id=" ++ [34%N] ++ id ++ [34%N]))).
  { intros H. rewrite new_FontPicker_object. rewrite generateUI_missing.
    - cbn [pickerId blank_picker]. rewrite (Hid _ eq_refl). reflexivity.
    - cbn [pickerId blank_picker]. rewrite (Hid _ eq_refl). exact H. }
  assert (Hnew_found : getElementById d id <> None ->
            exists p, new_FontPicker d (OptionsObject o) (Normal fm) = Normal p
                      /\ pickerId p = id).
  { intros H. destruct (getElementById d id) as [n|] eqn:Hn; [|congruence].
    rewrite new_FontPicker_object.
    match goal with |- context [generateUI d ?b] =>
      destruct (generateUI_found d b n) as [p' [Hrun [Hpid _]]] end.
    - cbn [pickerId blank_picker]. rewrite (Hid _ eq_refl). exact Hn.
    - rewrite Hrun. exists p'. split; [reflexivity|].
      rewrite Hpid. cbn [pickerId blank_picker]. apply Hid. reflexivity. }
  split; [exact Hgen|]. split; [exact Hnew_missing|].
  split; [exact Hnew_found|]. split.
  - intros [e He]. destruct (getElementById d id) as [n|] eqn:Hn; [|reflexivity].
    destruct Hnew_found as [p [Hp _]]; [discriminate|]. congruence.
  - intros H. eexists. apply Hnew_missing. exact H.
Qed.

(* ===================================================================== *)
(** ** FontPicker.js: setActiveFont                                       *)
(* ===================================================================== *)

(** C10: when [fontManager.setActiveFont] returns a negative index,
    [FontPicker.setActiveFont] changes nothing but the manager itself: the
    name shown in the dropdown button, the list entries with their
    classes, and the entry marked as active stay as they were. *)
Theorem C10_negative_index_leaves_ui {rt : JSRuntime}
    (fm_setActiveFont : jsstring -> FontManager -> Z * FontManager)
    (fontFamily : jsstring) (p : FontPicker) :
  (fst (fm_setActiveFont fontFamily (fontManager p)) < 0)%Z ->
  let p' := fst (setActiveFont fm_setActiveFont fontFamily p) in
  p' = set_fontManager (snd (fm_setActiveFont fontFamily (fontManager p))) p
  /\ snd (setActiveFont fm_setActiveFont fontFamily p) = Normal tt
  /\ dropdownFont p' = dropdownFont p
  /\ ul_entries p' = ul_entries p
  /\ activeFontA p' = activeFontA p.
Proof.
  intros Hneg. cbv zeta. unfold setActiveFont, bind, read, modify.
  cbn [fst snd].
  destruct (0 <=? fst (fm_setActiveFont fontFamily (fontManager p)))%Z eqn:Hge.
  - apply Z.leb_le in Hge. lia.
  - repeat split.
Qed.

Lemma C10_negative_index_witness :
  (fst (sample_setActiveFont (lit "Comic Sans") (fontManager renderedPicker))
   < 0)%Z
  /\ el_content
       (dropdownFont
          (fst (setActiveFont (rt := ascii_runtime) sample_setActiveFont
                  (lit "Comic Sans") renderedPicker)))
     = [TextNode (lit "Open Sans")]
  /\ activeFontA
       (fst (setActiveFont (rt := ascii_runtime) sample_setActiveFont
               (lit "Comic Sans") renderedPicker))
     = Ref (FontButton 0).
Proof.
  split; [vm_compute; reflexivity|].
  destruct (C10_negative_index_leaves_ui (rt := ascii_runtime)
              sample_setActiveFont (lit "Comic Sans") renderedPicker)
    as [_ [_ [Hfont [_ Hactive]]]].
  - vm_compute. reflexivity.
  - rewrite Hfont, Hactive. split; reflexivity.
Defined.

(* ===================================================================== *)
(** ** FontPicker.js: what the methods leave alone                        *)
(* ===================================================================== *)

Lemma untouched_refl (p : FontPicker) : untouched p p.
Proof. repeat split. Qed.

Lemma untouched_trans (p q r : FontPicker) :
  untouched p q -> untouched q r -> untouched p r.
Proof.
  unfold untouched. intros H1 H2.
  repeat match goal with H : _ /\ _ |- _ => destruct H end.
  repeat split; congruence.
Qed.

Lemma preserves_ret {A} (a : A) : preserves (ret a).
Proof. intros p. apply untouched_refl. Qed.

Lemma preserves_throw {A} (e : JSError) : preserves (@throw A e).
Proof. intros p. apply untouched_refl. Qed.

Lemma preserves_read {A} (f : FontPicker -> A) : preserves (read f).
Proof. intros p. apply untouched_refl. Qed.

Lemma preserves_lift {A} (c : Completion A) : preserves (lift c).
Proof. intros p. apply untouched_refl. Qed.

Lemma preserves_modify (f : FontPicker -> FontPicker) :
  (forall p, untouched p (f p)) -> preserves (modify f).
Proof. intros H p. apply H. Qed.

Lemma preserves_bind {A B} (c : Action A) (k : A -> Action B) :
  preserves c -> (forall a, preserves (k a)) -> preserves (bind c k).
Proof.
  intros Hc Hk p. unfold bind. specialize (Hc p).
  destruct (c p) as [p' [a|e]]; cbn [fst] in *.
  - apply (untouched_trans _ _ _ Hc). apply Hk.
  - exact Hc.
Qed.

Lemma preserves_if {A} (b : bool) (x y : Action A) :
  preserves x -> preserves y -> preserves (if b then x else y).
Proof. destruct b; auto. Qed.

Create HintDb frame.
#[local] Hint Resolve preserves_ret preserves_throw preserves_read
  preserves_lift preserves_bind preserves_if untouched_refl : frame.

Lemma preserves_button_classList
    (op : list jsstring -> Completion (list jsstring)) :
  preserves (on_classList dropdownButton set_dropdownButton op).
Proof.
  unfold on_classList. apply preserves_bind; [auto with frame|]. intros e.
  apply preserves_bind; [auto with frame|]. intros cl.
  apply preserves_modify. intros p. repeat split.
Qed.

Lemma preserves_ul_classList
    (op : list jsstring -> Completion (list jsstring)) :
  preserves (on_classList ul set_ul op).
Proof.
  unfold on_classList. apply preserves_bind; [auto with frame|]. intros e.
  apply preserves_bind; [auto with frame|]. intros cl.
  apply preserves_modify. intros p. repeat split.
Qed.

Lemma replace_entry_length (i : nat) (e e' : Elem) (l : list Elem) :
  nth_error l i = Some e ->
  List.length (firstn i l ++ e' :: skipn (S i) l) = List.length l.
Proof.
  intros H. apply nth_error_split in H. destruct H as [l1 [l2 [-> Hi]]].
  subst i. rewrite firstn_app, Nat.sub_diag, firstn_all. cbn [firstn].
  rewrite app_nil_r.
  replace (S (List.length l1)) with (List.length (l1 ++ [e]))
    by (rewrite length_app; simpl; lia).
  replace (l1 ++ e :: l2) with ((l1 ++ [e]) ++ l2)
    by (rewrite <- app_assoc; reflexivity).
  rewrite skipn_app, Nat.sub_diag, skipn_all. cbn [skipn app].
  rewrite !length_app. simpl. lia.
Qed.

Lemma preserves_entry_classList (i : nat)
    (op : list jsstring -> Completion (list jsstring)) :
  preserves (on_entry_classList i op).
Proof.
  intros p. unfold on_entry_classList, bind, read, lift, modify, throw.
  destruct (nth_error (ul_entries p) i) as [e|] eqn:He;
    [|apply untouched_refl].
  destruct (op (el_classList e)) as [cl|err]; [|apply untouched_refl].
  cbn [fst]. unfold untouched. cbn.
  repeat split. apply (replace_entry_length i e _ _ He).
Qed.

#[local] Hint Resolve preserves_button_classList preserves_ul_classList
  preserves_entry_classList : frame.

Lemma preserves_toggleExpanded : preserves toggleExpanded.
Proof.
  unfold toggleExpanded. apply preserves_bind; [auto with frame|].
  intros e. destruct e;
    repeat (apply preserves_bind; [|intros ?]); auto with frame;
    apply preserves_modify; intros p; repeat split.
Qed.

Lemma preserves_closeEventListener (path : list bool) :
  preserves (closeEventListener path).
Proof.
  unfold closeEventListener.
  apply preserves_if; [auto with frame | apply preserves_toggleExpanded].
Qed.

Lemma preserves_onScroll (layout : Layout) (fm : FontManager) :
  preserves (onScroll layout fm).
Proof.
  unfold onScroll. apply preserves_bind; [auto with frame|]. intros n.
  apply preserves_bind; [apply preserves_modify; intros p; repeat split|].
  intros _. apply preserves_modify. intros p. repeat split.
Qed.

Lemma preserves_activeFontA_classList
    (op : list jsstring -> Completion (list jsstring)) :
  preserves (on_activeFontA_classList op).
Proof.
  unfold on_activeFontA_classList.
  apply preserves_bind; [auto with frame|].
  intros [| |[i|i path]]; auto with frame.
  intros p. unfold bind, read, lift, modify, throw.
  destruct (nth_error (ul_entries p) i) as [e|] eqn:He;
    [|apply untouched_refl].
  destruct (on_descendant_classList op path (el_content e)) as [content|err];
    [|apply untouched_refl].
  cbn [fst]. unfold untouched. cbn.
  repeat split. apply (replace_entry_length i e _ _ He).
Qed.

#[local] Hint Resolve preserves_activeFontA_classList : frame.

Lemma preserves_setActiveFont {rt : JSRuntime}
    (fm_setActiveFont : jsstring -> FontManager -> Z * FontManager)
    (fontFamily : jsstring) :
  preserves (setActiveFont fm_setActiveFont fontFamily).
Proof.
  unfold setActiveFont. apply preserves_bind; [auto with frame|]. intros fm.
  apply preserves_bind; [apply preserves_modify; intros p; repeat split|].
  intros _. apply preserves_if; [|auto with frame].
  apply preserves_bind; [apply preserves_modify; intros p; repeat split|].
  intros _. apply preserves_bind; [auto with frame|]. intros _.
  apply preserves_bind; [auto with frame|]. intros entries.
  destruct (nth_error (getElementsByTagName_li entries) _); [|auto with frame].
  apply preserves_bind; [apply preserves_modify; intros p; repeat split|].
  intros _. auto with frame.
Qed.

(** The throttled scroll handler, whatever it decides. *)
Lemma untouched_throttled (decision : Throttle * bool) (layout : Layout)
    (fm : FontManager) (w : Widget) :
  untouched (picker w) (picker (throttled decision layout fm w)).
Proof.
  unfold throttled. cbn [picker]. destruct (snd decision);
    [apply preserves_onScroll | apply untouched_refl].
Qed.

Lemma loading_untouched (p p' : FontPicker) :
  loading p -> untouched p p' -> loading p'.
Proof.
  unfold loading, untouched. intros Hl Hu.
  repeat match goal with H : _ /\ _ |- _ => destruct H end.
  repeat split; try congruence.
  apply length_zero_iff_nil.
  match goal with H : ul_entries p = [] |- _ => rewrite H in * end.
  assumption.
Qed.

Lemma new_FontPicker_loading {rt : JSRuntime} (d : Document)
    (options : OptionsArg) (fm : Completion FontManager) (p : FontPicker) :
  new_FontPicker d options fm = Normal p -> loading p.
Proof.
  intros H.
  destruct (new_FontPicker_Normal d options fm p H) as [o [fm0 [-> ->]]].
  rewrite new_FontPicker_object in H.
  set (b := blank_picker _ _ fm0) in H.
  destruct (getElementById d (pickerId b)) as [n|] eqn:Hn.
  - destruct (generateUI_found d b n Hn) as [p' [Hrun Hp']].
    rewrite Hrun in H. injection H as <-.
    repeat match goal with H : _ /\ _ |- _ => destruct H end.
    unfold loading. repeat split; try assumption; try congruence.
    all: match goal with
         | H : div_children ?q = _ |- div_children ?q = _ => rewrite H
         | H : init_calls ?q = _ |- init_calls ?q = _ => rewrite H
         end; reflexivity.
  - rewrite (generateUI_missing d b Hn) in H. discriminate.
Qed.

Section Events.
Context {rt : JSRuntime}.
Variable fm_setActiveFont : jsstring -> FontManager -> Z * FontManager.

Lemma handle_pending (w : Widget) (e : Event) :
  init_pending (handle fm_setActiveFont w e) = true ->
  init_pending w = true
  /\ untouched (picker w) (picker (handle fm_setActiveFont w e)).
Proof.
  destruct e as [o| |i|path|now layout fm|now layout fm|fam]; cbn [handle].
  - destruct (init_pending w) eqn:Hp; cbn [init_pending].
    + discriminate.
    + intros H. rewrite Hp in H. discriminate.
  - intros H. split; [exact H|]. apply preserves_toggleExpanded.
  - destruct (i <? _)%nat; intros H; (split; [exact H|]);
      [|apply untouched_refl].
    cbn [after picker]. apply preserves_bind;
      [apply preserves_toggleExpanded|].
    intros _. apply preserves_bind; [auto with frame|]. intros fs.
    destruct (nth_error fs i); [apply preserves_setActiveFont|auto with frame].
  - destruct (click_listener _); intros H; (split; [exact H|]);
      [apply preserves_closeEventListener | apply untouched_refl].
  - destruct (ul_onscroll _); intros H; (split; [exact H|]);
      [apply untouched_throttled | apply untouched_refl].
  - destruct (timeouts _); intros H; (split; [exact H|]);
      [apply untouched_refl | apply untouched_throttled].
  - intros H. split; [exact H|]. apply preserves_setActiveFont.
Qed.

Lemma handle_settled (w : Widget) (e : Event) :
  init_pending w = false ->
  init_pending (handle fm_setActiveFont w e) = false
  /\ untouched (picker w) (picker (handle fm_setActiveFont w e)).
Proof.
  intros Hp.
  destruct (init_pending (handle fm_setActiveFont w e)) eqn:H.
  - apply handle_pending in H. destruct H as [H _]. congruence.
  - split; [reflexivity|].
    destruct e as [o| |i|path|now layout fm|now layout fm|fam]; cbn [handle].
    + rewrite Hp. apply untouched_refl.
    + apply preserves_toggleExpanded.
    + destruct (i <? _)%nat; [|apply untouched_refl].
      cbn [after picker]. apply preserves_bind;
        [apply preserves_toggleExpanded|].
      intros _. apply preserves_bind; [auto with frame|]. intros fs.
      destruct (nth_error fs i);
        [apply preserves_setActiveFont|auto with frame].
    + destruct (click_listener _);
        [apply preserves_closeEventListener | apply untouched_refl].
    + destruct (ul_onscroll _);
        [apply untouched_throttled | apply untouched_refl].
    + destruct (timeouts _);
        [apply untouched_refl | apply untouched_throttled].
    + apply preserves_setActiveFont.
Qed.

(** As long as the promise is pending, nothing that happens to the widget
    reaches the icon, the container or the console. *)
Lemma run_events_pending (es : list Event) (w : Widget) :
  init_pending (run_events fm_setActiveFont w es) = true ->
  init_pending w = true
  /\ untouched (picker w) (picker (run_events fm_setActiveFont w es)).
Proof.
  revert w. induction es as [|e es IH]; intros w H.
  - split; [exact H | apply untouched_refl].
  - cbn [run_events fold_left] in *. apply IH in H. destruct H as [H1 H2].
    apply handle_pending in H1. destruct H1 as [H1 H3].
    split; [exact H1|]. exact (untouched_trans _ _ _ H3 H2).
Qed.

(** Once the promise is settled, they stay as the handlers left them. *)
Lemma run_events_settled (es : list Event) (w : Widget) :
  init_pending w = false ->
  init_pending (run_events fm_setActiveFont w es) = false
  /\ untouched (picker w) (picker (run_events fm_setActiveFont w es)).
Proof.
  revert w. induction es as [|e es IH]; intros w H.
  - split; [exact H | apply untouched_refl].
  - cbn [run_events fold_left]. destruct (handle_settled w e H) as [H1 H2].
    destruct (IH _ H1) as [H3 H4]. split; [exact H3|].
    exact (untouched_trans _ _ _ H2 H4).
Qed.

Lemma init_rejected_run (err : JSError) (p : FontPicker) :
  let p' := fst (init_rejected err p) in
  snd (init_rejected err p) = Normal tt
  /\ el_classList (dropdownIcon p')
     = append_token
         (remove_token (el_classList (dropdownIcon p)) (lit "loading"))
         (lit "error")
  /\ console p' = console p ++ [LogString errMessage; LogError err]
  /\ div_title p' = Some errMessage
  /\ div_children p' = div_children p
  /\ ul_entries p' = ul_entries p
  /\ ul_onscroll p' = ul_onscroll p
  /\ init_calls p' = init_calls p.
Proof.
  cbv zeta. unfold init_rejected, bind, modify, read, lift, on_classList.
  cbn. rewrite <- app_assoc. repeat split.
Qed.
End Events.

(* ===================================================================== *)
(** ** FontPicker.js: the catalog fetch fails                             *)
(* ===================================================================== *)

(** C5: when the promise of [fontManager.init()] is rejected, whatever
    happened to the widget while it was pending, the error handler
    completes without throwing; the icon goes from [loading] to [error];
    the title of the container becomes the error message; the message and
    the error are logged and nothing else; [init] has been called once and
    is not called again; and the list is neither filled nor appended to
    the container, also by anything that happens later. *)
Theorem C5_rejected_init_shows_error {rt : JSRuntime}
    (fm_setActiveFont : jsstring -> FontManager -> Z * FontManager)
    (d : Document) (options : OptionsArg) (fm : Completion FontManager)
    (p0 : FontPicker) (es : list Event) (fm' : FontManager) (err : JSError) :
  new_FontPicker d options fm = Normal p0 ->
  let w := run_events fm_setActiveFont (start p0) es in
  init_pending w = true ->
  let w' := handle fm_setActiveFont w (EvInitSettled (InitRejected fm' err)) in
  snd (init_settled (InitRejected fm' err) (picker w)) = Normal tt
  /\ el_classList (dropdownIcon (picker w)) = [lit "dropdown-icon"; lit "loading"]
  /\ el_classList (dropdownIcon (picker w')) = [lit "dropdown-icon"; lit "error"]
  /\ div_title (picker w') = Some errMessage
  /\ console (picker w') = [LogString errMessage; LogError err]
  /\ forall later,
       let w'' := run_events fm_setActiveFont w' later in
       init_calls (picker w'') = 1%nat
       /\ ul_entries (picker w'') = []
       /\ div_children (picker w'') = [DropdownButton]
       /\ el_classList (dropdownIcon (picker w''))
          = [lit "dropdown-icon"; lit "error"].
Proof.
  intros Hnew w Hpending w'.
  assert (Hload : loading (picker w)).
  { destruct (run_events_pending fm_setActiveFont es (start p0) Hpending)
      as [_ Hu].
    apply (loading_untouched (picker (start p0))); [|exact Hu].
    exact (new_FontPicker_loading d options fm p0 Hnew). }
  destruct Hload as [Hicon [Hdiv [Htitle [Hscroll [Hcons [Hinit Hentries]]]]]].
  assert (Hw' : picker w'
                = fst (init_rejected err (set_fontManager fm' (picker w)))).
  { unfold w'. cbn [handle]. fold w. rewrite Hpending.
    cbn [picker init_settled]. unfold bind, modify. cbn [fst].
    destruct (init_rejected err (set_fontManager fm' (picker w))) as [q [[]|e]];
      reflexivity. }
  pose proof (init_rejected_run err (set_fontManager fm' (picker w))) as Hrun.
  cbv zeta in Hrun. rewrite <- Hw' in Hrun.
  cbn [dropdownIcon console div_children ul_entries ul_onscroll init_calls
       set_fontManager] in Hrun.
  rewrite Hicon, Hcons, Hdiv, Hentries, Hinit in Hrun.
  destruct Hrun as [Hsnd [Hicon' [Hcons' [Htitle' [Hdiv' [Hentries' [_ Hinit']]]]]]].
  assert (Hicon'' : el_classList (dropdownIcon (picker w'))
                    = [lit "dropdown-icon"; lit "error"]).
  { rewrite Hicon'. reflexivity. }
  assert (Hsettled : init_pending w' = false).
  { unfold w'. cbn [handle]. fold w. rewrite Hpending. reflexivity. }
  split; [cbn [init_settled]; unfold bind, modify; cbn [fst]; exact Hsnd|].
  split; [exact Hicon|]. split; [exact Hicon''|].
  split; [exact Htitle'|]. split; [exact Hcons'|].
  intros later w''.
  destruct (run_events_settled fm_setActiveFont later w' Hsettled)
    as [_ [Hu1 [Hu2 [_ [_ [_ [Hu6 [_ Hu8]]]]]]]].
  fold w'' in Hu1, Hu2, Hu6, Hu8.
  split; [congruence|]. split; [|split; congruence].
  apply length_zero_iff_nil. rewrite Hu8, Hentries'. reflexivity.
Qed.

Lemma C5_rejected_init_witness :
  new_FontPicker (rt := ascii_runtime) (page_with_div (lit "font-picker"))
    (OptionsObject {| name := None |}) (Normal managerBefore)
  = Normal samplePicker
  /\ init_pending
       (run_events (rt := ascii_runtime) sample_setActiveFont
          (start samplePicker) [EvToggleExpanded; EvSetActiveFont (lit "Lobster")])
     = true
  /\ el_classList
       (dropdownIcon
          (picker
             (handle (rt := ascii_runtime) sample_setActiveFont
                (run_events (rt := ascii_runtime) sample_setActiveFont
                   (start samplePicker)
                   [EvToggleExpanded; EvSetActiveFont (lit "Lobster")])
                (EvInitSettled
                   (InitRejected managerBefore
                      (OtherError (lit "Failed to fetch")))))))
     = [lit "dropdown-icon"; lit "error"].
Proof.
  split; [reflexivity|]. split; [reflexivity|].
  exact (proj1 (proj2 (proj2
           (C5_rejected_init_shows_error (rt := ascii_runtime)
              sample_setActiveFont (page_with_div (lit "font-picker"))
              (OptionsObject {| name := None |}) (Normal managerBefore)
              samplePicker
              [EvToggleExpanded; EvSetActiveFont (lit "Lobster")]
              managerBefore (OtherError (lit "Failed to fetch"))
              eq_refl eq_refl)))).
Defined.

(* ===================================================================== *)
(** ** FontPicker.js: the states of the dropdown icon                     *)
(* ===================================================================== *)

(** C6, as stated, fails for a picker called [a b]: the icon starts as
    [loading]; when the promise of [init] is fulfilled, the first handler
    marks the icon [finished] and then throws, because [classList.add]
    refuses the class [font-open-sans-a b]; the second handler receives
    that error and adds [error].  The icon ends with both [finished] and
    [error]. *)
Lemma C6_whitespace_name_both_classes :
  new_FontPicker (rt := ascii_runtime) (page_with_div (lit "font-picker-a b"))
    (OptionsObject {| name := Some (lit "a b") |}) (Normal managerBefore)
  = Normal spacedPicker
  /\ el_classList (dropdownIcon spacedPicker)
     = [lit "dropdown-icon"; lit "loading"]
  /\ snd (init_fulfilled (rt := ascii_runtime)
            (set_fontManager managerAfter spacedPicker))
     = Throw (DOMException (lit "InvalidCharacterError"))
  /\ el_classList
       (dropdownIcon
          (picker
             (handle (rt := ascii_runtime) sample_setActiveFont
                (start spacedPicker)
                (EvInitSettled (InitFulfilled managerAfter)))))
     = [lit "dropdown-icon"; lit "finished"; lit "error"].
Proof. vm_compute. repeat split. Qed.

Lemma outside_list_refl (p : FontPicker) : outside_list p p.
Proof. repeat split. Qed.

Lemma outside_list_trans (p q r : FontPicker) :
  outside_list p q -> outside_list q r -> outside_list p r.
Proof.
  unfold outside_list. intros H1 H2.
  repeat match goal with H : _ /\ _ |- _ => destruct H end.
  repeat split; congruence.
Qed.

Lemma ascii_whitespace_is_whitespace (c : code_unit) :
  is_ascii_whitespace c = true -> is_whitespace c = true.
Proof.
  unfold is_ascii_whitespace. rewrite !orb_true_iff, !N.eqb_eq.
  intros [[[[->| ->]| ->]| ->]| ->]; reflexivity.
Qed.

(** After the replacement no ASCII whitespace is left. *)
Lemma replace_ws_runs_no_ascii_whitespace (b : bool) (s : jsstring) :
  no_ascii_whitespace (replace_ws_runs_from b (lit "-") s).
Proof.
  unfold no_ascii_whitespace. revert b.
  induction s as [|c s IH]; intros b; [reflexivity|].
  cbn [replace_ws_runs_from]. destruct (is_whitespace c) eqn:Hc.
  - destruct b; [apply IH|]. rewrite existsb_app, IH. reflexivity.
  - cbn [existsb]. rewrite IH.
    destruct (is_ascii_whitespace c) eqn:Ha; [|reflexivity].
    apply ascii_whitespace_is_whitespace in Ha. congruence.
Qed.

Section Rendering.
Context {rt : JSRuntime}.

(** Lowercasing does not produce ASCII whitespace. *)
Hypothesis toLowerCase_no_whitespace :
  forall s, no_ascii_whitespace s -> no_ascii_whitespace (toLowerCase s).

Lemma font_class_valid (fam suffix : jsstring) :
  no_ascii_whitespace suffix ->
  validate_tokens [lit "font-" ++ generateUI_fontId fam ++ suffix] = Normal tt.
Proof.
  intros Hs. cbn [validate_tokens]. unfold validate_token.
  replace (jsstring_eqb (lit "font-" ++ generateUI_fontId fam ++ suffix) [])
    with false by reflexivity.
  rewrite !existsb_app.
  replace (existsb is_ascii_whitespace (lit "font-")) with false by reflexivity.
  unfold generateUI_fontId.
  rewrite (toLowerCase_no_whitespace _
             (replace_ws_runs_no_ascii_whitespace false fam)).
  rewrite Hs. reflexivity.
Qed.

Lemma render_entry_completes (font : Font) (p : FontPicker) :
  no_ascii_whitespace (pickerSuffix p) ->
  snd (render_entry font p) = Normal tt.
Proof.
  intros Hs. unfold render_entry, bind, read, lift, modify, ret.
  cbn [fst snd]. unfold classList_add at 1.
  rewrite (font_class_valid (family font) (pickerSuffix p) Hs).
  destruct (jsstring_eqb (family font) (family (activeFont (fontManager p))));
    reflexivity.
Qed.

Lemma render_entries_complete (fs : list Font) (p : FontPicker) :
  no_ascii_whitespace (pickerSuffix p) ->
  snd (render_entries fs p) = Normal tt.
Proof.
  revert p. induction fs as [|font fs IH]; intros p Hs; [reflexivity|].
  cbn [render_entries]. unfold bind.
  pose proof (render_entry_completes font p Hs) as Hok.
  assert (Hsuffix : pickerSuffix (fst (render_entry font p)) = pickerSuffix p).
  { clear. unfold render_entry, bind, read, lift, modify, ret.
    cbn [fst snd].
    destruct (classList_add _ _); [|reflexivity].
    destruct (jsstring_eqb _ _); reflexivity. }
  destruct (render_entry font p) as [q [[]|e]]; cbn [fst snd] in *;
    [|discriminate].
  apply IH. unfold no_ascii_whitespace. rewrite Hsuffix. exact Hs.
Qed.
End Rendering.

Lemma render_entry_outside_list {rt : JSRuntime} (font : Font) (p : FontPicker) :
  outside_list p (fst (render_entry font p)).
Proof.
  unfold render_entry, bind, read, lift, modify, ret. cbn [fst snd].
  destruct (classList_add _ _); [|apply outside_list_refl].
  destruct (jsstring_eqb _ _); repeat split.
Qed.

Lemma render_entries_outside_list {rt : JSRuntime} (fs : list Font)
    (p : FontPicker) :
  outside_list p (fst (render_entries fs p)).
Proof.
  revert p. induction fs as [|font fs IH]; intros p;
    [apply outside_list_refl|].
  cbn [render_entries]. unfold bind.
  pose proof (render_entry_outside_list font p) as H.
  destruct (render_entry font p) as [q [[]|e]]; cbn [fst] in *; [|exact H].
  exact (outside_list_trans _ _ _ H (IH q)).
Qed.

Lemma init_fulfilled_unfold {rt : JSRuntime} (p : FontPicker) :
  init_fulfilled p
  = match render_entries (fonts (fontManager p))
            (set_ul_onscroll true (icon_marked (lit "finished") p)) with
    | (q, Normal _) =>
        (set_div_children (div_children q ++ [FontList]) q, Normal tt)
    | (q, Throw e) => (q, Throw e)
    end.
Proof.
  unfold init_fulfilled, on_classList, bind, read, lift, modify. reflexivity.
Qed.

Lemma init_rejected_unfold (err : JSError) (p : FontPicker) :
  init_rejected err p
  = (set_div_title (Some errMessage)
       (set_console (console p ++ [LogString errMessage; LogError err])
          (icon_marked (lit "error") p)),
     Normal tt).
Proof.
  unfold init_rejected, on_classList, bind, read, lift, modify.
  cbn. rewrite <- app_assoc. reflexivity.
Qed.

Section IconStates.
Context {rt : JSRuntime}.
Variable fm_setActiveFont : jsstring -> FontManager -> Z * FontManager.

(** The icon when the promise settles: [error] after a rejection,
    [finished] after a fulfilment whose handler completes, and both
    classes after a fulfilment whose handler throws. *)
Lemma settling_from_loading (o : InitOutcome) (p : FontPicker) :
  icon_in_state IconLoading p ->
  let p' := fst (init_settled o p) in
  match o with
  | InitRejected _ _ => icon_in_state IconError p'
  | InitFulfilled fm =>
      match snd (init_fulfilled (set_fontManager fm p)) with
      | Normal _ => icon_in_state IconFinished p'
      | Throw _ =>
          el_classList (dropdownIcon p')
          = [lit "dropdown-icon"; lit "finished"; lit "error"]
      end
  end.
Proof.
  unfold icon_in_state. cbn [icon_class]. intros Hicon.
  destruct o as [fm|fm err]; cbn [init_settled]; unfold bind, modify, try_catch;
    cbn [fst snd].
  - rewrite init_fulfilled_unfold.
    pose proof (render_entries_outside_list (fonts (fontManager (set_fontManager fm p)))
                  (set_ul_onscroll true
                     (icon_marked (lit "finished") (set_fontManager fm p))))
      as Hout.
    destruct (render_entries _ _) as [q [[]|e]]; cbn [fst snd] in *;
      destruct Hout as [Hq _].
    + cbn [dropdownIcon set_div_children]. rewrite Hq.
      cbn. rewrite Hicon. reflexivity.
    + rewrite init_rejected_unfold. cbn [fst].
      cbn [dropdownIcon set_div_title set_console icon_marked
           set_dropdownIcon el_classList set_classList].
      rewrite Hq. cbn. rewrite Hicon. reflexivity.
  - rewrite init_rejected_unfold. cbn. rewrite Hicon. reflexivity.
Qed.

Lemma handle_pending_flag (w : Widget) (e : Event) :
  init_pending (handle fm_setActiveFont w e)
  = match e with
    | EvInitSettled _ => false
    | _ => init_pending w
    end.
Proof.
  destruct e as [o| |i|path|now layout fm|now layout fm|fam]; cbn [handle];
    try reflexivity.
  - destruct (init_pending w) eqn:H; [reflexivity | exact H].
  - destruct (i <? _)%nat; reflexivity.
  - destruct (click_listener _); reflexivity.
  - destruct (ul_onscroll _); reflexivity.
  - destruct (timeouts _); reflexivity.
Qed.

(** The class list of the icon changes only when the pending promise
    settles; after that, [init_pending] is false for good, so it changes
    at most once. *)
Lemma icon_changes_only_on_settling (w : Widget) (e : Event) :
  dropdownIcon (picker (handle fm_setActiveFont w e)) <> dropdownIcon (picker w) ->
  init_pending w = true /\ exists o, e = EvInitSettled o.
Proof.
  intros Hchange. destruct (init_pending w) eqn:Hp.
  - split; [reflexivity|].
    destruct e as [o| |i|path|now layout fm|now layout fm|fam];
      [exists o; reflexivity|..];
      exfalso; apply Hchange;
      match goal with |- context [handle _ _ ?ev] =>
        assert (H : init_pending (handle fm_setActiveFont w ev) = true)
          by (rewrite handle_pending_flag; exact Hp);
        apply handle_pending in H; destruct H as [_ [H _]]; exact H
      end.
  - exfalso. apply Hchange.
    destruct (handle_settled fm_setActiveFont w e Hp) as [_ [H _]]. exact H.
Qed.

(** Lowercasing does not produce ASCII whitespace. *)
Hypothesis toLowerCase_no_whitespace :
  forall s, no_ascii_whitespace s -> no_ascii_whitespace (toLowerCase s).

(** With a suffix that [classList.add] accepts the first handler
    completes, and the icon takes the state that belongs to the
    outcome. *)
Lemma settled_icon (o : InitOutcome) (p : FontPicker) :
  icon_in_state IconLoading p ->
  no_ascii_whitespace (pickerSuffix p) ->
  icon_in_state (settled_state o) (fst (init_settled o p)).
Proof.
  intros Hicon Hs.
  pose proof (settling_from_loading o p Hicon) as Hset. cbv zeta in Hset.
  destruct o as [fm1|fm1 err]; [|exact Hset]. cbn [settled_state].
  rewrite init_fulfilled_unfold in Hset.
  pose proof (render_entries_complete toLowerCase_no_whitespace
                (fonts (fontManager (set_fontManager fm1 p)))
                (set_ul_onscroll true
                   (icon_marked (lit "finished") (set_fontManager fm1 p))) Hs)
    as Hok.
  destruct (render_entries _ _) as [q [[]|e]]; cbn [fst snd] in *;
    [exact Hset | discriminate].
Qed.

(** With a picker name that [classList.add] accepts, the icon is in
    exactly one of its three states at any time: [loading] while the
    promise is pending, then [finished] or [error]. *)
Lemma icon_in_one_state (d : Document) (options : OptionsArg)
    (fm : Completion FontManager) (p0 : FontPicker) (es : list Event) :
  new_FontPicker d options fm = Normal p0 ->
  no_ascii_whitespace (pickerSuffix p0) ->
  let w := run_events fm_setActiveFont (start p0) es in
  no_ascii_whitespace (pickerSuffix (picker w))
  /\ (init_pending w = true -> loading (picker w))
  /\ (init_pending w = false ->
      icon_in_state IconFinished (picker w) \/ icon_in_state IconError (picker w)).
Proof.
  intros Hnew Hsuffix. cbv zeta.
  induction es as [|e es IH] using rev_ind.
  - cbn. split; [exact Hsuffix|]. split; [|discriminate].
    intros _. exact (new_FontPicker_loading d options fm p0 Hnew).
  - unfold run_events in *. rewrite fold_left_app. cbn [fold_left].
    set (w := fold_left (handle fm_setActiveFont) es (start p0)) in *.
    destruct IH as [IHs [IHp IHf]].
    destruct (init_pending w) eqn:Hp.
    + destruct e as [o| |i|path|now layout fm1|now layout fm1|fam].
      1: { (* the promise settles *)
        cbn [handle]. rewrite Hp. cbn [picker init_pending].
        assert (Hs' : no_ascii_whitespace
                        (pickerSuffix (fst (init_settled o (picker w))))).
        { destruct o as [fm1|fm1 err]; cbn [init_settled];
            unfold bind, modify, try_catch; cbn [fst snd].
          - rewrite init_fulfilled_unfold.
            pose proof (render_entries_outside_list
                          (fonts (fontManager (set_fontManager fm1 (picker w))))
                          (set_ul_onscroll true
                             (icon_marked (lit "finished")
                                (set_fontManager fm1 (picker w))))) as Hout.
            pose proof (render_entries_complete toLowerCase_no_whitespace
                          (fonts (fontManager (set_fontManager fm1 (picker w))))
                          (set_ul_onscroll true
                             (icon_marked (lit "finished")
                                (set_fontManager fm1 (picker w)))) IHs) as Hok.
            destruct (render_entries _ _) as [q [[]|e]]; cbn [fst snd] in *;
              [|discriminate].
            destruct Hout as [_ [_ [_ [_ [_ [_ [Hq _]]]]]]].
            unfold no_ascii_whitespace. cbn [pickerSuffix set_div_children].
            rewrite Hq. exact IHs.
          - rewrite init_rejected_unfold. exact IHs. }
        split; [exact Hs'|]. split; [discriminate|]. intros _.
        pose proof (settling_from_loading o (picker w)
                      (proj1 (IHp eq_refl))) as Hset.
        cbv zeta in Hset. destruct o as [fm1|fm1 err]; [|right; exact Hset].
        rewrite init_fulfilled_unfold in Hset.
        pose proof (render_entries_complete toLowerCase_no_whitespace
                      (fonts (fontManager (set_fontManager fm1 (picker w))))
                      (set_ul_onscroll true
                         (icon_marked (lit "finished")
                            (set_fontManager fm1 (picker w)))) IHs) as Hok.
        destruct (render_entries _ _) as [q [[]|e]]; cbn [fst snd] in *;
          [left; exact Hset | discriminate]. }
      all: match goal with |- context [handle _ _ ?ev] =>
             assert (H : init_pending (handle fm_setActiveFont w ev) = true)
               by (rewrite handle_pending_flag; exact Hp);
             pose proof (handle_pending fm_setActiveFont w ev H) as [_ Hu]
           end.
      all: split;
        [unfold no_ascii_whitespace;
         rewrite (proj1 (proj2 (proj2 (proj2 (proj2 (proj2 (proj2 Hu)))))));
         exact IHs|].
      all: split; [intros _; exact (loading_untouched _ _ (IHp eq_refl) Hu)|].
      all: intros Hf; rewrite Hf in H; discriminate.
    + destruct (handle_settled fm_setActiveFont w e Hp) as [Hf Hu].
      split;
        [unfold no_ascii_whitespace;
         rewrite (proj1 (proj2 (proj2 (proj2 (proj2 (proj2 (proj2 Hu)))))));
         exact IHs|].
      split; [intros Ht; rewrite Ht in Hf; discriminate|]. intros _.
      unfold icon_in_state in *. rewrite (proj1 Hu). exact (IHf eq_refl).
Qed.
End IconStates.

Lemma new_FontPicker_suffix {rt : JSRuntime} (d : Document)
    (options : OptionsArg) (fm : Completion FontManager) (p : FontPicker) :
  new_FontPicker d options fm = Normal p ->
  name_accepted options ->
  no_ascii_whitespace (pickerSuffix p).
Proof.
  intros H Hname.
  destruct (new_FontPicker_Normal d options fm p H) as [o [fm0 [-> ->]]].
  rewrite new_FontPicker_object in H. unfold name_accepted in Hname.
  set (b := blank_picker _ _ fm0) in H.
  destruct (getElementById d (pickerId b)) as [n|] eqn:Hn.
  - destruct (generateUI_found d b n Hn) as [p' [Hrun [_ [Hsuffix _]]]].
    rewrite Hrun in H. injection H as <-.
    unfold no_ascii_whitespace. rewrite Hsuffix. unfold b.
    cbn [pickerSuffix blank_picker].
    destruct o as [[n0|]]; cbn [name] in *; [|reflexivity].
    destruct (jsstring_eqb n0 []); [reflexivity|].
    rewrite existsb_app, Hname. reflexivity.
  - rewrite (generateUI_missing d b Hn) in H. discriminate.
Qed.

Lemma ascii_toLowerCase_no_whitespace (s : jsstring) :
  no_ascii_whitespace s -> no_ascii_whitespace (ascii_toLowerCase s).
Proof.
  unfold no_ascii_whitespace, ascii_toLowerCase.
  induction s as [|c s IH]; [reflexivity|].
  cbn [existsb map]. intros H. apply orb_false_iff in H. destruct H as [Hc Hs].
  rewrite (IH Hs), orb_false_r.
  destruct ((65 <=? c) && (c <=? 90))%N eqn:Hup; [|exact Hc].
  apply andb_true_iff in Hup. destruct Hup as [H1 H2].
  apply N.leb_le in H1, H2. unfold is_ascii_whitespace.
  repeat (apply orb_false_iff; split); apply N.eqb_neq; lia.
Qed.

(** C6, amended: for a picker whose name has no whitespace, the icon is
    created in the state [loading] and carries exactly one of the classes
    [loading], [finished] and [error] at any time.  Its class list changes
    only when the pending promise of [init] settles, and then to
    [finished] when the promise is fulfilled and to [error] when it is
    rejected; once the promise is settled, nothing changes the icon any
    more. *)
Theorem C6_icon_one_state_one_transition {rt : JSRuntime}
    (fm_setActiveFont : jsstring -> FontManager -> Z * FontManager)
    (d : Document) (options : OptionsArg) (fm : Completion FontManager)
    (p0 : FontPicker) (es : list Event) :
  (forall s, no_ascii_whitespace s -> no_ascii_whitespace (toLowerCase s)) ->
  name_accepted options ->
  new_FontPicker d options fm = Normal p0 ->
  icon_in_state IconLoading p0
  /\ let w := run_events fm_setActiveFont (start p0) es in
     (exists s, icon_in_state s (picker w))
     /\ (init_pending w = true -> icon_in_state IconLoading (picker w))
     /\ (forall e,
           dropdownIcon (picker (handle fm_setActiveFont w e))
           <> dropdownIcon (picker w) ->
           init_pending w = true /\ exists o, e = EvInitSettled o)
     /\ (forall o,
           init_pending w = true ->
           icon_in_state (settled_state o)
             (picker (handle fm_setActiveFont w (EvInitSettled o))))
     /\ (init_pending w = false ->
         forall later,
           dropdownIcon (picker (run_events fm_setActiveFont w later))
           = dropdownIcon (picker w)).
Proof.
  intros Hlower Hname Hnew.
  pose proof (new_FontPicker_loading d options fm p0 Hnew) as Hload0.
  pose proof (new_FontPicker_suffix d options fm p0 Hnew Hname) as Hsuffix0.
  split; [exact (proj1 Hload0)|]. cbv zeta.
  destruct (icon_in_one_state fm_setActiveFont Hlower d options fm p0 es
              Hnew Hsuffix0) as [Hsuffix [Hpending Hsettled]].
  set (w := run_events fm_setActiveFont (start p0) es) in *.
  split; [|split; [|split; [|split]]].
  - destruct (init_pending w) eqn:Hp.
    + exists IconLoading. exact (proj1 (Hpending eq_refl)).
    + destruct (Hsettled eq_refl) as [H|H];
        [exists IconFinished | exists IconError]; exact H.
  - intros Hp. exact (proj1 (Hpending Hp)).
  - intros e. apply icon_changes_only_on_settling.
  - intros o Hp. cbn [handle]. rewrite Hp. cbn [picker].
    apply (settled_icon Hlower); [exact (proj1 (Hpending Hp)) | exact Hsuffix].
  - intros Hp later.
    destruct (run_events_settled fm_setActiveFont later w Hp) as [_ [H _]].
    exact H.
Qed.

Lemma C6_icon_witness :
  name_accepted (OptionsObject {| name := None |})
  /\ new_FontPicker (rt := ascii_runtime) (page_with_div (lit "font-picker"))
       (OptionsObject {| name := None |}) (Normal managerBefore)
     = Normal samplePicker
  /\ icon_in_state IconFinished
       (picker
          (handle (rt := ascii_runtime) sample_setActiveFont
             (run_events (rt := ascii_runtime) sample_setActiveFont
                (start samplePicker) [EvToggleExpanded])
             (EvInitSettled (InitFulfilled managerAfter)))).
Proof.
  split; [exact I|]. split; [reflexivity|].
  exact (proj1 (proj2 (proj2 (proj2 (proj2
           (C6_icon_one_state_one_transition (rt := ascii_runtime)
              sample_setActiveFont (page_with_div (lit "font-picker"))
              (OptionsObject {| name := None |}) (Normal managerBefore)
              samplePicker [EvToggleExpanded]
              ascii_toLowerCase_no_whitespace I eq_refl)))))
           (InitFulfilled managerAfter) eq_refl).
Defined.

(* ===================================================================== *)
(** ** FontPicker.js: relations the methods keep                          *)
(* ===================================================================== *)

Section Keeps.
Variable R : FontPicker -> FontPicker -> Prop.
Hypothesis R_refl : forall p, R p p.
Hypothesis R_trans : forall p q r, R p q -> R q r -> R p r.

Lemma keeps_ret {A} (a : A) : keeps R (ret a).
Proof. intros p. apply R_refl. Qed.

Lemma keeps_throw {A} (e : JSError) : keeps R (@throw A e).
Proof. intros p. apply R_refl. Qed.

Lemma keeps_read {A} (f : FontPicker -> A) : keeps R (read f).
Proof. intros p. apply R_refl. Qed.

Lemma keeps_lift {A} (c : Completion A) : keeps R (lift c).
Proof. intros p. apply R_refl. Qed.

Lemma keeps_modify (f : FontPicker -> FontPicker) :
  (forall p, R p (f p)) -> keeps R (modify f).
Proof. intros H p. apply H. Qed.

Lemma keeps_bind {A B} (c : Action A) (k : A -> Action B) :
  keeps R c -> (forall a, keeps R (k a)) -> keeps R (bind c k).
Proof.
  intros Hc Hk p. unfold bind. specialize (Hc p).
  destruct (c p) as [p' [a|e]]; cbn [fst] in *; [|exact Hc].
  exact (R_trans _ _ _ Hc (Hk a p')).
Qed.

Lemma keeps_if {A} (b : bool) (x y : Action A) :
  keeps R x -> keeps R y -> keeps R (if b then x else y).
Proof. destruct b; auto. Qed.

Lemma keeps_try_catch {A} (c : Action A) (h : JSError -> Action A) :
  keeps R c -> (forall e, keeps R (h e)) -> keeps R (try_catch c h).
Proof.
  intros Hc Hh p. unfold try_catch. specialize (Hc p).
  destruct (c p) as [p' [a|e]]; cbn [fst] in *; [exact Hc|].
  exact (R_trans _ _ _ Hc (Hh e p')).
Qed.

Lemma keeps_on_classList (get : FontPicker -> Elem)
    (set : Elem -> FontPicker -> FontPicker)
    (op : list jsstring -> Completion (list jsstring)) :
  (forall e p, R p (set e p)) -> keeps R (on_classList get set op).
Proof.
  intros Hset. unfold on_classList.
  apply keeps_bind; [apply keeps_read|]. intros e.
  apply keeps_bind; [apply keeps_lift|]. intros cl.
  apply keeps_modify. intros p. apply Hset.
Qed.
End Keeps.

(** One step through an action for a relation that the updates of the
    picker keep. *)
Ltac keeps_step Hr Ht :=
  lazymatch goal with
  | |- keeps _ (on_classList _ _ _) =>
      apply (keeps_on_classList _ Hr Ht); intros ? ?; reflexivity
  | |- keeps _ (bind _ _) => apply (keeps_bind _ Ht); [|intros ?]
  | |- keeps _ (read _) => apply (keeps_read _ Hr)
  | |- keeps _ (ret _) => apply (keeps_ret _ Hr)
  | |- keeps _ (throw _) => apply (keeps_throw _ Hr)
  | |- keeps _ (lift _) => apply (keeps_lift _ Hr)
  | |- keeps _ (modify _) => apply keeps_modify; intros ?; reflexivity
  end.

(* ===================================================================== *)
(** ** FontPicker.js: the scroll handler                                  *)
(* ===================================================================== *)

Lemma requests_kept_refl (p : FontPicker) : requests_kept p p.
Proof. reflexivity. Qed.

Lemma requests_kept_trans (p q r : FontPicker) :
  requests_kept p q -> requests_kept q r -> requests_kept p r.
Proof. unfold requests_kept. congruence. Qed.

Lemma toggleExpanded_keeps_requests : keeps requests_kept toggleExpanded.
Proof.
  pose proof requests_kept_refl as Hr. pose proof requests_kept_trans as Ht.
  unfold toggleExpanded. apply (keeps_bind _ Ht); [keeps_step Hr Ht|].
  intros e. destruct e; repeat keeps_step Hr Ht.
Qed.

Lemma entry_classList_keeps_requests (i : nat)
    (op : list jsstring -> Completion (list jsstring)) :
  keeps requests_kept (on_entry_classList i op).
Proof.
  intros p. unfold on_entry_classList, bind, read, lift, modify, throw.
  destruct (nth_error (ul_entries p) i) as [e|]; [|reflexivity].
  destruct (op (el_classList e)); reflexivity.
Qed.

Lemma activeFontA_classList_keeps_requests
    (op : list jsstring -> Completion (list jsstring)) :
  keeps requests_kept (on_activeFontA_classList op).
Proof.
  intros p. unfold on_activeFontA_classList, bind, read, lift, modify, throw.
  destruct (activeFontA p) as [| |[i|i path]]; try reflexivity.
  - apply entry_classList_keeps_requests.
  - destruct (nth_error (ul_entries p) i) as [e|]; [|reflexivity].
    destruct (on_descendant_classList op path (el_content e)); reflexivity.
Qed.

Lemma setActiveFont_keeps_requests {rt : JSRuntime}
    (fm_setActiveFont : jsstring -> FontManager -> Z * FontManager)
    (fontFamily : jsstring) :
  keeps requests_kept (setActiveFont fm_setActiveFont fontFamily).
Proof.
  pose proof requests_kept_refl as Hr. pose proof requests_kept_trans as Ht.
  unfold setActiveFont.
  apply (keeps_bind _ Ht); [keeps_step Hr Ht|]. intros fm.
  apply (keeps_bind _ Ht); [keeps_step Hr Ht|]. intros _.
  apply keeps_if; [|keeps_step Hr Ht].
  apply (keeps_bind _ Ht); [keeps_step Hr Ht|]. intros _.
  apply (keeps_bind _ Ht); [apply activeFontA_classList_keeps_requests|].
  intros _. apply (keeps_bind _ Ht); [keeps_step Hr Ht|]. intros entries.
  destruct (nth_error (getElementsByTagName_li entries) _);
    [|keeps_step Hr Ht].
  apply (keeps_bind _ Ht); [keeps_step Hr Ht|].
  intros _. apply activeFontA_classList_keeps_requests.
Qed.

Lemma render_entries_keeps_requests {rt : JSRuntime} (fs : list Font) :
  keeps requests_kept (render_entries fs).
Proof.
  pose proof requests_kept_refl as Hr. pose proof requests_kept_trans as Ht.
  induction fs as [|font fs IH]; [apply (keeps_ret _ Hr)|].
  cbn [render_entries]. apply (keeps_bind _ Ht); [|intros _; exact IH].
  unfold render_entry. cbv zeta.
  do 3 (apply (keeps_bind _ Ht); [keeps_step Hr Ht|intros ?]).
  apply (keeps_bind _ Ht); [|intros ?; keeps_step Hr Ht].
  destruct (jsstring_eqb _ _); repeat keeps_step Hr Ht.
Qed.

Lemma init_settled_keeps_requests {rt : JSRuntime} (o : InitOutcome) :
  keeps requests_kept (init_settled o).
Proof.
  pose proof requests_kept_refl as Hr. pose proof requests_kept_trans as Ht.
  assert (Hrej : forall err, keeps requests_kept (init_rejected err)).
  { intros err. unfold init_rejected. repeat keeps_step Hr Ht. }
  destruct o as [fm|fm err]; cbn [init_settled];
    (apply (keeps_bind _ Ht); [keeps_step Hr Ht|]); intros _; [|apply Hrej].
  apply (keeps_try_catch _ Ht); [|exact Hrej].
  unfold init_fulfilled. do 4 (apply (keeps_bind _ Ht); [keeps_step Hr Ht|intros ?]).
  apply (keeps_bind _ Ht); [apply render_entries_keeps_requests|].
  intros _. keeps_step Hr Ht.
Qed.

(** What a call of [onScroll] does to the list of requests. *)
Lemma onScroll_requests (layout : Layout) (fm : FontManager) (p : FontPicker) :
  downloadPreviews_calls (fst (onScroll layout fm p))
  = downloadPreviews_calls p
    ++ [(Math_ceil ((scrollTop layout + clientHeight layout)
                    / (scrollHeight layout
                       / of_integer
                           (Z.of_nat (List.length (fonts (fontManager p))))))
         + 5)%float].
Proof. reflexivity. Qed.

(** The test of the throttle, in words. *)
Lemma shouldInvoke_due (th : Throttle) (now : Z) :
  shouldInvoke 250 th now = true
  <-> match lastCallTime th with
      | None => True
      | Some lastCall =>
          (250 <= now - lastCall \/ now - lastCall < 0
           \/ 250 <= now - lastInvokeTime th)%Z
      end.
Proof.
  unfold shouldInvoke. destruct (lastCallTime th) as [lastCall|]; [|tauto].
  rewrite !orb_true_iff, !Z.leb_le, Z.ltb_lt. tauto.
Qed.

(** What the throttle decides at a call and at a timeout. *)
Lemma debounced_decision (wait : Z) (th : Throttle) (now : Z) :
  snd (debounced wait th now) = shouldInvoke wait th now
  /\ lastArgs (fst (debounced wait th now)) = negb (shouldInvoke wait th now)
  /\ timerId (fst (debounced wait th now)) = true.
Proof.
  unfold debounced. destruct (shouldInvoke wait th now);
    destruct (timerId th) eqn:Hid; cbn; repeat split; exact Hid.
Qed.

Lemma timerExpired_decision (wait : Z) (th : Throttle) (now : Z) :
  snd (timerExpired wait th now) = shouldInvoke wait th now && lastArgs th
  /\ lastArgs (fst (timerExpired wait th now))
     = negb (shouldInvoke wait th now) && lastArgs th.
Proof.
  unfold timerExpired, trailingEdge.
  change (shouldInvoke wait
            {| lastArgs := lastArgs th; lastCallTime := lastCallTime th;
               lastInvokeTime := lastInvokeTime th; timerId := timerId th;
               timeouts := Nat.pred (timeouts th) |} now)
    with (shouldInvoke wait th now).
  destruct (shouldInvoke wait th now); cbn [lastArgs];
    destruct (lastArgs th); split; reflexivity.
Qed.

(** C7, as stated, fails because the scroll handler is throttled: when
    the list has arrived and is scrolled three times within a quarter of
    a second, only the first scroll event calls [downloadPreviews]; the
    other two wait for the timeout of the throttle, which serves them
    with one call. *)
Lemma C7_scroll_events_throttled :
  downloadPreviews_calls
    (picker (run_events (rt := ascii_runtime) sample_setActiveFont
               (start samplePicker) threeScrolls))
  = [7%float]
  /\ lastArgs
       (scroll_throttle
          (run_events (rt := ascii_runtime) sample_setActiveFont
             (start samplePicker) threeScrolls)) = true
  /\ downloadPreviews_calls
       (picker (run_events (rt := ascii_runtime) sample_setActiveFont
                  (start samplePicker)
                  (threeScrolls ++ [EvTimeout 1250 sampleLayout managerAfter])))
     = [7%float; 7%float].
Proof. vm_compute. repeat split. Qed.

(** C7, amended.  With the scroll handler installed:
    - a scroll event calls [onScroll] at once when it is the first one,
      when 250 ms or more have passed since the scroll event before it or
      since the call of [onScroll] before it, or when the clock has gone
      back; any other scroll event calls nothing and leaves a call
      waiting, with a timeout of the throttle set;
    - a timeout of the throttle calls [onScroll] when the same test holds
      and a call is waiting, and nothing otherwise;
    - every call of [onScroll] makes one call of [downloadPreviews], with
      the index [ceil((scrollTop + clientHeight) / (scrollHeight / number
      of fonts))] plus 5, in double arithmetic;
    - nothing else that happens to the widget calls
      [downloadPreviews]. *)
Theorem C7_onScroll_requests_previews {rt : JSRuntime}
    (fm_setActiveFont : jsstring -> FontManager -> Z * FontManager)
    (w : Widget) (now : Z) (layout : Layout) (fm : FontManager) :
  ul_onscroll (picker w) = true ->
  let th := scroll_throttle w in
  let calls := downloadPreviews_calls (picker w) in
  let number := of_integer (Z.of_nat (List.length (fonts (fontManager (picker w))))) in
  let index :=
    Math_ceil ((scrollTop layout + clientHeight layout)
               / (scrollHeight layout / number))%float in
  let due :=
    match lastCallTime th with
    | None => True
    | Some lastCall =>
        (250 <= now - lastCall \/ now - lastCall < 0
         \/ 250 <= now - lastInvokeTime th)%Z
    end in
  let scrolled := handle fm_setActiveFont w (EvScroll now layout fm) in
  let fired := handle fm_setActiveFont w (EvTimeout now layout fm) in
  (due ->
   downloadPreviews_calls (picker scrolled) = calls ++ [(index + 5)%float]
   /\ lastArgs (scroll_throttle scrolled) = false)
  /\ (~ due ->
      downloadPreviews_calls (picker scrolled) = calls
      /\ lastArgs (scroll_throttle scrolled) = true
      /\ timerId (scroll_throttle scrolled) = true)
  /\ ((0 < timeouts th)%nat -> due -> lastArgs th = true ->
      downloadPreviews_calls (picker fired) = calls ++ [(index + 5)%float]
      /\ lastArgs (scroll_throttle fired) = false)
  /\ (timeouts th = 0%nat \/ ~ due \/ lastArgs th = false ->
      downloadPreviews_calls (picker fired) = calls)
  /\ (forall e,
        match e with
        | EvScroll _ _ _ | EvTimeout _ _ _ => False
        | _ => True
        end ->
        downloadPreviews_calls (picker (handle fm_setActiveFont w e)) = calls).
Proof.
  intros Hinstalled. cbv zeta.
  pose proof (shouldInvoke_due (scroll_throttle w) now) as Hdue.
  set (due := match lastCallTime (scroll_throttle w) with
              | None => True
              | Some lastCall =>
                  (250 <= now - lastCall \/ now - lastCall < 0
                   \/ 250 <= now - lastInvokeTime (scroll_throttle w))%Z
              end) in *.
  assert (Hnot : ~ due -> shouldInvoke 250 (scroll_throttle w) now = false).
  { intros H. destruct (shouldInvoke 250 (scroll_throttle w) now) eqn:Hs;
      [|reflexivity]. exfalso. apply H, Hdue. reflexivity. }
  destruct (debounced_decision 250 (scroll_throttle w) now)
    as [Hcall [Hwaiting Htimer]].
  destruct (timerExpired_decision 250 (scroll_throttle w) now)
    as [Hfire Hserved].
  split; [|split; [|split; [|split]]].
  - intros H. apply Hdue in H. cbn [handle]. rewrite Hinstalled.
    unfold throttled, THROTTLE_INTERVAL. cbn [picker scroll_throttle].
    rewrite Hcall, Hwaiting, H. split; [apply onScroll_requests | reflexivity].
  - intros H. apply Hnot in H. cbn [handle]. rewrite Hinstalled.
    unfold throttled, THROTTLE_INTERVAL. cbn [picker scroll_throttle].
    rewrite Hcall, Hwaiting, H. repeat split. exact Htimer.
  - intros Hout H Hargs. apply Hdue in H. cbn [handle].
    destruct (timeouts (scroll_throttle w)) as [|k] eqn:Hk; [lia|].
    unfold throttled, THROTTLE_INTERVAL. cbn [picker scroll_throttle].
    rewrite Hfire, Hserved, H, Hargs.
    split; [apply onScroll_requests | reflexivity].
  - intros H. cbn [handle].
    destruct (timeouts (scroll_throttle w)) as [|k] eqn:Hk; [reflexivity|].
    unfold throttled, THROTTLE_INTERVAL. cbn [picker scroll_throttle].
    rewrite Hfire. destruct H as [H|[H|H]]; [discriminate| |].
    + rewrite (Hnot H). reflexivity.
    + rewrite H, andb_false_r. reflexivity.
  - intros e He.
    destruct e as [o| |i|path|now' layout' fm'|now' layout' fm'|fam];
      try contradiction; cbn [handle].
    + destruct (init_pending w); [|reflexivity].
      apply init_settled_keeps_requests.
    + apply toggleExpanded_keeps_requests.
    + destruct (i <? _)%nat; [|reflexivity]. cbn [after picker].
      apply (keeps_bind _ requests_kept_trans);
        [apply toggleExpanded_keeps_requests|].
      intros _. apply (keeps_bind _ requests_kept_trans);
        [apply (keeps_read _ requests_kept_refl)|]. intros fs.
      destruct (nth_error fs i);
        [apply setActiveFont_keeps_requests
        | apply (keeps_throw _ requests_kept_refl)].
    + destruct (click_listener _); [|reflexivity]. cbn [after picker].
      unfold closeEventListener. destruct (existsb _ path);
        [reflexivity | apply toggleExpanded_keeps_requests].
    + apply setActiveFont_keeps_requests.
Qed.

Lemma C7_onScroll_witness :
  ul_onscroll renderedPicker = true
  /\ downloadPreviews_calls
       (picker
          (handle (rt := ascii_runtime) sample_setActiveFont
             {| picker := renderedPicker; init_pending := false;
                scroll_throttle := new_throttle |}
             (EvScroll 1000 sampleLayout managerAfter)))
     = [7%float].
Proof.
  split; [reflexivity|].
  exact (proj1 (proj1
           (C7_onScroll_requests_previews (rt := ascii_runtime)
              sample_setActiveFont
              {| picker := renderedPicker; init_pending := false;
                 scroll_throttle := new_throttle |}
              1000 sampleLayout managerAfter eq_refl) I)).
Defined.

(* ===================================================================== *)
(** ** font-download.js: preview and full stylesheet of one font          *)
(* ===================================================================== *)

Lemma find_in_node_eq (i : jsstring) (t : jsstring) (a : Attributes)
    (cs : list Node) :
  find_in_node i (Element t a cs)
  = if has_id i (Element t a cs) then Some (Element t a cs)
    else find_in_forest i cs.
Proof.
  cbn [find_in_node]. destruct (has_id i (Element t a cs)); [reflexivity|].
  induction cs as [|c cs IH]; [reflexivity|].
  cbn [find_in_forest]. destruct (find_in_node i c); [reflexivity | exact IH].
Qed.

Lemma count_in_node_eq (i : jsstring) (t : jsstring) (a : Attributes)
    (cs : list Node) :
  count_in_node i (Element t a cs)
  = ((if has_id i (Element t a cs) then 1 else 0) + count_in_forest i cs)%nat.
Proof.
  cbn [count_in_node]. f_equal.
  induction cs as [|c cs IH]; [reflexivity|].
  cbn [count_in_forest]. rewrite IH. reflexivity.
Qed.

Lemma remove_below_eq (i : jsstring) (t : jsstring) (a : Attributes)
    (cs : list Node) :
  remove_below i (Element t a cs)
  = option_map (Element t a) (remove_in_forest i cs).
Proof.
  cbn [remove_below]. f_equal.
  induction cs as [|c cs IH]; [reflexivity|].
  cbn [remove_in_forest]. destruct (has_id i c); [reflexivity|].
  destruct (remove_below i c); [reflexivity|]. rewrite IH. reflexivity.
Qed.

Lemma has_id_attrs (j : jsstring) (t : jsstring) (a : Attributes)
    (cs cs' : list Node) :
  has_id j (Element t a cs') = has_id j (Element t a cs).
Proof. reflexivity. Qed.

(** An ID is found exactly when it is counted. *)
Lemma find_in_node_count (i : jsstring) (n : Node) :
  find_in_node i n = None <-> count_in_node i n = 0%nat.
Proof.
  induction n as [t a cs IH] using Node_ind.
  rewrite find_in_node_eq, count_in_node_eq.
  destruct (has_id i (Element t a cs)); [split; [discriminate | lia]|].
  cbn [Nat.add]. induction IH as [|c cs Hc _ IHcs]; [tauto|].
  cbn [find_in_forest count_in_forest].
  destruct (find_in_node i c) eqn:Hf.
  - split; [discriminate|]. intros H.
    assert (H0 : count_in_node i c = 0%nat) by lia.
    apply Hc in H0. discriminate.
  - rewrite (proj1 Hc eq_refl). exact IHcs.
Qed.

Lemma find_in_forest_count (i : jsstring) (l : list Node) :
  find_in_forest i l = None <-> count_in_forest i l = 0%nat.
Proof.
  induction l as [|c l IH]; [cbn; tauto|].
  cbn [find_in_forest count_in_forest].
  pose proof (find_in_node_count i c) as Hc.
  destruct (find_in_node i c) eqn:Hf.
  - split; [discriminate|]. intros H.
    assert (H0 : count_in_node i c = 0%nat) by lia.
    apply Hc in H0. discriminate.
  - rewrite (proj1 Hc eq_refl). exact IH.
Qed.

Lemma getElementById_count (d : Document) (i : jsstring) :
  getElementById d i = None <-> count_id d i = 0%nat.
Proof.
  unfold getElementById, count_id.
  pose proof (find_in_forest_count i (head d)) as Hh.
  pose proof (find_in_forest_count i (body d)) as Hb.
  destruct (find_in_forest i (head d)).
  - split; [discriminate|]. intros H.
    assert (H0 : count_in_forest i (head d) = 0%nat) by lia.
    apply Hh in H0. discriminate.
  - rewrite (proj1 Hh eq_refl). exact Hb.
Qed.

Lemma removal_shrinks_forest_from_nodes (i : jsstring) (l : list Node) :
  Forall (removal_shrinks_node i) l -> removal_shrinks_forest i l.
Proof.
  induction 1 as [|c l [Hc1 Hc2] _ [IH1 IH2]]; [split; [discriminate|reflexivity]|].
  split.
  - intros l'. cbn [remove_in_forest].
    destruct (has_id i c) eqn:Hid.
    + intros H. injection H as <-. destruct c as [t a cs].
      cbn [count_in_forest]. rewrite count_in_node_eq, Hid.
      split; [|lia]. intros j. lia.
    + destruct (remove_below i c) as [c'|] eqn:Hrem.
      * intros H. injection H as <-. destruct (Hc1 c' eq_refl) as [Hle Hlt].
        cbn [count_in_forest]. split; [|lia]. intros j. specialize (Hle j). lia.
      * destruct (remove_in_forest i l) as [l0|]; [|discriminate].
        cbn [option_map]. intros H. injection H as <-.
        destruct (IH1 l0 eq_refl) as [Hle Hlt].
        cbn [count_in_forest]. split; [|lia]. intros j. specialize (Hle j). lia.
  - cbn [remove_in_forest]. destruct (has_id i c) eqn:Hid; [discriminate|].
    destruct (remove_below i c) as [c'|] eqn:Hrem; [discriminate|].
    destruct (remove_in_forest i l) as [l0|]; [discriminate|]. intros _.
    cbn [count_in_forest]. rewrite (IH2 eq_refl).
    destruct c as [t a cs]. rewrite count_in_node_eq, Hid.
    cbn [node_children] in Hc2. rewrite (Hc2 eq_refl). reflexivity.
Qed.

Lemma removal_shrinks_every_node (i : jsstring) (n : Node) :
  removal_shrinks_node i n.
Proof.
  induction n as [t a cs IH] using Node_ind.
  apply removal_shrinks_forest_from_nodes in IH. destruct IH as [H1 H2].
  unfold removal_shrinks_node. rewrite remove_below_eq. split.
  - intros n'. destruct (remove_in_forest i cs) as [cs'|]; [|discriminate].
    cbn [option_map]. intros H. injection H as <-.
    destruct (H1 cs' eq_refl) as [Hle Hlt]. split.
    + intros j. specialize (Hle j). rewrite !count_in_node_eq.
      rewrite (has_id_attrs j t a cs cs'). lia.
    + rewrite !count_in_node_eq. rewrite (has_id_attrs i t a cs cs'). lia.
  - destruct (remove_in_forest i cs); [discriminate|]. intros _.
    exact (H2 eq_refl).
Qed.

Lemma removal_shrinks_every_forest (i : jsstring) (l : list Node) :
  removal_shrinks_forest i l.
Proof.
  apply removal_shrinks_forest_from_nodes. apply Forall_forall.
  intros n _. apply removal_shrinks_every_node.
Qed.

(** [outerHTML = ''] on the element found: no ID becomes more frequent,
    and the ID that was looked up becomes less frequent. *)
Lemma removeElementById_counts (d : Document) (i : jsstring) :
  (forall j, count_id (removeElementById d i) j <= count_id d j)%nat
  /\ (getElementById d i <> None ->
      (count_id (removeElementById d i) i < count_id d i)%nat).
Proof.
  unfold removeElementById, count_id.
  destruct (removal_shrinks_every_forest i (head d)) as [Hh1 Hh2].
  destruct (removal_shrinks_every_forest i (body d)) as [Hb1 Hb2].
  destruct (remove_in_forest i (head d)) as [h'|].
  - destruct (Hh1 h' eq_refl) as [Hle Hlt]. cbn [head body]. split.
    + intros j. specialize (Hle j). lia.
    + intros _. lia.
  - destruct (remove_in_forest i (body d)) as [b'|].
    + destruct (Hb1 b' eq_refl) as [Hle Hlt]. cbn [head body]. split.
      * intros j. specialize (Hle j). lia.
      * intros _. lia.
    + split; [intros j; lia|]. intros Hfound. exfalso. apply Hfound.
      apply getElementById_count. unfold count_id.
      rewrite (Hh2 eq_refl), (Hb2 eq_refl). reflexivity.
Qed.

Lemma count_in_forest_app (i : jsstring) (l1 l2 : list Node) :
  count_in_forest i (l1 ++ l2)
  = (count_in_forest i l1 + count_in_forest i l2)%nat.
Proof.
  induction l1 as [|c l1 IH]; [reflexivity|].
  cbn [app count_in_forest]. rewrite IH. lia.
Qed.

Lemma count_head_appendChild (n : Node) (d : Document) (j : jsstring) :
  count_id (head_appendChild n d) j = (count_id d j + count_in_node j n)%nat.
Proof.
  unfold count_id, head_appendChild. cbn [head body].
  rewrite count_in_forest_app. cbn [count_in_forest]. lia.
Qed.

Lemma count_link (j url id : jsstring) :
  count_in_node j (link_element url id)
  = if negb (jsstring_eqb j []) && jsstring_eqb id j then 1%nat else 0%nat.
Proof.
  unfold link_element. rewrite count_in_node_eq. cbn [count_in_forest].
  unfold has_id. cbn [node_id attr_id]. lia.
Qed.

Lemma preview_id_not_empty (x : jsstring) : jsstring_eqb (preview_id x) [] = false.
Proof. reflexivity. Qed.

Lemma full_id_not_empty (x : jsstring) : jsstring_eqb (full_id x) [] = false.
Proof. reflexivity. Qed.

Lemma full_id_not_preview_id (x y : jsstring) :
  jsstring_eqb (full_id y) (preview_id x) = false.
Proof.
  apply jsstring_eqb_neq. unfold full_id, preview_id. intros H.
  cbv [lit list_ascii_of_string map N_of_ascii N_of_digits app] in H.
  discriminate H.
Qed.

Lemma preview_id_not_full_id (x y : jsstring) :
  jsstring_eqb (preview_id y) (full_id x) = false.
Proof.
  apply jsstring_eqb_neq. intros H. symmetry in H.
  apply jsstring_eqb_eq in H. rewrite full_id_not_preview_id in H.
  discriminate.
Qed.

Lemma preview_id_eqb (x y : jsstring) :
  jsstring_eqb (preview_id y) (preview_id x) = jsstring_eqb y x.
Proof.
  apply eq_true_iff_eq. rewrite !jsstring_eqb_eq. unfold preview_id.
  split; [apply app_inv_head | congruence].
Qed.

Lemma full_id_eqb (x y : jsstring) :
  jsstring_eqb (full_id y) (full_id x) = jsstring_eqb y x.
Proof.
  apply eq_true_iff_eq. rewrite !jsstring_eqb_eq. unfold full_id.
  split; [apply app_inv_head | congruence].
Qed.

Section Exclusive.
Context {rt : JSRuntime}.
Variable x : jsstring.

Lemma counts_after_full (font : Font) (y : jsstring) (d : Document) :
  count_id (downloadFullFont font y d) (preview_id x) = count_id d (preview_id x)
  /\ count_id (downloadFullFont font y d) (full_id x)
     = (count_id d (full_id x) + if jsstring_eqb y x then 1 else 0)%nat.
Proof.
  unfold downloadFullFont. cbv zeta. rewrite !count_head_appendChild, !count_link.
  rewrite preview_id_not_empty, full_id_not_empty, full_id_not_preview_id,
    full_id_eqb.
  cbn [negb andb]. split; lia.
Qed.

Lemma counts_after_preview (font : Font) (y : jsstring) (d : Document) :
  count_id (downloadPreviewFont font y d) (preview_id x)
  = (count_id d (preview_id x) + if jsstring_eqb y x then 1 else 0)%nat
  /\ count_id (downloadPreviewFont font y d) (full_id x) = count_id d (full_id x).
Proof.
  unfold downloadPreviewFont. cbv zeta.
  rewrite !count_head_appendChild, !count_link.
  rewrite preview_id_not_empty, full_id_not_empty, preview_id_not_full_id,
    preview_id_eqb.
  cbn [negb andb]. split; lia.
Qed.

Lemma checkFullFont_exclusive (avail : jsstring -> bool) (font : Font)
    (d : Document) :
  exclusive x d -> exclusive x (checkFullFont avail font d).
Proof.
  unfold exclusive, checkFullFont. cbv zeta. intros [Hone Hnot].
  set (y := checkFullFont_fontId (family font)).
  destruct (getElementById d (preview_id y)) as [n|] eqn:Hprev; cbn [is_some].
  - destruct (counts_after_full font y (removeElementById d (preview_id y)))
      as [-> ->].
    destruct (removeElementById_counts d (preview_id y)) as [Hle Hlt].
    pose proof (Hle (preview_id x)) as Hp. pose proof (Hle (full_id x)) as Hf.
    destruct (jsstring_eqb y x) eqn:Hyx.
    + apply jsstring_eqb_eq in Hyx. subst x.
      assert (count_id (removeElementById d (preview_id y)) (preview_id y)
              < count_id d (preview_id y))%nat
        by (apply Hlt; congruence).
      split; [lia | left; lia].
    + split; [lia|]. destruct Hnot; [left | right]; lia.
  - destruct (negb (is_some (getElementById d (full_id y)))
              && negb (avail (family font))); [|split; assumption].
    destruct (counts_after_full font y d) as [-> ->].
    destruct (jsstring_eqb y x) eqn:Hyx.
    + apply jsstring_eqb_eq in Hyx. subst x.
      apply getElementById_count in Hprev. split; [lia | left; lia].
    + split; [lia|]. destruct Hnot; [left | right]; lia.
Qed.

Lemma checkPreviewFont_exclusive (avail : jsstring -> bool) (font : Font)
    (d : Document) :
  getElementById d (preview_id (checkPreviewFont_fontId (family font))) = None ->
  exclusive x d -> exclusive x (checkPreviewFont avail font d).
Proof.
  unfold exclusive, checkPreviewFont. cbv zeta.
  set (y := checkPreviewFont_fontId (family font)). intros Hprev [Hone Hnot].
  destruct (getElementById d (full_id y)) as [n|] eqn:Hfull; cbn [is_some negb andb];
    [split; assumption|].
  destruct (avail (family font)); cbn [negb]; [split; assumption|].
  destruct (counts_after_preview font y d) as [-> ->].
  destruct (jsstring_eqb y x) eqn:Hyx.
  - apply jsstring_eqb_eq in Hyx. subst x.
    apply getElementById_count in Hprev, Hfull. split; [lia | right; lia].
  - split; [lia|]. destruct Hnot; [left | right]; lia.
Qed.

(** When no preview is requested twice, a preview link and a full link
    of the same font id are never in the document together. *)
Lemma run_calls_exclusive (cs : list Call) (d : Document) :
  exclusive x d -> previews_requested_once cs d ->
  exclusive x (run_calls cs d)
  /\ (getElementById (run_calls cs d) (preview_id x) = None
      \/ getElementById (run_calls cs d) (full_id x) = None).
Proof.
  intros Hex Hreq.
  assert (H : exclusive x (run_calls cs d)).
  { revert d Hex Hreq. induction cs as [|c cs IH]; intros d Hex Hreq;
      [exact Hex|].
    cbn [run_calls fold_left]. destruct Hreq as [Hc Hrest].
    apply IH; [|exact Hrest].
    destruct c as [avail font|avail font]; cbn [call].
    - apply checkFullFont_exclusive. exact Hex.
    - apply checkPreviewFont_exclusive; assumption. }
  split; [exact H|]. destruct H as [_ [H|H]]; [left | right];
    apply getElementById_count; exact H.
Qed.
End Exclusive.

(* ===================================================================== *)
(** ** font-download.js: the full stylesheet                              *)
(* ===================================================================== *)

Lemma getElementById_found (d : Document) (i : jsstring) :
  getElementById d i <> None <-> (0 < count_id d i)%nat.
Proof.
  rewrite getElementById_count. lia.
Qed.

Lemma is_some_found {A} (o : option A) : is_some o = true <-> o <> None.
Proof. destruct o; cbn; split; congruence. Qed.

Lemma is_some_missing {A} (o : option A) : is_some o = false <-> o = None.
Proof. destruct o; cbn; split; congruence. Qed.

(** Right after [downloadFullFont] the full link is found, and preview
    links are as frequent as before. *)
Lemma downloadFullFont_found (font : Font) (y : jsstring) (d : Document) :
  getElementById (downloadFullFont font y d) (full_id y) <> None
  /\ count_id (downloadFullFont font y d) (preview_id y)
     = count_id d (preview_id y).
Proof.
  destruct (counts_after_full y font y d) as [Hp Hf].
  split; [|exact Hp]. apply getElementById_found. rewrite Hf.
  replace (jsstring_eqb y y) with true
    by (symmetry; apply jsstring_eqb_eq; reflexivity).
  lia.
Qed.

(** Whenever [checkFullFont] changes the document, the full link is in
    it afterwards. *)
Lemma checkFullFont_changed_has_full {rt : JSRuntime}
    (avail : jsstring -> bool) (font : Font) (d : Document) :
  checkFullFont avail font d <> d ->
  getElementById (checkFullFont avail font d)
    (full_id (checkFullFont_fontId (family font))) <> None.
Proof.
  unfold checkFullFont. cbv zeta.
  destruct (is_some (getElementById d _)).
  - intros _. apply downloadFullFont_found.
  - destruct (negb _ && negb _); [|congruence].
    intros _. apply downloadFullFont_found.
Qed.

(** When a preview link is there or the font is not available, the full
    link is in the document after [checkFullFont]. *)
Lemma checkFullFont_needed_has_full {rt : JSRuntime}
    (avail : jsstring -> bool) (font : Font) (d : Document) :
  getElementById d (preview_id (checkFullFont_fontId (family font))) <> None
  \/ avail (family font) = false ->
  getElementById (checkFullFont avail font d)
    (full_id (checkFullFont_fontId (family font))) <> None.
Proof.
  intros Hneed. unfold checkFullFont. cbv zeta.
  destruct (is_some (getElementById d (preview_id _))) eqn:Hprev;
    [apply downloadFullFont_found|].
  destruct (getElementById d (full_id (checkFullFont_fontId (family font))))
    as [n|] eqn:Hfull; cbn [is_some negb andb].
  - rewrite Hfull. discriminate.
  - destruct Hneed as [Hp|Hav].
    + apply is_some_missing in Hprev. contradiction.
    + rewrite Hav. cbn [negb]. apply downloadFullFont_found.
Qed.

(** X1: [checkFullFont] leaves the document alone when it holds no
    preview link of the font and either holds the full link already or
    the font is available; in every other case the full link of the font
    is in the document afterwards. *)
Theorem X1_checkFullFont_ensures_full {rt : JSRuntime}
    (isFontAvailable : jsstring -> bool) (font : Font) (d : Document) :
  let fontId := checkFullFont_fontId (family font) in
  (getElementById d (preview_id fontId) = None ->
   getElementById d (full_id fontId) <> None
   \/ isFontAvailable (family font) = true ->
   checkFullFont isFontAvailable font d = d)
  /\ (getElementById d (preview_id fontId) <> None
      \/ isFontAvailable (family font) = false ->
      getElementById (checkFullFont isFontAvailable font d) (full_id fontId)
      <> None).
Proof.
  cbv zeta. split.
  - intros Hprev Hskip. unfold checkFullFont. cbv zeta. rewrite Hprev.
    cbn [is_some].
    destruct Hskip as [Hfull| ->].
    + apply is_some_found in Hfull. rewrite Hfull. reflexivity.
    + rewrite andb_false_r. reflexivity.
  - apply checkFullFont_needed_has_full.
Qed.

(** X2: in a document with at most one preview link of the font, a second
    call of [checkFullFont] changes nothing any more. *)
Theorem X2_checkFullFont_idempotent {rt : JSRuntime}
    (isFontAvailable : jsstring -> bool) (font : Font) (d : Document) :
  (count_id d (preview_id (checkFullFont_fontId (family font))) <= 1)%nat ->
  checkFullFont isFontAvailable font (checkFullFont isFontAvailable font d)
  = checkFullFont isFontAvailable font d.
Proof.
  intros Hone.
  set (y := checkFullFont_fontId (family font)) in *.
  assert (Hstable : forall d1,
            getElementById d1 (preview_id y) = None ->
            getElementById d1 (full_id y) <> None ->
            checkFullFont isFontAvailable font d1 = d1).
  { intros d1 Hp Hf. unfold checkFullFont. cbv zeta. fold y.
    rewrite Hp. cbn [is_some]. apply is_some_found in Hf. rewrite Hf.
    reflexivity. }
  assert (Hcases : checkFullFont isFontAvailable font d
                   = if is_some (getElementById d (preview_id y)) then
                       downloadFullFont font y
                         (removeElementById d (preview_id y))
                     else if negb (is_some (getElementById d (full_id y)))
                             && negb (isFontAvailable (family font)) then
                       downloadFullFont font y d
                     else d) by reflexivity.
  rewrite Hcases.
  destruct (getElementById d (preview_id y)) as [n|] eqn:Hprev; cbn [is_some].
  - destruct (downloadFullFont_found font y
                (removeElementById d (preview_id y))) as [Hf Hp].
    apply Hstable; [|exact Hf].
    apply getElementById_count. rewrite Hp.
    destruct (removeElementById_counts d (preview_id y)) as [_ Hlt].
    assert (count_id (removeElementById d (preview_id y)) (preview_id y)
            < count_id d (preview_id y))%nat by (apply Hlt; congruence).
    lia.
  - destruct (negb (is_some (getElementById d (full_id y)))
              && negb (isFontAvailable (family font))) eqn:Hcond.
    + destruct (downloadFullFont_found font y d) as [Hf Hp].
      apply Hstable; [|exact Hf].
      apply getElementById_count. rewrite Hp.
      apply getElementById_count. exact Hprev.
    + exact Hcases.
Qed.

Lemma X2_checkFullFont_idempotent_witness :
  (count_id previewedDocument
     (preview_id (checkFullFont_fontId (rt := ascii_runtime) (family openSans)))
   <= 1)%nat
  /\ checkFullFont (rt := ascii_runtime) notAvailable openSans
       (checkFullFont (rt := ascii_runtime) notAvailable openSans
          previewedDocument)
     = checkFullFont (rt := ascii_runtime) notAvailable openSans
         previewedDocument.
Proof.
  split; [vm_compute; lia|].
  apply (X2_checkFullFont_idempotent (rt := ascii_runtime) notAvailable
           openSans previewedDocument).
  vm_compute. lia.
Defined.

(** X3: once [checkFullFont] has found a preview link or an unavailable
    font, a call of [checkPreviewFont] for the same font changes nothing,
    whatever the availability test answers by then. *)
Theorem X3_no_preview_after_full {rt : JSRuntime}
    (isFontAvailable later : jsstring -> bool) (font : Font) (d : Document) :
  getElementById d (preview_id (checkFullFont_fontId (family font))) <> None
  \/ isFontAvailable (family font) = false ->
  checkPreviewFont later font (checkFullFont isFontAvailable font d)
  = checkFullFont isFontAvailable font d.
Proof.
  intros Hneed.
  pose proof (checkFullFont_needed_has_full isFontAvailable font d Hneed)
    as Hfull.
  unfold checkPreviewFont. cbv zeta.
  change (checkPreviewFont_fontId (family font))
    with (checkFullFont_fontId (family font)).
  apply is_some_found in Hfull. rewrite Hfull. reflexivity.
Qed.

Lemma X3_no_preview_after_full_witness :
  notAvailable (family openSans) = false
  /\ checkPreviewFont (rt := ascii_runtime) notAvailable openSans
       (checkFullFont (rt := ascii_runtime) notAvailable openSans emptyDocument)
     = checkFullFont (rt := ascii_runtime) notAvailable openSans emptyDocument.
Proof.
  split; [reflexivity|].
  apply (X3_no_preview_after_full (rt := ascii_runtime) notAvailable
           notAvailable openSans emptyDocument).
  right. reflexivity.
Defined.

Lemma count_zero_has_id (i : jsstring) (n : Node) :
  count_in_node i n = 0%nat -> has_id i n = false.
Proof.
  destruct n as [t a cs]. rewrite count_in_node_eq.
  destruct (has_id i (Element t a cs)); [lia | reflexivity].
Qed.

Lemma count_zero_nothing_below (i : jsstring) (n : Node) :
  count_in_node i n = 0%nat -> remove_below i n = None.
Proof.
  intros H. destruct (remove_below i n) as [n'|] eqn:Hrem; [|reflexivity].
  destruct (removal_shrinks_every_node i n) as [Hsome _].
  destruct (Hsome n' Hrem) as [_ Hlt]. lia.
Qed.

(** In a list without the ID, the element appended last is the one that
    is removed. *)
Lemma remove_appended (i : jsstring) (l : list Node) (n : Node) :
  count_in_forest i l = 0%nat -> has_id i n = true ->
  remove_in_forest i (l ++ [n]) = Some l.
Proof.
  intros Hl Hn. induction l as [|c l IH].
  - cbn [app remove_in_forest]. rewrite Hn. reflexivity.
  - cbn [count_in_forest] in Hl. cbn [app remove_in_forest].
    rewrite (count_zero_has_id i c) by lia.
    rewrite (count_zero_nothing_below i c) by lia.
    rewrite IH by lia. reflexivity.
Qed.

(** X4: for a font that is not in the document yet and not available,
    requesting the preview and then the full font gives the same document
    as requesting the full font at once: the preview link is replaced by
    the full link, at the end of the head. *)
Theorem X4_preview_then_full {rt : JSRuntime}
    (isFontAvailable later : jsstring -> bool) (font : Font) (d : Document) :
  let fontId := checkFullFont_fontId (family font) in
  getElementById d (preview_id fontId) = None ->
  getElementById d (full_id fontId) = None ->
  isFontAvailable (family font) = false ->
  checkFullFont later font (checkPreviewFont isFontAvailable font d)
  = checkFullFont isFontAvailable font d
  /\ head (checkFullFont isFontAvailable font d)
     = head d ++ [link_element (stylesheet_url font) (lit "font-full-" ++ fontId)]
  /\ body (checkFullFont isFontAvailable font d) = body d.
Proof.
  cbv zeta. set (y := checkFullFont_fontId (family font)).
  intros Hprev Hfull Hav.
  assert (Hdirect : checkFullFont isFontAvailable font d
                    = downloadFullFont font y d).
  { unfold checkFullFont. cbv zeta. fold y. rewrite Hprev, Hfull, Hav.
    reflexivity. }
  assert (Hpreview : checkPreviewFont isFontAvailable font d
                     = downloadPreviewFont font y d).
  { unfold checkPreviewFont. cbv zeta.
    change (checkPreviewFont_fontId (family font)) with y.
    rewrite Hfull, Hav. reflexivity. }
  rewrite Hdirect, Hpreview. split; [|split; reflexivity].
  assert (Hfound : getElementById (downloadPreviewFont font y d) (preview_id y)
                   <> None).
  { apply getElementById_found.
    destruct (counts_after_preview y font y d) as [Hp _]. rewrite Hp.
    replace (jsstring_eqb y y) with true
      by (symmetry; apply jsstring_eqb_eq; reflexivity).
    lia. }
  assert (Hremoved : removeElementById (downloadPreviewFont font y d)
                       (preview_id y) = d).
  { unfold removeElementById, downloadPreviewFont, head_appendChild.
    cbv zeta. cbn [head body].
    apply getElementById_count in Hprev. unfold count_id in Hprev.
    rewrite remove_appended.
    - destruct d; reflexivity.
    - lia.
    - unfold has_id, link_element. cbn [node_id attr_id].
      rewrite preview_id_not_empty.
      replace (jsstring_eqb (preview_id y) (preview_id y)) with true
        by (symmetry; apply jsstring_eqb_eq; reflexivity).
      reflexivity. }
  unfold checkFullFont. cbv zeta. fold y.
  apply is_some_found in Hfound. rewrite Hfound, Hremoved. reflexivity.
Qed.

Lemma X4_preview_then_full_witness :
  getElementById emptyDocument
    (preview_id (checkFullFont_fontId (rt := ascii_runtime) (family openSans)))
  = None
  /\ checkFullFont (rt := ascii_runtime) available openSans
       (checkPreviewFont (rt := ascii_runtime) notAvailable openSans
          emptyDocument)
     = checkFullFont (rt := ascii_runtime) notAvailable openSans emptyDocument.
Proof.
  split; [reflexivity|].
  exact (proj1 (X4_preview_then_full (rt := ascii_runtime) notAvailable
                  available openSans emptyDocument eq_refl eq_refl eq_refl)).
Defined.

(** X5: [checkFullFont] adds nothing but one full link: the number of
    elements with the id [font-full-<fontId>] grows by one at most, and
    no other id becomes more frequent; in particular it never adds a
    preview link. *)
Theorem X5_checkFullFont_adds_one_link {rt : JSRuntime}
    (isFontAvailable : jsstring -> bool) (font : Font) (d : Document) :
  let fontId := checkFullFont_fontId (family font) in
  let d' := checkFullFont isFontAvailable font d in
  (count_id d' (full_id fontId) <= count_id d (full_id fontId) + 1)%nat
  /\ (forall j, j <> full_id fontId -> (count_id d' j <= count_id d j)%nat).
Proof.
  cbv zeta. set (y := checkFullFont_fontId (family font)).
  assert (Hadd : forall d1 j,
            count_id (downloadFullFont font y d1) j
            = (count_id d1 j
               + if negb (jsstring_eqb j []) && jsstring_eqb (full_id y) j
                 then 1 else 0)%nat).
  { intros d1 j. unfold downloadFullFont. cbv zeta.
    rewrite count_head_appendChild, count_link. reflexivity. }
  assert (Hother : forall j, j <> full_id y ->
            jsstring_eqb (full_id y) j = false).
  { intros j Hj. apply jsstring_eqb_neq. congruence. }
  unfold checkFullFont. cbv zeta. fold y.
  destruct (is_some (getElementById d (preview_id y))).
  - destruct (removeElementById_counts d (preview_id y)) as [Hle _]. split.
    + rewrite Hadd. specialize (Hle (full_id y)).
      destruct (negb _ && _); lia.
    + intros j Hj. rewrite Hadd, (Hother j Hj), andb_false_r.
      specialize (Hle j). lia.
  - destruct (negb _ && negb _); [|split; [lia | intros; lia]]. split.
    + rewrite Hadd. destruct (negb _ && _); lia.
    + intros j Hj. rewrite Hadd, (Hother j Hj), andb_false_r. lia.
Qed.

(* ===================================================================== *)
(** ** Strings: more about the font id and the preview characters         *)
(* ===================================================================== *)

Lemma replace_keeps_plain (b : bool) (rep s : jsstring) :
  (forall c, In c s -> is_whitespace c = false) ->
  replace_ws_runs_from b rep s = s.
Proof.
  revert b. induction s as [|c s IH]; intros b H; [reflexivity|].
  cbn [replace_ws_runs_from]. rewrite (H c (or_introl eq_refl)).
  f_equal. apply IH. intros x Hx. apply H. right. exact Hx.
Qed.

Lemma replace_hyphen_plain (b : bool) (s : jsstring) (c : code_unit) :
  In c (replace_ws_runs_from b (lit "-") s) -> is_whitespace c = false.
Proof.
  revert b. induction s as [|x s IH]; intros b; [intros []|].
  cbn [replace_ws_runs_from]. destruct (is_whitespace x) eqn:Hx.
  - destruct b; [apply IH|]. rewrite in_app_iff. intros [Hc|Hc]; [|eauto].
    destruct Hc as [<-|[]]. reflexivity.
  - intros [<-|Hc]; [exact Hx | eauto].
Qed.

(** A run of whitespace in front is replaced once, unless the scan is in
    a run already. *)
Lemma replace_leading_run (b : bool) (rep w s : jsstring) :
  w <> [] -> (forall c, In c w -> is_whitespace c = true) ->
  replace_ws_runs_from b rep (w ++ s)
  = (if b then [] else rep) ++ replace_ws_runs_from true rep s.
Proof.
  revert b. induction w as [|x w IH]; intros b Hne Hw; [congruence|].
  cbn [app replace_ws_runs_from]. rewrite (Hw x (or_introl eq_refl)).
  destruct w as [|x' w'].
  - destruct b; reflexivity.
  - rewrite IH; [destruct b; reflexivity | discriminate |].
    intros c Hc. apply Hw. right. exact Hc.
Qed.

Lemma replace_run_makeup (b : bool) (rep before w1 w2 after : jsstring) :
  w1 <> [] -> w2 <> [] ->
  (forall c, In c w1 -> is_whitespace c = true) ->
  (forall c, In c w2 -> is_whitespace c = true) ->
  replace_ws_runs_from b rep (before ++ w2 ++ after)
  = replace_ws_runs_from b rep (before ++ w1 ++ after).
Proof.
  intros H1 H2 Hw1 Hw2. revert b.
  induction before as [|x before IH]; intros b.
  - cbn [app]. rewrite !replace_leading_run by assumption. reflexivity.
  - cbn [app replace_ws_runs_from].
    destruct (is_whitespace x); [destruct b|]; rewrite IH; reflexivity.
Qed.

(** X6: the replacement of whitespace runs by a hyphen, which every font
    id starts from, leaves no whitespace behind, changes nothing when
    applied again, and does not tell apart two names that differ only in
    the make-up of one whitespace run. *)
Theorem X6_font_id_whitespace (fam : jsstring) :
  (forall c, In c (replace_ws_runs (lit "-") fam) -> is_whitespace c = false)
  /\ replace_ws_runs (lit "-") (replace_ws_runs (lit "-") fam)
     = replace_ws_runs (lit "-") fam
  /\ (forall before w1 w2 after,
        fam = before ++ w1 ++ after ->
        w1 <> [] -> w2 <> [] ->
        (forall c, In c w1 -> is_whitespace c = true) ->
        (forall c, In c w2 -> is_whitespace c = true) ->
        replace_ws_runs (lit "-") (before ++ w2 ++ after)
        = replace_ws_runs (lit "-") fam).
Proof.
  split; [|split].
  - intros c. apply replace_hyphen_plain.
  - unfold replace_ws_runs. apply replace_keeps_plain.
    intros c. apply replace_hyphen_plain.
  - intros before w1 w2 after -> H1 H2 Hw1 Hw2. unfold replace_ws_runs.
    apply replace_run_makeup; assumption.
Qed.

Lemma first_occurrences_length (seen s : jsstring) :
  (List.length (first_occurrences seen s) <= List.length s)%nat.
Proof.
  revert seen. induction s as [|c s IH]; intros seen; [reflexivity|].
  cbn [first_occurrences List.length].
  destruct (existsb (N.eqb c) seen); [specialize (IH seen) | specialize (IH (c :: seen))];
    cbn [List.length]; lia.
Qed.

Lemma first_occurrences_fresh (seen s : jsstring) :
  NoDup s -> (forall c, In c s -> ~ In c seen) ->
  first_occurrences seen s = s.
Proof.
  revert seen. induction s as [|c s IH]; intros seen Hnd Hfresh; [reflexivity|].
  cbn [first_occurrences].
  replace (existsb (N.eqb c) seen) with false.
  - f_equal. inversion Hnd as [|? ? Hc Hs]; subst. apply IH; [exact Hs|].
    intros x Hx [<-|Hin]; [contradiction|].
    exact (Hfresh x (or_intror Hx) Hin).
  - symmetry. apply Bool.not_true_iff_false. intros H.
    apply existsb_exists in H. destruct H as [z [Hz Hcz]].
    apply N.eqb_eq in Hcz. subst z.
    exact (Hfresh c (or_introl eq_refl) Hz).
Qed.

(** X8: the characters sent with the preview request are never more
    than the family name has; there are none exactly when the name holds
    nothing but whitespace; and a name without whitespace and without a
    repeated character is sent as it is. *)
Theorem X8_downloadChars_edges (font : Font) :
  (List.length (downloadChars font) <= List.length (family font))%nat
  /\ (downloadChars font = []
      <-> forall c, In c (family font) -> is_whitespace c = true)
  /\ (NoDup (family font) ->
      (forall c, In c (family font) -> is_whitespace c = false) ->
      downloadChars font = family font).
Proof.
  rewrite downloadChars_distinct. unfold distinct_chars. split; [|split].
  - pose proof (first_occurrences_length [] (without_whitespace (family font))).
    pose proof (filter_length_le (fun c => negb (is_whitespace c)) (family font)).
    unfold without_whitespace in *. lia.
  - split.
    + intros Hnil c Hc. destruct (is_whitespace c) eqn:Hws; [reflexivity|].
      assert (Hin : In c (first_occurrences [] (without_whitespace (family font)))).
      { apply first_occurrences_In. split; [|intros []].
        apply without_whitespace_In. split; assumption. }
      rewrite Hnil in Hin. destruct Hin.
    + intros Hall.
      assert (Hnone : without_whitespace (family font) = []).
      { unfold without_whitespace.
        induction (family font) as [|c s IH]; [reflexivity|].
        cbn [filter]. rewrite (Hall c (or_introl eq_refl)). cbn [negb].
        apply IH. intros x Hx. apply Hall. right. exact Hx. }
      rewrite Hnone. reflexivity.
  - intros Hnd Hplain.
    assert (Hsame : without_whitespace (family font) = family font).
    { unfold without_whitespace.
      induction (family font) as [|c s IH]; [reflexivity|].
      cbn [filter]. rewrite (Hplain c (or_introl eq_refl)). cbn [negb].
      f_equal. apply IH.
      - inversion Hnd; assumption.
      - intros x Hx. apply Hplain. right. exact Hx. }
    rewrite Hsame. apply first_occurrences_fresh; [exact Hnd|].
    intros c _ [].
Qed.

(* ===================================================================== *)
(** ** fetchFontList: when the promise is rejected                        *)
(* ===================================================================== *)

(** X9: the promise of [fetchFontList] is rejected in three cases only:
    the request fails, the body does not parse, or the body is [null];
    the first two errors are handed on unchanged, and every other
    response fulfils the promise. *)
Theorem X9_fetchFontList_rejections (net : Network) (apiKey : jsstring) :
  let request :=
    {| req_method := lit "GET"; req_url := font_list_url apiKey |} in
  let outcome := snd (fetchFontList net apiKey) in
  (forall e, net request = Throw e -> outcome = Throw e)
  /\ (forall response e,
        net request = Normal response ->
        response_json response = Throw e -> outcome = Throw e)
  /\ ((exists e, outcome = Throw e)
      <-> (exists e, net request = Throw e)
          \/ (exists response,
                net request = Normal response
                /\ ((exists e, response_json response = Throw e)
                    \/ response_json response = Normal JNull))).
Proof.
  cbv zeta. unfold fetchFontList. cbn [snd]. split; [|split].
  - intros e ->. reflexivity.
  - intros response e -> ->. reflexivity.
  - destruct (net _) as [response|e0].
    + destruct (response_json response) as [json|e1] eqn:Hjson.
      * split.
        -- intros [e He]. right. exists response. split; [reflexivity|].
           right. destruct json; cbn [get_items] in He; try discriminate;
             [exact Hjson|].
           destruct (own_property _ _); discriminate.
        -- intros [[e He]|[r [Hr [[e He]|Hnull]]]]; try discriminate.
           ++ injection Hr as <-. congruence.
           ++ injection Hr as <-. rewrite Hjson in Hnull.
              injection Hnull as ->. exists TypeError. reflexivity.
      * split; [|intros _; exists e1; reflexivity].
        intros _. right. exists response. split; [reflexivity|].
        left. exists e1. exact Hjson.
    + split; [|intros _; exists e0; reflexivity].
      intros _. left. exists e0. reflexivity.
Qed.

(* ===================================================================== *)
(** ** FontPicker.js: the rendered list                                   *)
(* ===================================================================== *)

Section RenderedList.
Context {rt : JSRuntime}.

Hypothesis toLowerCase_no_whitespace :
  forall s, no_ascii_whitespace s -> no_ascii_whitespace (toLowerCase s).

(** One turn of the loop, with a suffix that [classList.add] accepts. *)
Lemma render_entry_result (font : Font) (p : FontPicker) :
  no_ascii_whitespace (pickerSuffix p) ->
  render_entry font p
  = (let active := family (activeFont (fontManager p)) in
     let p1 := if jsstring_eqb (family font) active
               then set_activeFontA
                      (Ref (FontButton (List.length (ul_entries p)))) p
               else p in
     set_ul_entries
       (ul_entries p ++ [entry_for (pickerSuffix p) active font]) p1,
     Normal tt).
Proof.
  intros Hs. unfold render_entry, bind, read, lift, modify, ret.
  cbn [fst snd]. unfold classList_add at 1.
  rewrite (font_class_valid toLowerCase_no_whitespace (family font)
             (pickerSuffix p) Hs).
  cbv zeta. unfold entry_for, font_class.
  destruct (jsstring_eqb (family font) (family (activeFont (fontManager p))));
    reflexivity.
Qed.

(** The whole loop: one entry for each font, in the order of the list,
    after the entries that are there; [activeFontA] ends at the last
    entry of the active family. *)
Lemma render_entries_result (fs : list Font) (p : FontPicker) :
  no_ascii_whitespace (pickerSuffix p) ->
  let active := family (activeFont (fontManager p)) in
  let p' := fst (render_entries fs p) in
  snd (render_entries fs p) = Normal tt
  /\ ul_entries p' = ul_entries p ++ map (entry_for (pickerSuffix p) active) fs
  /\ activeFontA p'
     = match last_active active fs (List.length (ul_entries p)) with
       | Some k => Ref (FontButton k)
       | None => activeFontA p
       end.
Proof.
  cbv zeta. revert p. induction fs as [|font fs IH]; intros p Hs.
  - cbn. rewrite app_nil_r. repeat split.
  - cbn [render_entries]. unfold bind.
    rewrite (render_entry_result font p Hs). cbv zeta.
    set (active := family (activeFont (fontManager p))).
    set (p1 := set_ul_entries _ _).
    assert (Hsuffix : pickerSuffix p1 = pickerSuffix p).
    { unfold p1. destruct (jsstring_eqb (family font) active); reflexivity. }
    assert (Hactive : family (activeFont (fontManager p1)) = active).
    { unfold p1. destruct (jsstring_eqb (family font) active); reflexivity. }
    assert (Hentries : ul_entries p1
                       = ul_entries p ++ [entry_for (pickerSuffix p) active font]).
    { unfold p1. destruct (jsstring_eqb (family font) active); reflexivity. }
    assert (Hs1 : no_ascii_whitespace (pickerSuffix p1)).
    { unfold no_ascii_whitespace. rewrite Hsuffix. exact Hs. }
    destruct (IH p1 Hs1) as [Hok [Hlist Hact]].
    rewrite Hsuffix, Hactive, Hentries in Hlist.
    rewrite Hactive, Hentries in Hact.
    split; [exact Hok|]. split.
    + rewrite Hlist. rewrite <- app_assoc. reflexivity.
    + rewrite Hact. rewrite length_app. cbn [List.length map last_active].
      replace (List.length (ul_entries p) + 1)%nat
        with (S (List.length (ul_entries p))) by lia.
      destruct (last_active active fs (S (List.length (ul_entries p))));
        [reflexivity|].
      unfold p1. destruct (jsstring_eqb (family font) active); reflexivity.
Qed.
End RenderedList.

(* ===================================================================== *)
(** ** FontPicker.js: the selection and the expansion                     *)
(* ===================================================================== *)

Lemma selection_kept_refl (p : FontPicker) : selection_kept p p.
Proof. repeat split. Qed.

Lemma selection_kept_trans (p q r : FontPicker) :
  selection_kept p q -> selection_kept q r -> selection_kept p r.
Proof.
  unfold selection_kept. intros [H1 [H2 H3]] [H4 [H5 H6]].
  repeat split; congruence.
Qed.

Lemma expansion_kept_refl (p : FontPicker) : expansion_kept p p.
Proof. repeat split. Qed.

Lemma expansion_kept_trans (p q r : FontPicker) :
  expansion_kept p q -> expansion_kept q r -> expansion_kept p r.
Proof.
  unfold expansion_kept. intros [H1 [H2 [H3 H4]]] [H5 [H6 [H7 H8]]].
  repeat split; congruence.
Qed.

Lemma toggleExpanded_keeps_selection : keeps selection_kept toggleExpanded.
Proof.
  unfold toggleExpanded.
  apply (keeps_bind _ selection_kept_trans);
    [apply (keeps_read _ selection_kept_refl)|].
  intros e. destruct e;
    repeat (apply (keeps_bind _ selection_kept_trans); [|intros ?]);
    try (apply (keeps_modify selection_kept); intros p; repeat split);
    apply (keeps_on_classList _ selection_kept_refl selection_kept_trans);
    intros e p; repeat split.
Qed.

Lemma closeEventListener_keeps_selection (path : list bool) :
  keeps selection_kept (closeEventListener path).
Proof.
  unfold closeEventListener. apply keeps_if;
    [apply (keeps_ret _ selection_kept_refl)
    | apply toggleExpanded_keeps_selection].
Qed.

Lemma on_entry_classList_keeps_expansion (i : nat)
    (op : list jsstring -> Completion (list jsstring)) :
  keeps expansion_kept (on_entry_classList i op).
Proof.
  intros p. unfold on_entry_classList, bind, read, lift, modify, throw.
  destruct (nth_error (ul_entries p) i) as [e|]; [|apply expansion_kept_refl].
  destruct (op (el_classList e)); repeat split.
Qed.

Lemma activeFontA_classList_keeps_expansion
    (op : list jsstring -> Completion (list jsstring)) :
  keeps expansion_kept (on_activeFontA_classList op).
Proof.
  intros p. unfold on_activeFontA_classList, bind, read, lift, modify, throw.
  destruct (activeFontA p) as [| |[i|i path]];
    try apply expansion_kept_refl.
  - apply on_entry_classList_keeps_expansion.
  - destruct (nth_error (ul_entries p) i) as [e|];
      [|apply expansion_kept_refl].
    destruct (on_descendant_classList op path (el_content e));
      repeat split.
Qed.

Lemma setActiveFont_keeps_expansion {rt : JSRuntime}
    (fm_setActiveFont : jsstring -> FontManager -> Z * FontManager)
    (fontFamily : jsstring) :
  keeps expansion_kept (setActiveFont fm_setActiveFont fontFamily).
Proof.
  pose proof expansion_kept_refl as Hr. pose proof expansion_kept_trans as Ht.
  unfold setActiveFont.
  apply (keeps_bind _ Ht); [apply (keeps_read _ Hr)|]. intros fm.
  apply (keeps_bind _ Ht); [apply keeps_modify; intros p; repeat split|].
  intros _. apply keeps_if; [|apply (keeps_ret _ Hr)].
  apply (keeps_bind _ Ht); [apply keeps_modify; intros p; repeat split|].
  intros _.
  apply (keeps_bind _ Ht); [apply activeFontA_classList_keeps_expansion|].
  intros _. apply (keeps_bind _ Ht); [apply (keeps_read _ Hr)|]. intros entries.
  destruct (nth_error (getElementsByTagName_li entries) _);
    [|apply (keeps_throw _ Hr)].
  apply (keeps_bind _ Ht); [apply keeps_modify; intros p; repeat split|].
  intros _. apply activeFontA_classList_keeps_expansion.
Qed.

Lemma onScroll_keeps_expansion (layout : Layout) (fm : FontManager) :
  keeps expansion_kept (onScroll layout fm).
Proof. intros p. repeat split. Qed.

Lemma throttled_keeps_expansion (decision : Throttle * bool)
    (layout : Layout) (fm : FontManager) (w : Widget) :
  expansion_kept (picker w) (picker (throttled decision layout fm w)).
Proof.
  unfold throttled. cbn [picker]. destruct (snd decision);
    [apply onScroll_keeps_expansion | apply expansion_kept_refl].
Qed.

Lemma render_entries_keeps_expansion {rt : JSRuntime} (fs : list Font) :
  keeps expansion_kept (render_entries fs).
Proof.
  pose proof expansion_kept_refl as Hr. pose proof expansion_kept_trans as Ht.
  induction fs as [|font fs IH]; [apply (keeps_ret _ Hr)|].
  cbn [render_entries]. apply (keeps_bind _ Ht); [|intros _; exact IH].
  unfold render_entry.
  apply (keeps_bind _ Ht); [apply (keeps_read _ Hr)|]. intros suffix.
  apply (keeps_bind _ Ht); [apply (keeps_lift _ Hr)|]. intros cl.
  apply (keeps_bind _ Ht); [apply (keeps_read _ Hr)|]. intros active.
  apply (keeps_bind _ Ht).
  - apply keeps_if; [|apply (keeps_ret _ Hr)].
    apply (keeps_bind _ Ht); [apply (keeps_lift _ Hr)|]. intros cl'.
    apply (keeps_bind _ Ht); [apply (keeps_read _ Hr)|]. intros position.
    apply (keeps_bind _ Ht); [apply keeps_modify; intros p; repeat split|].
    intros _. apply (keeps_ret _ Hr).
  - intros fontButton. apply keeps_modify. intros p. repeat split.
Qed.

Lemma init_rejected_keeps_expansion {rt : JSRuntime} (err : JSError) :
  keeps expansion_kept (init_rejected err).
Proof.
  intros p. rewrite init_rejected_unfold. repeat split.
Qed.

Lemma init_settled_keeps_expansion {rt : JSRuntime} (o : InitOutcome) :
  keeps expansion_kept (init_settled o).
Proof.
  pose proof expansion_kept_refl as Hr. pose proof expansion_kept_trans as Ht.
  destruct o as [fm|fm err]; cbn [init_settled];
    (apply (keeps_bind _ Ht); [apply keeps_modify; intros p; repeat split|]);
    intros _; [|apply init_rejected_keeps_expansion].
  apply (keeps_try_catch _ Ht); [|apply init_rejected_keeps_expansion].
  unfold init_fulfilled.
  apply (keeps_bind _ Ht);
    [apply (keeps_on_classList _ Hr Ht); intros e p; repeat split|]. intros _.
  apply (keeps_bind _ Ht);
    [apply (keeps_on_classList _ Hr Ht); intros e p; repeat split|]. intros _.
  apply (keeps_bind _ Ht); [apply keeps_modify; intros p; repeat split|].
  intros _. apply (keeps_bind _ Ht); [apply (keeps_read _ Hr)|]. intros fs.
  apply (keeps_bind _ Ht); [apply render_entries_keeps_expansion|].
  intros _. apply keeps_modify. intros p. repeat split.
Qed.

(* ===================================================================== *)
(** ** FontPicker.js: expanding and collapsing                            *)
(* ===================================================================== *)

Lemma generateUI_found_shell {rt : JSRuntime} (d : Document) (p : FontPicker)
    (n : Node) :
  getElementById d (pickerId p) = Some n ->
  let p' := fst (generateUI d p) in
  expanded p' = false
  /\ click_listener p' = click_listener p
  /\ el_classList (dropdownButton p') = [lit "dropdown-button"]
  /\ el_classList (ul p') = []
  /\ button_children p' = button_children p ++ [DropdownFont; DropdownIcon].
Proof.
  intros H. cbv zeta. unfold generateUI, bind, modify, read, throw.
  cbn [pickerId set_expanded]. rewrite H. cbn. rewrite <- app_assoc.
  repeat split.
Qed.

Lemma new_FontPicker_consistent {rt : JSRuntime} (d : Document)
    (options : OptionsArg) (fm : Completion FontManager) (p : FontPicker) :
  new_FontPicker d options fm = Normal p ->
  expansion_consistent p /\ expanded p = false /\ activeFontA p = Undefined
  /\ button_children p = [DropdownFont; DropdownIcon].
Proof.
  intros H.
  destruct (new_FontPicker_Normal d options fm p H) as [o [fm0 [-> ->]]].
  rewrite new_FontPicker_object in H. set (b := blank_picker _ _ fm0) in H.
  destruct (getElementById d (pickerId b)) as [n|] eqn:Hn.
  - pose proof (generateUI_found_shell d b n Hn) as Hshell.
    destruct (generateUI_found d b n Hn)
      as [p' [Hrun [_ [_ [_ [_ [_ [_ [_ [_ [_ [Hact _]]]]]]]]]]]].
    cbv zeta in Hshell. rewrite Hrun in H, Hshell. injection H as <-.
    cbn [fst] in Hshell.
    destruct Hshell as [Hexp [Hlis [Hbtn [Hul Hch]]]].
    unfold expansion_consistent. rewrite Hexp, Hlis, Hbtn, Hul, Hact, Hch.
    repeat split.
  - rewrite (generateUI_missing d b Hn) in H. discriminate.
Qed.

Lemma consistent_kept (p p' : FontPicker) :
  expansion_consistent p -> expansion_kept p p' -> expansion_consistent p'.
Proof.
  unfold expansion_consistent, expansion_kept.
  intros [H1 [H2 H3]] [H4 [H5 [H6 H7]]]. rewrite H4, H5, H6, H7.
  repeat split; assumption.
Qed.

(** [toggleExpanded] on a consistent picker: it completes, flips the
    flag and stays consistent, and leaves the selection alone. *)
Lemma toggleExpanded_result (p : FontPicker) :
  expansion_consistent p ->
  snd (toggleExpanded p) = Normal tt
  /\ expanded (fst (toggleExpanded p)) = negb (expanded p)
  /\ expansion_consistent (fst (toggleExpanded p)).
Proof.
  unfold expansion_consistent. intros [H1 [H2 H3]].
  unfold toggleExpanded, bind, read, modify, on_classList, lift.
  destruct (expanded p) eqn:He; cbn; rewrite H2; cbn; rewrite H3; cbn;
    repeat split.
Qed.

Section Expansion.
Context {rt : JSRuntime}.
Variable fm_setActiveFont : jsstring -> FontManager -> Z * FontManager.

Lemma font_button_tail_keeps_expansion (i : nat) :
  keeps expansion_kept
    (fs <- read (fun p => fonts (fontManager p)) ;;
     match nth_error fs i with
     | None => throw TypeError
     | Some font => setActiveFont fm_setActiveFont (family font)
     end).
Proof.
  apply (keeps_bind _ expansion_kept_trans);
    [apply (keeps_read _ expansion_kept_refl)|].
  intros fs. destruct (nth_error fs i);
    [apply setActiveFont_keeps_expansion
    | apply (keeps_throw _ expansion_kept_refl)].
Qed.

Lemma handle_consistent (w : Widget) (e : Event) :
  expansion_consistent (picker w) ->
  expansion_consistent (picker (handle fm_setActiveFont w e)).
Proof.
  intros Hc. destruct e as [o| |i|path|now layout fm|now layout fm|fam]; cbn [handle].
  - destruct (init_pending w); [|exact Hc]. cbn [picker].
    exact (consistent_kept _ _ Hc (init_settled_keeps_expansion o (picker w))).
  - cbn [after picker]. apply toggleExpanded_result. exact Hc.
  - destruct (i <? _)%nat; [|exact Hc]. cbn [after picker]. unfold bind at 1.
    destruct (toggleExpanded_result (picker w) Hc) as [Hok [_ Hc']].
    destruct (toggleExpanded (picker w)) as [q [[]|err]]; cbn [fst snd] in *;
      [|exact Hc'].
    exact (consistent_kept _ _ Hc' (font_button_tail_keeps_expansion i q)).
  - destruct (click_listener (picker w)); [|exact Hc]. cbn [after picker].
    unfold closeEventListener. destruct (existsb _ path); [exact Hc|].
    apply toggleExpanded_result. exact Hc.
  - destruct (ul_onscroll (picker w)); [|exact Hc].
    exact (consistent_kept _ _ Hc (throttled_keeps_expansion _ layout fm w)).
  - destruct (timeouts (scroll_throttle w)); [exact Hc|].
    exact (consistent_kept _ _ Hc (throttled_keeps_expansion _ layout fm w)).
  - cbn [after picker].
    exact (consistent_kept _ _ Hc
             (setActiveFont_keeps_expansion fm_setActiveFont fam (picker w))).
Qed.

Lemma run_events_consistent (es : list Event) (w : Widget) :
  expansion_consistent (picker w) ->
  expansion_consistent (picker (run_events fm_setActiveFont w es)).
Proof.
  revert w. induction es as [|e es IH]; intros w Hc; [exact Hc|].
  cbn [run_events fold_left]. apply IH. apply handle_consistent. exact Hc.
Qed.
End Expansion.

(** X15: whatever happens to a picker after its construction, the list
    is expanded exactly while the button and the list element carry the
    class [expanded], and exactly then [closeEventListener] is registered
    on the document. *)
Theorem X15_expansion_consistent {rt : JSRuntime}
    (fm_setActiveFont : jsstring -> FontManager -> Z * FontManager)
    (d : Document) (options : OptionsArg) (fm : Completion FontManager)
    (p0 : FontPicker)
    (es : list Event) :
  new_FontPicker d options fm = Normal p0 ->
  let p := picker (run_events fm_setActiveFont (start p0) es) in
  click_listener p = expanded p
  /\ contains (lit "expanded") (el_classList (dropdownButton p)) = expanded p
  /\ contains (lit "expanded") (el_classList (ul p)) = expanded p
  /\ contains (lit "dropdown-button") (el_classList (dropdownButton p)) = true.
Proof.
  intros Hnew. cbv zeta.
  destruct (new_FontPicker_consistent d options fm p0 Hnew) as [Hc _].
  destruct (run_events_consistent fm_setActiveFont es (start p0) Hc)
    as [H1 [H2 H3]].
  rewrite H2, H3. split; [exact H1|].
  destruct (expanded _); repeat split.
Qed.

Lemma X15_expansion_consistent_witness :
  new_FontPicker (rt := ascii_runtime) (page_with_div (lit "font-picker"))
    (OptionsObject {| name := None |}) (Normal managerBefore)
  = Normal samplePicker
  /\ click_listener
       (picker
          (run_events (rt := ascii_runtime) sample_setActiveFont
             (start samplePicker)
             [EvToggleExpanded; EvInitSettled (InitFulfilled managerAfter);
              EvFontButton 1]))
     = expanded
         (picker
            (run_events (rt := ascii_runtime) sample_setActiveFont
               (start samplePicker)
               [EvToggleExpanded; EvInitSettled (InitFulfilled managerAfter);
                EvFontButton 1])).
Proof.
  split; [reflexivity|].
  exact (proj1 (X15_expansion_consistent (rt := ascii_runtime)
                  sample_setActiveFont (page_with_div (lit "font-picker"))
                  (OptionsObject {| name := None |}) (Normal managerBefore) samplePicker
                  [EvToggleExpanded; EvInitSettled (InitFulfilled managerAfter);
                   EvFontButton 1] eq_refl)).
Defined.

(** X16: a click on the document is ignored while the list is collapsed;
    a click inside the picker leaves the widget as it is; a click outside
    the picker collapses an expanded list and takes the listener off the
    document, without touching the selection. *)
Theorem X16_click_outside_collapses {rt : JSRuntime}
    (fm_setActiveFont : jsstring -> FontManager -> Z * FontManager)
    (d : Document) (options : OptionsArg) (fm : Completion FontManager)
    (p0 : FontPicker)
    (es : list Event) (path : list bool) :
  new_FontPicker d options fm = Normal p0 ->
  let w := run_events fm_setActiveFont (start p0) es in
  let w' := handle fm_setActiveFont w (EvDocumentClick path) in
  (expanded (picker w) = false -> w' = w)
  /\ (existsb (fun is_picker => is_picker) path = true -> w' = w)
  /\ (expanded (picker w) = true ->
      existsb (fun is_picker => is_picker) path = false ->
      expanded (picker w') = false
      /\ click_listener (picker w') = false
      /\ selection_kept (picker w) (picker w')).
Proof.
  intros Hnew. cbv zeta.
  destruct (new_FontPicker_consistent d options fm p0 Hnew) as [Hc0 _].
  pose proof (run_events_consistent fm_setActiveFont es (start p0) Hc0) as Hc.
  set (w := run_events fm_setActiveFont (start p0) es) in *.
  split; [|split].
  - intros Hexp. cbn [handle]. destruct Hc as [Hl _]. rewrite Hl, Hexp.
    reflexivity.
  - intros Hin. cbn [handle]. destruct (click_listener (picker w));
      [|reflexivity].
    unfold after, closeEventListener. rewrite Hin. cbn [fst ret].
    destruct w; reflexivity.
  - intros Hexp Hout. cbn [handle]. pose proof Hc as [Hl _].
    rewrite Hl, Hexp. cbn [after picker]. unfold closeEventListener.
    rewrite Hout.
    destruct (toggleExpanded_result (picker w) Hc) as [_ [Hflip [Hl' _]]].
    rewrite Hexp in Hflip. cbn [negb] in Hflip.
    split; [exact Hflip|]. split; [rewrite Hl'; exact Hflip|].
    apply toggleExpanded_keeps_selection.
Qed.

Lemma X16_click_outside_witness :
  new_FontPicker (rt := ascii_runtime) (page_with_div (lit "font-picker"))
    (OptionsObject {| name := None |}) (Normal managerBefore)
  = Normal samplePicker
  /\ expanded
       (picker
          (handle (rt := ascii_runtime) sample_setActiveFont
             (run_events (rt := ascii_runtime) sample_setActiveFont
                (start samplePicker) [EvToggleExpanded])
             (EvDocumentClick [false; false])))
     = false.
Proof.
  split; [reflexivity|].
  exact (proj1 (proj2 (proj2
           (X16_click_outside_collapses (rt := ascii_runtime)
              sample_setActiveFont (page_with_div (lit "font-picker"))
              (OptionsObject {| name := None |}) (Normal managerBefore) samplePicker
              [EvToggleExpanded] [false; false] eq_refl))
           eq_refl eq_refl)).
Defined.

Lemma toggleExpanded_twice (p : FontPicker) :
  expansion_consistent p ->
  fst (toggleExpanded (fst (toggleExpanded p))) = p.
Proof.
  unfold expansion_consistent. intros [H1 [H2 H3]].
  destruct p as [suffix id fm exp button bch font icon list scroll entries
                 active dch title calls listener log requests].
  destruct button as [btag btype bhtml bclasses].
  destruct list as [ltag ltype lhtml lclasses].
  cbn in H1, H2, H3. subst listener bclasses lclasses.
  destruct exp; reflexivity.
Qed.

(** X17: expanding and collapsing undo each other: after two calls of
    [toggleExpanded] the widget is exactly as it was, in any state a
    picker can reach. *)
Theorem X17_toggle_twice {rt : JSRuntime}
    (fm_setActiveFont : jsstring -> FontManager -> Z * FontManager)
    (d : Document) (options : OptionsArg) (fm : Completion FontManager)
    (p0 : FontPicker)
    (es : list Event) :
  new_FontPicker d options fm = Normal p0 ->
  let w := run_events fm_setActiveFont (start p0) es in
  handle fm_setActiveFont (handle fm_setActiveFont w EvToggleExpanded)
    EvToggleExpanded = w.
Proof.
  intros Hnew. cbv zeta.
  destruct (new_FontPicker_consistent d options fm p0 Hnew) as [Hc0 _].
  pose proof (run_events_consistent fm_setActiveFont es (start p0) Hc0) as Hc.
  set (w := run_events fm_setActiveFont (start p0) es) in *.
  cbn [handle]. unfold after. cbn [picker init_pending].
  rewrite (toggleExpanded_twice (picker w) Hc). destruct w; reflexivity.
Qed.

Lemma X17_toggle_twice_witness :
  new_FontPicker (rt := ascii_runtime) (page_with_div (lit "font-picker"))
    (OptionsObject {| name := None |}) (Normal managerBefore)
  = Normal samplePicker
  /\ handle (rt := ascii_runtime) sample_setActiveFont
       (handle (rt := ascii_runtime) sample_setActiveFont
          (run_events (rt := ascii_runtime) sample_setActiveFont
             (start samplePicker)
             [EvInitSettled (InitFulfilled managerAfter); EvToggleExpanded])
          EvToggleExpanded)
       EvToggleExpanded
     = run_events (rt := ascii_runtime) sample_setActiveFont
         (start samplePicker)
         [EvInitSettled (InitFulfilled managerAfter); EvToggleExpanded].
Proof.
  split; [reflexivity|].
  exact (X17_toggle_twice (rt := ascii_runtime) sample_setActiveFont
           (page_with_div (lit "font-picker")) (OptionsObject {| name := None |})
           (Normal managerBefore) samplePicker
           [EvInitSettled (InitFulfilled managerAfter); EvToggleExpanded]
           eq_refl).
Defined.

(* ===================================================================== *)
(** ** FontPicker.js: when the font list arrives                          *)
(* ===================================================================== *)

Lemma stays_unselected_refl (p : FontPicker) : stays_unselected p p.
Proof. intros H. exact H. Qed.

Lemma stays_unselected_trans (p q r : FontPicker) :
  stays_unselected p q -> stays_unselected q r -> stays_unselected p r.
Proof. unfold stays_unselected. auto. Qed.

Lemma setActiveFont_stays_unselected {rt : JSRuntime}
    (fm_setActiveFont : jsstring -> FontManager -> Z * FontManager)
    (fontFamily : jsstring) :
  keeps stays_unselected (setActiveFont fm_setActiveFont fontFamily).
Proof.
  intros p Hnone.
  unfold setActiveFont, on_activeFontA_classList, bind, read, modify, throw, ret.
  cbn [fst snd fontManager set_fontManager].
  destruct (0 <=? fst (fm_setActiveFont fontFamily (fontManager p)))%Z;
    cbn; [rewrite Hnone; cbn; exact Hnone | exact Hnone].
Qed.

Section Arrival.
Context {rt : JSRuntime}.
Variable fm_setActiveFont : jsstring -> FontManager -> Z * FontManager.

Lemma handle_stays_unselected (w : Widget) (e : Event) :
  init_pending (handle fm_setActiveFont w e) = true ->
  stays_unselected (picker w) (picker (handle fm_setActiveFont w e)).
Proof.
  intros Hp. rewrite handle_pending_flag in Hp.
  destruct e as [o| |i|path|now layout fm|now layout fm|fam]; [discriminate|..]; cbn [handle].
  - intros H. cbn [after picker].
    destruct (toggleExpanded_keeps_selection (picker w)) as [_ [_ Ha]].
    congruence.
  - destruct (i <? _)%nat; [|apply stays_unselected_refl].
    cbn [after picker].
    apply (keeps_bind _ stays_unselected_trans).
    + intros p H. destruct (toggleExpanded_keeps_selection p) as [_ [_ Ha]].
      congruence.
    + intros _. apply (keeps_bind _ stays_unselected_trans);
        [apply (keeps_read _ stays_unselected_refl)|].
      intros fs. destruct (nth_error fs i);
        [apply setActiveFont_stays_unselected
        | apply (keeps_throw _ stays_unselected_refl)].
  - destruct (click_listener _); [|apply stays_unselected_refl].
    cbn [after picker]. intros H.
    destruct (closeEventListener_keeps_selection path (picker w))
      as [_ [_ Ha]].
    congruence.
  - destruct (ul_onscroll _); [|apply stays_unselected_refl].
    unfold throttled. cbn [picker]. destruct (snd _); intros H; exact H.
  - destruct (timeouts _); [apply stays_unselected_refl|].
    unfold throttled. cbn [picker]. destruct (snd _); intros H; exact H.
  - cbn [after picker]. apply setActiveFont_stays_unselected.
Qed.

(** While the promise is pending, no entry is marked as active. *)
Lemma pending_unselected (es : list Event) (p0 : FontPicker) :
  activeFontA p0 = Undefined ->
  init_pending (run_events fm_setActiveFont (start p0) es) = true ->
  activeFontA (picker (run_events fm_setActiveFont (start p0) es)) = Undefined.
Proof.
  intros H0. induction es as [|e es IH] using rev_ind; [intros _; exact H0|].
  unfold run_events in *. rewrite fold_left_app. cbn [fold_left].
  intros Hp. pose proof (handle_stays_unselected _ e Hp) as Hstep.
  apply handle_pending in Hp. destruct Hp as [Hp _].
  exact (Hstep (IH Hp)).
Qed.

Hypothesis toLowerCase_no_whitespace :
  forall s, no_ascii_whitespace s -> no_ascii_whitespace (toLowerCase s).

(** The widget right after the promise was fulfilled, for a picker with
    an accepted name. *)
Lemma list_arrives (d : Document) (options : OptionsArg)
    (fm : Completion FontManager) (p0 : FontPicker) (es : list Event)
    (fm' : FontManager) :
  name_accepted options ->
  new_FontPicker d options fm = Normal p0 ->
  let w := run_events fm_setActiveFont (start p0) es in
  init_pending w = true ->
  let p' := picker (handle fm_setActiveFont w (EvInitSettled (InitFulfilled fm'))) in
  ul_entries p'
  = map (entry_for (pickerSuffix p0) (family (activeFont fm'))) (fonts fm')
  /\ activeFontA p'
     = button_at (last_active (family (activeFont fm')) (fonts fm') 0)
  /\ div_children p' = [DropdownButton; FontList]
  /\ ul_onscroll p' = true
  /\ fontManager p' = fm'.
Proof.
  intros Hname Hnew w Hpending. cbv zeta.
  pose proof (new_FontPicker_loading d options fm p0 Hnew) as Hload0.
  pose proof (new_FontPicker_suffix d options fm p0 Hnew Hname) as Hsuffix0.
  destruct (new_FontPicker_consistent d options fm p0 Hnew)
    as [_ [_ [Hnone0 _]]].
  destruct (run_events_pending fm_setActiveFont es (start p0) Hpending)
    as [_ Hu].
  pose proof (loading_untouched _ _ Hload0 Hu)
    as [_ [Hdiv [_ [_ [_ [_ Hentries]]]]]].
  pose proof (pending_unselected es p0 Hnone0 Hpending) as Hnone.
  destruct Hu as [_ [_ [_ [_ [_ [_ [Hsuffix _]]]]]]].
  fold w in Hdiv, Hentries, Hnone, Hsuffix. cbn [picker start] in Hsuffix.
  set (p1 := set_ul_onscroll true
               (icon_marked (lit "finished") (set_fontManager fm' (picker w)))).
  assert (Hstep : picker (handle fm_setActiveFont w
                            (EvInitSettled (InitFulfilled fm')))
                  = fst (match render_entries (fonts fm') p1 with
                         | (q, Normal _) =>
                             (set_div_children (div_children q ++ [FontList]) q,
                              Normal tt)
                         | (q, Throw e) => init_rejected e q
                         end)).
  { cbn [handle]. rewrite Hpending. cbn [picker init_settled].
    unfold bind, modify, try_catch. cbn [fst snd].
    rewrite init_fulfilled_unfold. fold p1.
    change (fonts (fontManager (set_fontManager fm' (picker w))))
      with (fonts fm').
    destruct (render_entries (fonts fm') p1) as [q [[]|err]]; reflexivity. }
  rewrite Hstep. clear Hstep.
  assert (Hs1 : no_ascii_whitespace (pickerSuffix p1)).
  { unfold no_ascii_whitespace. cbn. rewrite Hsuffix. exact Hsuffix0. }
  pose proof (render_entries_result toLowerCase_no_whitespace (fonts fm') p1 Hs1)
    as Hres.
  pose proof (render_entries_outside_list (fonts fm') p1) as Hout.
  cbv zeta in Hres.
  change (fontManager p1) with fm' in Hres.
  change (ul_entries p1) with (ul_entries (picker w)) in Hres.
  change (activeFontA p1) with (activeFontA (picker w)) in Hres.
  change (pickerSuffix p1) with (pickerSuffix (picker w)) in Hres.
  rewrite Hentries, Hnone, Hsuffix in Hres. cbn [app List.length] in Hres.
  destruct (render_entries (fonts fm') p1) as [q [[]|err]];
    cbn [fst snd] in *; destruct Hres as [Hok [Hlist Hact]]; [|discriminate].
  destruct Hout as [_ [Hqdiv [_ [Hqscroll [_ [_ [_ Hqfm]]]]]]].
  cbn [ul_entries activeFontA div_children ul_onscroll fontManager
       set_div_children].
  split; [exact Hlist|]. split.
  - rewrite Hact. destruct (last_active _ _ 0); reflexivity.
  - split; [rewrite Hqdiv; cbn; rewrite Hdiv; reflexivity|].
    split; [rewrite Hqscroll; reflexivity | rewrite Hqfm; reflexivity].
Qed.
End Arrival.

Lemma last_active_none (a : jsstring) (fs : list Font) (i : nat) :
  last_active a fs i = None <-> forall f, In f fs -> family f <> a.
Proof.
  revert i. induction fs as [|f fs IH]; intros i.
  - cbn. split; [intros _ f [] | reflexivity].
  - cbn [last_active]. specialize (IH (S i)).
    destruct (last_active a fs (S i)) as [k|].
    + split; [discriminate|]. intros H. exfalso.
      assert (Hnone : Some k = None); [|discriminate].
      apply (proj2 IH). intros g Hg. apply H. right. exact Hg.
    + destruct (jsstring_eqb (family f) a) eqn:Hfa.
      * split; [discriminate|]. intros H. exfalso.
        apply (H f (or_introl eq_refl)). apply jsstring_eqb_eq. exact Hfa.
      * split; [|reflexivity]. intros _ g [<-|Hg].
        -- apply jsstring_eqb_neq. exact Hfa.
        -- apply (proj1 IH eq_refl). exact Hg.
Qed.

Lemma last_active_some (a : jsstring) (fs : list Font) (i k : nat) :
  last_active a fs i = Some k ->
  (i <= k)%nat
  /\ (exists f, nth_error fs (k - i) = Some f /\ family f = a)
  /\ (forall j f, (k - i < j)%nat -> nth_error fs j = Some f -> family f <> a).
Proof.
  revert i. induction fs as [|f fs IH]; intros i; [discriminate|].
  cbn [last_active]. destruct (last_active a fs (S i)) as [k'|] eqn:Hrest.
  - intros H. injection H as ->.
    destruct (IH (S i) Hrest) as [Hle [[g [Hg Hga]] Hlast]].
    split; [lia|]. split.
    + exists g. split; [|exact Hga].
      replace (k - i)%nat with (S (k - S i)) by lia. exact Hg.
    + intros j g' Hj Hnth. destruct j as [|j]; [lia|].
      cbn [nth_error] in Hnth. apply (Hlast j g'); [lia | exact Hnth].
  - destruct (jsstring_eqb (family f) a) eqn:Hfa; [|discriminate].
    intros H. injection H as <-. split; [lia|]. split.
    + exists f. rewrite Nat.sub_diag. split; [reflexivity|].
      apply jsstring_eqb_eq. exact Hfa.
    + intros j g Hj Hnth. destruct j as [|j]; [lia|].
      cbn [nth_error] in Hnth.
      apply (proj1 (last_active_none a fs (S i)) Hrest).
      exact (nth_error_In _ _ Hnth).
Qed.

Lemma highlighted_entry_for {rt : JSRuntime} (suffix active : jsstring)
    (f : Font) :
  highlighted (entry_for suffix active f) = jsstring_eqb (family f) active.
Proof.
  unfold highlighted, entry_for, font_class. cbn [el_classList].
  assert (Hne : jsstring_eqb (lit "active-font")
                  (lit "font-" ++ generateUI_fontId (family f) ++ suffix)
                = false).
  { apply jsstring_eqb_neq. intros H.
    cbv [lit list_ascii_of_string map N_of_ascii N_of_digits app] in H.
    discriminate H. }
  destruct (jsstring_eqb (family f) active); cbn [contains existsb];
    rewrite Hne; reflexivity.
Qed.

(** A text without markup puts no [<li>] below an element. *)
Lemma text_nodes_no_li (s : jsstring) : li_paths_from (text_nodes s) 0 = [].
Proof. destruct s; reflexivity. Qed.

(** X11: when the font list arrives at a picker with an accepted name,
    the list gets one button for each font, in the order of the catalog:
    of type [button], with the class [font-<fontId><suffix>] first, and
    with the content that the HTML parser makes of the family name, which
    is the name as one text when the name holds no markup; with such
    names no entry holds a [<li>] of its own.  The list is appended to
    the container behind the dropdown button, and the scroll handler is
    installed. *)
Theorem X11_list_rendered {rt : JSRuntime}
    (fm_setActiveFont : jsstring -> FontManager -> Z * FontManager)
    (d : Document) (options : OptionsArg) (fm : Completion FontManager)
    (p0 : FontPicker) (es : list Event) (fm' : FontManager) :
  (forall s, no_ascii_whitespace s -> no_ascii_whitespace (toLowerCase s)) ->
  name_accepted options ->
  new_FontPicker d options fm = Normal p0 ->
  let w := run_events fm_setActiveFont (start p0) es in
  init_pending w = true ->
  let p' := picker (handle fm_setActiveFont w (EvInitSettled (InitFulfilled fm'))) in
  List.length (ul_entries p') = List.length (fonts fm')
  /\ (forall k f,
        nth_error (fonts fm') k = Some f ->
        exists e,
          nth_error (ul_entries p') k = Some e
          /\ el_tag e = lit "button" /\ el_type e = lit "button"
          /\ el_content e = parseFragment (lit "button") (family f)
          /\ (reads_plain_text rt -> plain_text (family f) = true ->
              el_content e = text_nodes (family f))
          /\ hd_error (el_classList e)
             = Some (lit "font-" ++ toLowerCase (hyphenate (family f))
                     ++ pickerSuffix p0))
  /\ (reads_plain_text rt ->
      forallb (fun f => plain_text (family f)) (fonts fm') = true ->
      Forall no_parsed_li (ul_entries p'))
  /\ div_children p' = [DropdownButton; FontList]
  /\ ul_onscroll p' = true.
Proof.
  intros Hlower Hname Hnew w Hpending p'.
  destruct (list_arrives fm_setActiveFont Hlower d options fm p0 es fm'
              Hname Hnew Hpending) as [Hlist [_ [Hdiv [Hscroll _]]]].
  fold w in Hlist, Hdiv, Hscroll. fold p' in Hlist, Hdiv, Hscroll.
  split; [|split; [|split; [|split; assumption]]].
  - rewrite Hlist, length_map. reflexivity.
  - intros k f Hk. rewrite Hlist.
    exists (entry_for (pickerSuffix p0) (family (activeFont fm')) f).
    split; [apply map_nth_error; exact Hk|].
    split; [reflexivity|]. split; [reflexivity|]. split; [reflexivity|].
    split; [intros Hparser Hplain; apply Hparser; exact Hplain|].
    unfold entry_for, font_class, generateUI_fontId. cbn [el_classList].
    rewrite replace_ws_runs_hyphenate.
    destruct (jsstring_eqb (family f) (family (activeFont fm'))); reflexivity.
  - intros Hparser Hplain. rewrite Hlist. apply Forall_map.
    rewrite forallb_forall in Hplain. apply Forall_forall. intros f Hf.
    unfold no_parsed_li, entry_for. cbn [el_content].
    rewrite (Hparser _ _ (Hplain f Hf)). apply text_nodes_no_li.
Qed.

Lemma X11_list_rendered_witness :
  name_accepted (OptionsObject {| name := None |})
  /\ map el_content
       (ul_entries
          (picker
             (handle (rt := ascii_runtime) sample_setActiveFont
                (run_events (rt := ascii_runtime) sample_setActiveFont
                   (start samplePicker) [EvToggleExpanded])
                (EvInitSettled (InitFulfilled managerAfter)))))
     = [[TextNode (lit "Open Sans")]; [TextNode (lit "Lobster")]]
  /\ List.length
       (ul_entries
          (picker
             (handle (rt := ascii_runtime) sample_setActiveFont
                (run_events (rt := ascii_runtime) sample_setActiveFont
                   (start samplePicker) [EvToggleExpanded])
                (EvInitSettled (InitFulfilled managerAfter)))))
     = 2%nat.
Proof.
  split; [exact I|]. split; [reflexivity|].
  exact (proj1 (X11_list_rendered (rt := ascii_runtime) sample_setActiveFont
                  (page_with_div (lit "font-picker"))
                  (OptionsObject {| name := None |})
                  (Normal managerBefore) samplePicker [EvToggleExpanded]
                  managerAfter
                  ascii_toLowerCase_no_whitespace I eq_refl eq_refl)).
Defined.

(** X12: when the font list arrives, exactly the entries of the active
    family are marked [active-font]; [activeFontA] refers to the last of
    them, and stays undefined when no font of the list has the active
    family. *)
Theorem X12_active_entry_after_rendering {rt : JSRuntime}
    (fm_setActiveFont : jsstring -> FontManager -> Z * FontManager)
    (d : Document) (options : OptionsArg) (fm : Completion FontManager)
    (p0 : FontPicker)
    (es : list Event) (fm' : FontManager) :
  (forall s, no_ascii_whitespace s -> no_ascii_whitespace (toLowerCase s)) ->
  name_accepted options ->
  new_FontPicker d options fm = Normal p0 ->
  let w := run_events fm_setActiveFont (start p0) es in
  init_pending w = true ->
  let p' := picker (handle fm_setActiveFont w (EvInitSettled (InitFulfilled fm'))) in
  let active := family (activeFont fm') in
  (forall k e,
     nth_error (ul_entries p') k = Some e ->
     (highlighted e = true
      <-> exists f, nth_error (fonts fm') k = Some f /\ family f = active))
  /\ (activeFontA p' = Undefined
      <-> forall f, In f (fonts fm') -> family f <> active)
  /\ (forall r,
        activeFontA p' = Ref r ->
        exists k,
          r = FontButton k
          /\ (exists f e,
                nth_error (fonts fm') k = Some f /\ family f = active
                /\ nth_error (ul_entries p') k = Some e
                /\ highlighted e = true)
          /\ (forall j f,
                (k < j)%nat -> nth_error (fonts fm') j = Some f ->
                family f <> active))
  /\ activeFontA p' <> Null.
Proof.
  intros Hlower Hname Hnew w Hpending p' active.
  destruct (list_arrives fm_setActiveFont Hlower d options fm p0 es fm'
              Hname Hnew Hpending) as [Hlist [Hact _]].
  fold w in Hlist, Hact. fold p' in Hlist, Hact. fold active in Hlist, Hact.
  split; [|split; [|split]].
  - intros k e Hk. rewrite Hlist in Hk.
    rewrite nth_error_map in Hk.
    destruct (nth_error (fonts fm') k) as [f|] eqn:Hf;
      cbn [option_map] in Hk; [|discriminate].
    injection Hk as <-. rewrite highlighted_entry_for, jsstring_eqb_eq.
    split.
    + intros H. exists f. split; [reflexivity | exact H].
    + intros [g [Hg Hga]]. injection Hg as ->. exact Hga.
  - rewrite Hact.
    pose proof (last_active_none active (fonts fm') 0) as Hnone.
    destruct (last_active active (fonts fm') 0) as [k|]; cbn [button_at].
    + split; [discriminate|]. intros H. apply Hnone in H. discriminate H.
    + split; [intros _; apply Hnone; reflexivity | reflexivity].
  - intros r Hr. rewrite Hact in Hr.
    destruct (last_active active (fonts fm') 0) as [k|] eqn:Hk;
      cbn [button_at] in Hr; [|discriminate].
    injection Hr as <-. exists k. split; [reflexivity|].
    destruct (last_active_some active (fonts fm') 0 k Hk)
      as [_ [[f [Hf Hfa]] Hlast]].
    rewrite Nat.sub_0_r in Hf, Hlast. split; [|exact Hlast].
    exists f, (entry_for (pickerSuffix p0) active f).
    split; [exact Hf|]. split; [exact Hfa|]. split.
    + rewrite Hlist. apply map_nth_error. exact Hf.
    + rewrite highlighted_entry_for. apply jsstring_eqb_eq. exact Hfa.
  - rewrite Hact. destruct (last_active active (fonts fm') 0);
      discriminate.
Qed.

Lemma X12_active_entry_witness :
  name_accepted (OptionsObject {| name := None |})
  /\ (activeFontA orphanPicker = Undefined
      <-> forall f, In f (fonts managerOrphan) ->
                    family f <> family (activeFont managerOrphan)).
Proof.
  split; [exact I|].
  exact (proj1 (proj2
           (X12_active_entry_after_rendering (rt := ascii_runtime)
              sample_setActiveFont (page_with_div (lit "font-picker"))
              (OptionsObject {| name := None |}) (Normal managerBefore) samplePicker [] managerOrphan
              ascii_toLowerCase_no_whitespace I eq_refl eq_refl))).
Defined.

(* ===================================================================== *)
(** ** FontPicker.js: moving the highlight                                *)
(* ===================================================================== *)

Lemma on_entry_classList_result (i : nat)
    (op : list jsstring -> Completion (list jsstring)) (p : FontPicker)
    (e : Elem) (cl : list jsstring) :
  nth_error (ul_entries p) i = Some e ->
  op (el_classList e) = Normal cl ->
  on_entry_classList i op p
  = (set_ul_entries
       (firstn i (ul_entries p) ++ set_classList cl e
          :: skipn (S i) (ul_entries p)) p,
     Normal tt).
Proof.
  intros He Hop. unfold on_entry_classList, bind, read, lift, modify.
  rewrite He, Hop. reflexivity.
Qed.

Lemma nth_error_replaced {A} (l : list A) (i k : nat) (x : A) :
  (i < List.length l)%nat ->
  nth_error (firstn i l ++ x :: skipn (S i) l) k
  = if (k =? i)%nat then Some x else nth_error l k.
Proof.
  revert i k. induction l as [|y l IH]; intros i k Hi; [cbn in Hi; lia|].
  destruct i as [|i].
  - cbn [firstn skipn app]. destruct k; reflexivity.
  - cbn [firstn skipn app]. destruct k as [|k]; [reflexivity|].
    cbn [nth_error Nat.eqb]. apply IH. cbn in Hi. lia.
Qed.

Lemma contains_removed (t : jsstring) (cl : list jsstring) :
  contains t (remove_token cl t) = false.
Proof.
  unfold contains, remove_token. induction cl as [|c cl IH]; [reflexivity|].
  cbn [filter]. destruct (jsstring_eqb t c) eqn:Htc; cbn [negb]; [exact IH|].
  cbn [existsb]. rewrite Htc, IH. reflexivity.
Qed.

Lemma contains_appended (t : jsstring) (cl : list jsstring) :
  contains t (append_token cl t) = true.
Proof.
  unfold append_token. destruct (contains t cl) eqn:H; [exact H|].
  unfold contains. rewrite existsb_app. cbn [existsb].
  replace (jsstring_eqb t t) with true
    by (symmetry; apply jsstring_eqb_eq; reflexivity).
  rewrite orb_true_r. reflexivity.
Qed.

(** A list with one element replaced, split at that element. *)
Lemma replace_split {A} (i : nat) (x e : A) (l : list A) :
  nth_error l i = Some e ->
  exists l1 l2,
    l = l1 ++ e :: l2 /\ firstn i l ++ x :: skipn (S i) l = l1 ++ x :: l2.
Proof.
  intros H. apply nth_error_split in H. destruct H as [l1 [l2 [-> Hi]]].
  exists l1, l2. split; [reflexivity|]. subst i.
  rewrite firstn_app, Nat.sub_diag, firstn_all. cbn [firstn].
  rewrite app_nil_r.
  replace (S (List.length l1)) with (List.length (l1 ++ [e]))
    by (rewrite length_app; simpl; lia).
  replace (l1 ++ e :: l2) with ((l1 ++ [e]) ++ l2)
    by (rewrite <- app_assoc; reflexivity).
  rewrite skipn_app, Nat.sub_diag, skipn_all. reflexivity.
Qed.

(** A change of the classes of a button leaves the content of the
    entries as it is, and with it the [<li>] elements below the list. *)
Lemma replace_classList_content (i : nat) (e : Elem) (cl : list jsstring)
    (l : list Elem) :
  nth_error l i = Some e ->
  map el_content (firstn i l ++ set_classList cl e :: skipn (S i) l)
  = map el_content l.
Proof.
  intros H. destruct (replace_split i (set_classList cl e) e l H)
    as [l1 [l2 [-> ->]]].
  rewrite !map_app. reflexivity.
Qed.

Lemma li_elements_content (l1 l2 : list Elem) (i : nat) :
  map el_content l1 = map el_content l2 ->
  li_elements_from l1 i = li_elements_from l2 i.
Proof.
  revert l2 i. induction l1 as [|a l1 IH]; intros [|c l2] i H;
    try discriminate; [reflexivity|].
  cbn [map] in H. injection H as Hc Hrest.
  cbn [li_elements_from]. rewrite Hc, (IH l2 (S i) Hrest). reflexivity.
Qed.

(** Without [<li>] elements of the parser the collection holds the
    [<li>] of the entries, in their order. *)
Lemma li_elements_plain (entries : list Elem) (i k : nat) :
  Forall no_parsed_li entries ->
  (k < List.length entries)%nat ->
  nth_error (li_elements_from entries i) k = Some (EntryLi (i + k)).
Proof.
  intros Hplain. revert i k.
  induction Hplain as [|e entries He _ IH]; intros i k Hk;
    [cbn in Hk; lia|].
  cbn [li_elements_from]. unfold no_parsed_li in He. rewrite He.
  cbn [map app]. destruct k as [|k].
  - cbn [nth_error]. rewrite Nat.add_0_r. reflexivity.
  - cbn [nth_error]. rewrite (IH (S i) k) by (cbn in Hk; lia).
    f_equal. f_equal. lia.
Qed.

Lemma li_elements_plain_length (entries : list Elem) (i : nat) :
  Forall no_parsed_li entries ->
  List.length (li_elements_from entries i) = List.length entries.
Proof.
  intros Hplain. revert i.
  induction Hplain as [|e entries He _ IH]; intros i; [reflexivity|].
  cbn [li_elements_from List.length]. unfold no_parsed_li in He. rewrite He.
  cbn [map app]. rewrite (IH (S i)). reflexivity.
Qed.

(** The collection holds at least the [<li>] of every entry. *)
Lemma li_elements_length (entries : list Elem) (i : nat) :
  (List.length entries <= List.length (li_elements_from entries i))%nat.
Proof.
  revert i. induction entries as [|e entries IH]; intros i; [cbn; lia|].
  cbn [li_elements_from List.length]. rewrite length_app.
  specialize (IH (S i)). lia.
Qed.

Section SetActiveFont.
Context {rt : JSRuntime}.
Variable fm_setActiveFont : jsstring -> FontManager -> Z * FontManager.

(** [setActiveFont] with an index that is not negative, step by step. *)
Lemma setActiveFont_found (fontFamily : jsstring) (p : FontPicker) :
  (0 <= fst (fm_setActiveFont fontFamily (fontManager p)))%Z ->
  setActiveFont fm_setActiveFont fontFamily p
  = match on_activeFontA_classList (classList_remove [lit "active-font"])
            (set_dropdownFont (set_innerHTML fontFamily (dropdownFont p))
               (set_fontManager
                  (snd (fm_setActiveFont fontFamily (fontManager p))) p)) with
    | (p2, Throw e) => (p2, Throw e)
    | (p2, Normal _) =>
        match nth_error (getElementsByTagName_li (ul_entries p2))
                (Z.to_nat (fst (fm_setActiveFont fontFamily (fontManager p))))
        with
        | None => (p2, Throw TypeError)
        | Some li =>
            on_activeFontA_classList (classList_add [lit "active-font"])
              (set_activeFontA (firstChild (ul_entries p2) li) p2)
        end
    end.
Proof.
  intros Hge. apply Z.leb_le in Hge.
  unfold setActiveFont, bind, read, modify, throw. cbn [fst snd].
  rewrite Hge.
  destruct (on_activeFontA_classList _ _) as [p2 [[]|e]]; [|reflexivity].
  destruct (nth_error _ _); reflexivity.
Qed.

Lemma activeFontA_classList_button
    (op : list jsstring -> Completion (list jsstring)) (p : FontPicker)
    (i : nat) (e : Elem) (cl : list jsstring) :
  activeFontA p = Ref (FontButton i) ->
  nth_error (ul_entries p) i = Some e ->
  op (el_classList e) = Normal cl ->
  on_activeFontA_classList op p
  = (set_ul_entries
       (firstn i (ul_entries p) ++ set_classList cl e
          :: skipn (S i) (ul_entries p)) p,
     Normal tt).
Proof.
  intros Ha He Hop. unfold on_activeFontA_classList, bind, read.
  cbn [fst snd]. rewrite Ha. apply on_entry_classList_result; assumption.
Qed.

(** The name in the dropdown button is out of reach of the operations on
    the active entry. *)
Lemma activeFontA_classList_keeps_name
    (op : list jsstring -> Completion (list jsstring)) (p : FontPicker) :
  dropdownFont (fst (on_activeFontA_classList op p)) = dropdownFont p.
Proof.
  unfold on_activeFontA_classList, on_entry_classList, bind, read, lift,
    modify, throw.
  destruct (activeFontA p) as [| |[i|i path]]; try reflexivity;
    cbn [fst snd]; destruct (nth_error (ul_entries p) i) as [e|];
    try reflexivity.
  - destruct (op (el_classList e)); reflexivity.
  - destruct (on_descendant_classList op path (el_content e)); reflexivity.
Qed.
End SetActiveFont.

(** X13: when an entry is marked as active, no entry holds a [<li>] of
    the parser, and [fontManager.setActiveFont] returns the position of
    an entry of the list, [setActiveFont] completes: the dropdown button
    gets the content that the parser makes of the new family,
    [activeFontA] refers to the button of the entry at the returned
    position, that entry carries [active-font], the entry that was active
    has lost it, and every other entry stays as it is. *)
Theorem X13_setActiveFont_moves_highlight {rt : JSRuntime}
    (fm_setActiveFont : jsstring -> FontManager -> Z * FontManager)
    (fontFamily : jsstring) (p : FontPicker) (i : nat) (was : Elem) :
  let listIndex := fst (fm_setActiveFont fontFamily (fontManager p)) in
  activeFontA p = Ref (FontButton i) ->
  nth_error (ul_entries p) i = Some was ->
  Forall no_parsed_li (ul_entries p) ->
  (0 <= listIndex)%Z ->
  (Z.to_nat listIndex < List.length (ul_entries p))%nat ->
  let p' := fst (setActiveFont fm_setActiveFont fontFamily p) in
  snd (setActiveFont fm_setActiveFont fontFamily p) = Normal tt
  /\ el_content (dropdownFont p')
     = parseFragment (el_tag (dropdownFont p)) fontFamily
  /\ activeFontA p' = Ref (FontButton (Z.to_nat listIndex))
  /\ fontManager p' = snd (fm_setActiveFont fontFamily (fontManager p))
  /\ (forall k e,
        nth_error (ul_entries p) k = Some e ->
        exists e',
          nth_error (ul_entries p') k = Some e'
          /\ el_content e' = el_content e
          /\ highlighted e'
             = ((k =? Z.to_nat listIndex)%nat
                || negb (k =? i)%nat && highlighted e)
          /\ (k <> i -> k <> Z.to_nat listIndex -> e' = e)).
Proof.
  cbv zeta. set (listIndex := fst (fm_setActiveFont fontFamily (fontManager p))).
  set (new := Z.to_nat listIndex). intros Hact Hwas Hplain Hge Hrange.
  assert (Hi : (i < List.length (ul_entries p))%nat).
  { apply nth_error_Some. rewrite Hwas. discriminate. }
  set (was' := set_classList
                 (remove_token (el_classList was) (lit "active-font")) was).
  set (entries1 := firstn i (ul_entries p) ++ was' :: skipn (S i) (ul_entries p)).
  assert (Hlen1 : List.length entries1 = List.length (ul_entries p)).
  { apply (replace_entry_length i was was' _ Hwas). }
  assert (Hnth1 : forall k, nth_error entries1 k
                            = if (k =? i)%nat then Some was'
                              else nth_error (ul_entries p) k).
  { intros k. apply nth_error_replaced. exact Hi. }
  assert (Hli : nth_error (getElementsByTagName_li entries1) new
                = Some (EntryLi new)).
  { unfold getElementsByTagName_li.
    rewrite (li_elements_content entries1 (ul_entries p) 0)
      by (apply replace_classList_content; exact Hwas).
    apply (li_elements_plain _ 0 new Hplain Hrange). }
  destruct (nth_error entries1 new) as [target|] eqn:Htarget;
    [|apply nth_error_None in Htarget; lia].
  set (target' := set_classList
                    (append_token (el_classList target) (lit "active-font"))
                    target).
  set (entries2 := firstn new entries1 ++ target' :: skipn (S new) entries1).
  set (p1 := set_dropdownFont (set_innerHTML fontFamily (dropdownFont p))
               (set_fontManager
                  (snd (fm_setActiveFont fontFamily (fontManager p))) p)).
  assert (Hrun : setActiveFont fm_setActiveFont fontFamily p
                 = (set_ul_entries entries2
                      (set_activeFontA (Ref (FontButton new))
                         (set_ul_entries entries1 p1)),
                    Normal tt)).
  { rewrite (setActiveFont_found fm_setActiveFont fontFamily p Hge).
    fold listIndex new p1.
    rewrite (activeFontA_classList_button _ p1 i was
               (remove_token (el_classList was) (lit "active-font"))
               Hact Hwas eq_refl).
    change (ul_entries p1) with (ul_entries p). fold was' entries1.
    cbn [ul_entries set_ul_entries]. rewrite Hli. cbn [firstChild].
    rewrite (activeFontA_classList_button _
               (set_activeFontA (Ref (FontButton new))
                  (set_ul_entries entries1 p1)) new target
               (append_token (el_classList target) (lit "active-font"))
               eq_refl Htarget eq_refl).
    reflexivity. }
  rewrite Hrun. cbn [fst snd].
  split; [reflexivity|]. split; [reflexivity|]. split; [reflexivity|].
  split; [reflexivity|].
  intros k e Hk. cbn [ul_entries set_ul_entries set_activeFontA]. unfold entries2.
  rewrite nth_error_replaced by (rewrite Hlen1; exact Hrange).
  rewrite (Hnth1 new) in Htarget.
  destruct (k =? new)%nat eqn:Hkn.
  - apply Nat.eqb_eq in Hkn. subst k. exists target'.
    split; [reflexivity|].
    assert (Hlabel : el_content target = el_content e).
    { destruct (new =? i)%nat eqn:Hni.
      - injection Htarget as <-. apply Nat.eqb_eq in Hni. rewrite Hni in Hk.
        rewrite Hwas in Hk. injection Hk as <-. reflexivity.
      - rewrite Hk in Htarget. injection Htarget as <-. reflexivity. }
    split; [exact Hlabel|]. split.
    + unfold highlighted, target'. cbn [el_classList set_classList].
      rewrite contains_appended. reflexivity.
    + intros _ Hne. congruence.
  - rewrite Hnth1. destruct (k =? i)%nat eqn:Hki.
    + apply Nat.eqb_eq in Hki. subst k. rewrite Hwas in Hk. injection Hk as <-.
      exists was'. split; [reflexivity|]. split; [reflexivity|]. split.
      * unfold highlighted, was'. cbn [el_classList set_classList negb andb orb].
        apply contains_removed.
      * intros Hne. congruence.
    + exists e. split; [exact Hk|]. split; [reflexivity|].
      split; [reflexivity|]. reflexivity.
Qed.

Lemma X13_setActiveFont_witness :
  activeFontA renderedPicker = Ref (FontButton 0)
  /\ (0 <= fst (sample_setActiveFont (lit "Lobster") (fontManager renderedPicker)))%Z
  /\ activeFontA
       (fst (setActiveFont (rt := ascii_runtime) sample_setActiveFont
               (lit "Lobster") renderedPicker))
     = Ref (FontButton 1).
Proof.
  split; [reflexivity|]. split; [vm_compute; discriminate|].
  refine (proj1 (proj2 (proj2
            (X13_setActiveFont_moves_highlight (rt := ascii_runtime)
               sample_setActiveFont (lit "Lobster") renderedPicker 0
               (entry_for (rt := ascii_runtime) [] (lit "Open Sans") openSans)
               eq_refl eq_refl _ _ _)))).
  - repeat constructor.
  - vm_compute. discriminate.
  - vm_compute. lia.
Defined.

(** X14: when [fontManager.setActiveFont] returns a position that is not
    negative, [setActiveFont] assigns the new family to the dropdown
    button before it looks at the list, so the button has the content
    that the parser makes of it also when the method throws.  Without an
    active node ([activeFontA] is [undefined] or [null]) it then throws a
    [TypeError] and leaves the list as it was; when the button of an
    entry is active and the position lies beyond the [<li>] elements
    below the list, it takes [active-font] off that button, throws a
    [TypeError], and [activeFontA] still refers to the button that has
    lost its mark. *)
Theorem X14_setActiveFont_failures {rt : JSRuntime}
    (fm_setActiveFont : jsstring -> FontManager -> Z * FontManager)
    (fontFamily : jsstring) (p : FontPicker) :
  let listIndex := fst (fm_setActiveFont fontFamily (fontManager p)) in
  (0 <= listIndex)%Z ->
  let p' := fst (setActiveFont fm_setActiveFont fontFamily p) in
  el_content (dropdownFont p')
  = parseFragment (el_tag (dropdownFont p)) fontFamily
  /\ (activeFontA p = Undefined \/ activeFontA p = Null ->
      snd (setActiveFont fm_setActiveFont fontFamily p) = Throw TypeError
      /\ ul_entries p' = ul_entries p /\ activeFontA p' = activeFontA p)
  /\ (forall i was,
        activeFontA p = Ref (FontButton i) ->
        nth_error (ul_entries p) i = Some was ->
        (List.length (getElementsByTagName_li (ul_entries p))
         <= Z.to_nat listIndex)%nat ->
        snd (setActiveFont fm_setActiveFont fontFamily p) = Throw TypeError
        /\ activeFontA p' = Ref (FontButton i)
        /\ exists was',
             nth_error (ul_entries p') i = Some was'
             /\ highlighted was' = false)
  /\ (List.length (ul_entries p)
      <= List.length (getElementsByTagName_li (ul_entries p)))%nat.
Proof.
  cbv zeta. set (listIndex := fst (fm_setActiveFont fontFamily (fontManager p))).
  intros Hge.
  pose proof (setActiveFont_found fm_setActiveFont fontFamily p Hge) as Hstart.
  fold listIndex in Hstart.
  set (p1 := set_dropdownFont (set_innerHTML fontFamily (dropdownFont p))
               (set_fontManager
                  (snd (fm_setActiveFont fontFamily (fontManager p))) p))
    in Hstart.
  split; [|split; [|split]].
  - rewrite Hstart.
    pose proof (activeFontA_classList_keeps_name
                  (classList_remove [lit "active-font"]) p1) as Hfirst.
    destruct (on_activeFontA_classList (classList_remove [lit "active-font"]) p1)
      as [p2 [[]|e]]; cbn [fst] in *; [|rewrite Hfirst; reflexivity].
    destruct (nth_error _ _) as [li|]; cbn [fst];
      [|rewrite Hfirst; reflexivity].
    rewrite activeFontA_classList_keeps_name. cbn [dropdownFont set_activeFontA].
    rewrite Hfirst. reflexivity.
  - intros Hnone. rewrite Hstart.
    unfold on_activeFontA_classList, bind, read, throw. cbn [fst snd].
    change (activeFontA p1) with (activeFontA p).
    destruct Hnone as [Hnone|Hnone]; rewrite Hnone; repeat split;
      cbn [fst activeFontA]; exact Hnone.
  - intros i was Hact Hwas Hbeyond. rewrite Hstart.
    set (was' := set_classList
                   (remove_token (el_classList was) (lit "active-font")) was).
    set (entries1 := firstn i (ul_entries p) ++ was'
                       :: skipn (S i) (ul_entries p)).
    rewrite (activeFontA_classList_button _ p1 i was
               (remove_token (el_classList was) (lit "active-font"))
               Hact Hwas eq_refl).
    change (ul_entries p1) with (ul_entries p). fold was' entries1.
    cbn [ul_entries set_ul_entries].
    assert (Hnone : nth_error (getElementsByTagName_li entries1)
                      (Z.to_nat listIndex) = None).
    { apply nth_error_None. unfold getElementsByTagName_li in *.
      rewrite (li_elements_content entries1 (ul_entries p) 0)
        by (apply replace_classList_content; exact Hwas).
      exact Hbeyond. }
    rewrite Hnone. cbn [fst snd activeFontA set_ul_entries ul_entries].
    split; [reflexivity|]. split; [exact Hact|].
    exists was'. split.
    + unfold entries1. rewrite nth_error_replaced, Nat.eqb_refl; [reflexivity|].
      apply nth_error_Some. rewrite Hwas. discriminate.
    + unfold highlighted, was'. cbn [el_classList set_classList].
      apply contains_removed.
  - apply li_elements_length.
Qed.

Lemma X14_setActiveFont_failures_witness :
  (0 <= fst (sample_setActiveFont (lit "Lobster") (fontManager orphanPicker)))%Z
  /\ activeFontA orphanPicker = Undefined
  /\ snd (setActiveFont (rt := ascii_runtime) sample_setActiveFont
            (lit "Lobster") orphanPicker)
     = Throw TypeError
  /\ el_content
       (dropdownFont
          (fst (setActiveFont (rt := ascii_runtime) sample_setActiveFont
                  (lit "Lobster") orphanPicker)))
     = [TextNode (lit "Lobster")].
Proof.
  assert (Hge : (0 <= fst (sample_setActiveFont (lit "Lobster")
                             (fontManager orphanPicker)))%Z)
    by (vm_compute; discriminate).
  split; [exact Hge|]. split; [reflexivity|].
  destruct (X14_setActiveFont_failures (rt := ascii_runtime)
              sample_setActiveFont (lit "Lobster") orphanPicker Hge)
    as [Hname [Hnone _]].
  split; [exact (proj1 (Hnone (or_introl eq_refl))) | exact Hname].
Defined.

(* ===================================================================== *)
(** ** FontPicker.js: list or error, once                                 *)
(* ===================================================================== *)

Lemma settled_shows {rt : JSRuntime} (o : InitOutcome) (p : FontPicker) :
  loading p ->
  let p' := fst (init_settled o p) in
  init_calls p' = 1%nat /\ (list_shown p' \/ error_shown p').
Proof.
  intros [Hicon [Hdiv [Htitle [_ [Hcons [Hinit _]]]]]]. cbv zeta.
  destruct o as [fm|fm err]; cbn [init_settled]; unfold bind, modify, try_catch;
    cbn [fst snd].
  - rewrite init_fulfilled_unfold.
    pose proof (render_entries_outside_list
                  (fonts (fontManager (set_fontManager fm p)))
                  (set_ul_onscroll true
                     (icon_marked (lit "finished") (set_fontManager fm p))))
      as Hout.
    destruct (render_entries _ _) as [q [[]|e]]; cbn [fst snd] in *;
      destruct Hout as [Hqi [Hqd [Hqt [_ [Hqc [Hqn _]]]]]];
      cbn in Hqi, Hqd, Hqt, Hqc, Hqn.
    + split; [cbn; congruence|]. left. unfold list_shown. cbn.
      rewrite Hqi, Hqd, Hqt, Hqc, Hdiv. cbn. rewrite Hicon.
      repeat split; assumption.
    + rewrite init_rejected_unfold. cbn [fst].
      split; [cbn; congruence|]. right. unfold error_shown. cbn.
      rewrite Hqi, Hqd, Hqc, Hdiv, Hcons. cbn. rewrite Hicon.
      repeat split. exists e. reflexivity.
  - rewrite init_rejected_unfold. cbn [fst].
    split; [cbn; exact Hinit|]. right. unfold error_shown. cbn.
    rewrite Hicon, Hdiv, Hcons. repeat split. exists err. reflexivity.
Qed.

Lemma shown_untouched (p p' : FontPicker) :
  untouched p p' ->
  (list_shown p -> list_shown p') /\ (error_shown p -> error_shown p').
Proof.
  unfold untouched, list_shown, error_shown.
  intros [H1 [H2 [H3 [_ [H5 _]]]]]. rewrite H1, H2, H3, H5. tauto.
Qed.

(** X18: in every run of a picker, [fontManager.init()] is called
    exactly once.  While its promise is pending the icon shows [loading]
    and the container holds the dropdown button only; once it is settled,
    either the list is appended to the container and the icon shows
    [finished], with no title and nothing logged, or the list is not
    appended, the icon carries [error], the title is the error message
    and exactly the message and one error are logged. *)
Theorem X18_list_or_error {rt : JSRuntime}
    (fm_setActiveFont : jsstring -> FontManager -> Z * FontManager)
    (d : Document) (options : OptionsArg) (fm : Completion FontManager)
    (p0 : FontPicker)
    (es : list Event) :
  new_FontPicker d options fm = Normal p0 ->
  let w := run_events fm_setActiveFont (start p0) es in
  init_calls (picker w) = 1%nat
  /\ (init_pending w = true -> loading (picker w))
  /\ (init_pending w = false ->
      list_shown (picker w) \/ error_shown (picker w)).
Proof.
  intros Hnew. cbv zeta.
  induction es as [|e es IH] using rev_ind.
  - pose proof (new_FontPicker_loading d options fm p0 Hnew) as Hload.
    cbn. split; [apply Hload|]. split; [intros _; exact Hload | discriminate].
  - unfold run_events in *. rewrite fold_left_app. cbn [fold_left].
    set (w := fold_left (handle fm_setActiveFont) es (start p0)) in *.
    destruct IH as [IHn [IHp IHs]].
    destruct (init_pending w) eqn:Hp.
    + destruct (init_pending (handle fm_setActiveFont w e)) eqn:Hp'.
      * destruct (handle_pending fm_setActiveFont w e Hp') as [_ Hu].
        pose proof (loading_untouched _ _ (IHp eq_refl) Hu) as Hload.
        split; [apply Hload|]. split; [intros _; exact Hload | discriminate].
      * pose proof Hp' as Hflag. rewrite handle_pending_flag in Hflag.
        destruct e as [o| |i|path|now layout fm1|now layout fm1|fam];
          try congruence.
        cbn [handle]. rewrite Hp. cbn [picker init_pending].
        destruct (settled_shows o (picker w) (IHp eq_refl)) as [Hn Hshown].
        split; [exact Hn|]. split; [discriminate | intros _; exact Hshown].
    + destruct (handle_settled fm_setActiveFont w e Hp) as [Hf Hu].
      rewrite Hf. split.
      * destruct Hu as [_ [_ [_ [_ [_ [Hn _]]]]]]. congruence.
      * split; [discriminate|]. intros _.
        destruct (shown_untouched _ _ Hu) as [Hl He].
        destruct (IHs eq_refl); [left; auto | right; auto].
Qed.

Lemma X18_list_or_error_witness :
  new_FontPicker (rt := ascii_runtime) (page_with_div (lit "font-picker"))
    (OptionsObject {| name := None |}) (Normal managerBefore)
  = Normal samplePicker
  /\ init_calls
       (picker
          (run_events (rt := ascii_runtime) sample_setActiveFont
             (start samplePicker)
             [EvInitSettled (InitRejected managerBefore TypeError);
              EvToggleExpanded]))
     = 1%nat.
Proof.
  split; [reflexivity|].
  exact (proj1 (X18_list_or_error (rt := ascii_runtime) sample_setActiveFont
                  (page_with_div (lit "font-picker")) (OptionsObject {| name := None |})
                  (Normal managerBefore) samplePicker
                  [EvInitSettled (InitRejected managerBefore TypeError);
                   EvToggleExpanded]
                  eq_refl)).
Defined.

(* ===================================================================== *)
(** ** FontPicker.js: what a click does                                   *)
(* ===================================================================== *)

(** X19: expanding or collapsing the list and a click on the document
    never change the selection: the name in the dropdown button, the
    entries with their classes and [activeFontA] stay as they are,
    whatever state the picker is in. *)
Theorem X19_selection_untouched {rt : JSRuntime}
    (fm_setActiveFont : jsstring -> FontManager -> Z * FontManager)
    (w : Widget) (path : list bool) :
  selection_kept (picker w) (picker (handle fm_setActiveFont w EvToggleExpanded))
  /\ selection_kept (picker w)
       (picker (handle fm_setActiveFont w (EvDocumentClick path))).
Proof.
  split; cbn [handle].
  - apply toggleExpanded_keeps_selection.
  - destruct (click_listener _); [|apply selection_kept_refl].
    apply closeEventListener_keeps_selection.
Qed.

(** The manager after [setActiveFont] is the one that
    [fontManager.setActiveFont] has left, whether the method completes or
    throws. *)
Lemma setActiveFont_manager {rt : JSRuntime}
    (fm_setActiveFont : jsstring -> FontManager -> Z * FontManager)
    (fontFamily : jsstring) (p : FontPicker) :
  fontManager (fst (setActiveFont fm_setActiveFont fontFamily p))
  = snd (fm_setActiveFont fontFamily (fontManager p)).
Proof.
  unfold setActiveFont. unfold bind at 1, read at 1. cbn [fst snd].
  unfold bind at 1, modify at 1. cbn [fst snd].
  match goal with |- fontManager (fst (?a ?s)) = _ =>
    assert (Hk : keeps (fun x y => fontManager y = fontManager x) a)
  end.
  { assert (Hr : forall x : FontPicker, fontManager x = fontManager x)
      by reflexivity.
    assert (Ht : forall x y z : FontPicker,
              fontManager y = fontManager x -> fontManager z = fontManager y ->
              fontManager z = fontManager x) by (intros; congruence).
    assert (Hactive : forall op,
              keeps (fun x y => fontManager y = fontManager x)
                (on_activeFontA_classList op)).
    { intros op x.
      unfold on_activeFontA_classList, on_entry_classList, bind, read, lift,
        modify, throw.
      destruct (activeFontA x) as [| |[k|k path]]; try reflexivity;
        cbn [fst snd]; destruct (nth_error (ul_entries x) k) as [e|];
        try reflexivity.
      - destruct (op (el_classList e)); reflexivity.
      - destruct (on_descendant_classList op path (el_content e));
          reflexivity. }
    apply keeps_if; [|apply (keeps_ret _ Hr)].
    apply (keeps_bind _ Ht); [apply keeps_modify; reflexivity|]. intros _.
    apply (keeps_bind _ Ht); [apply Hactive|]. intros _.
    apply (keeps_bind _ Ht); [apply (keeps_read _ Hr)|]. intros entries.
    destruct (nth_error (getElementsByTagName_li entries) _);
      [|apply (keeps_throw _ Hr)].
    apply (keeps_bind _ Ht); [apply keeps_modify; reflexivity|].
    intros _. apply Hactive. }
  rewrite Hk. reflexivity.
Qed.

(** X10: a click on an entry of the list always flips the expansion of
    the list, whether the change of the font then succeeds or throws, and
    hands the family of the font at that position to the manager. *)
Theorem X10_entry_click_toggles {rt : JSRuntime}
    (fm_setActiveFont : jsstring -> FontManager -> Z * FontManager)
    (d : Document) (options : OptionsArg) (fm : Completion FontManager)
    (p0 : FontPicker)
    (es : list Event) (i : nat) (font : Font) :
  new_FontPicker d options fm = Normal p0 ->
  let w := run_events fm_setActiveFont (start p0) es in
  (i < List.length (ul_entries (picker w)))%nat ->
  nth_error (fonts (fontManager (picker w))) i = Some font ->
  let w' := handle fm_setActiveFont w (EvFontButton i) in
  expanded (picker w') = negb (expanded (picker w))
  /\ click_listener (picker w') = negb (expanded (picker w))
  /\ fontManager (picker w')
     = snd (fm_setActiveFont (family font) (fontManager (picker w))).
Proof.
  intros Hnew w Hi Hfont. cbv zeta.
  destruct (new_FontPicker_consistent d options fm p0 Hnew) as [Hc0 _].
  pose proof (run_events_consistent fm_setActiveFont es (start p0) Hc0) as Hc.
  fold w in Hc. cbn [handle].
  replace (i <? List.length (ul_entries (picker w)))%nat with true
    by (symmetry; apply Nat.ltb_lt; exact Hi).
  cbn [after picker].
  destruct (toggleExpanded_result (picker w) Hc) as [Hok [Hflip Hc']].
  assert (Hfm : fontManager (fst (toggleExpanded (picker w)))
                = fontManager (picker w)).
  { clear. unfold toggleExpanded, bind, read, modify, on_classList, lift.
    destruct (expanded (picker w)); cbn;
      repeat match goal with
             | |- context [match ?c with Normal _ => _ | Throw _ => _ end] =>
                 destruct c; cbn
             end; reflexivity. }
  destruct (toggleExpanded (picker w)) as [q [[]|err]] eqn:Htog;
    cbn [fst snd] in *; [|discriminate].
  match goal with |- context [fst ((toggleExpanded ;; ?t)%action (picker w))] =>
    assert (Hstep : fst ((toggleExpanded ;; t)%action (picker w)) = fst (t q))
      by (unfold bind at 1; rewrite Htog; reflexivity);
    rewrite Hstep; clear Hstep;
    pose proof (font_button_tail_keeps_expansion fm_setActiveFont i q)
      as [He [_ [_ Hl]]]
  end.
  rewrite He, Hl. destruct Hc' as [Hl' _].
  split; [exact Hflip|]. split; [congruence|].
  unfold bind at 1, read at 1. cbn [fst snd]. rewrite Hfm, Hfont.
  rewrite setActiveFont_manager, Hfm. reflexivity.
Qed.

Lemma X10_entry_click_witness :
  new_FontPicker (rt := ascii_runtime) (page_with_div (lit "font-picker"))
    (OptionsObject {| name := None |}) (Normal managerBefore)
  = Normal samplePicker
  /\ expanded
       (picker
          (handle (rt := ascii_runtime) sample_setActiveFont
             (run_events (rt := ascii_runtime) sample_setActiveFont
                (start samplePicker)
                [EvInitSettled (InitFulfilled managerAfter); EvToggleExpanded])
             (EvFontButton 1)))
     = false.
Proof.
  split; [reflexivity|].
  refine (proj1 (X10_entry_click_toggles (rt := ascii_runtime)
                   sample_setActiveFont (page_with_div (lit "font-picker"))
                   (OptionsObject {| name := None |}) (Normal managerBefore) samplePicker
                   [EvInitSettled (InitFulfilled managerAfter); EvToggleExpanded]
                   1 lobster eq_refl _ eq_refl)).
  vm_compute. lia.
Defined.

(* ===================================================================== *)
(** ** font-download.js: sequences of calls                               *)
(* ===================================================================== *)

(** X7: in a document that holds at most one preview link of a font and
    not both of its links, any sequence of [checkFullFont] and
    [checkPreviewFont] calls, for any fonts, in which no preview is
    requested while the preview link of that font is in the document,
    keeps it that way: there is never a second preview link, and never a
    preview link beside the full link. *)
Theorem X7_previews_requested_once {rt : JSRuntime} (fontId : jsstring)
    (cs : list Call) (d : Document) :
  (count_id d (preview_id fontId) <= 1)%nat ->
  getElementById d (preview_id fontId) = None
  \/ getElementById d (full_id fontId) = None ->
  previews_requested_once cs d ->
  let d' := run_calls cs d in
  (count_id d' (preview_id fontId) <= 1)%nat
  /\ (getElementById d' (preview_id fontId) = None
      \/ getElementById d' (full_id fontId) = None).
Proof.
  intros Hone Hnot Hreq. cbv zeta.
  assert (Hex : exclusive fontId d).
  { split; [exact Hone|].
    destruct Hnot as [H|H]; [left | right]; apply getElementById_count; exact H. }
  destruct (run_calls_exclusive fontId cs d Hex Hreq) as [[Hone' _] Hnot'].
  split; assumption.
Qed.

Lemma X7_previews_requested_once_witness :
  previews_requested_once (rt := ascii_runtime)
    [CheckPreviewFont notAvailable openSans;
     CheckPreviewFont notAvailable lobster;
     CheckFullFont notAvailable openSans] emptyDocument
  /\ (getElementById
        (run_calls (rt := ascii_runtime)
           [CheckPreviewFont notAvailable openSans;
            CheckPreviewFont notAvailable lobster;
            CheckFullFont notAvailable openSans] emptyDocument)
        (preview_id (lit "open-sans")) = None
      \/ getElementById
           (run_calls (rt := ascii_runtime)
              [CheckPreviewFont notAvailable openSans;
               CheckPreviewFont notAvailable lobster;
               CheckFullFont notAvailable openSans] emptyDocument)
           (full_id (lit "open-sans")) = None).
Proof.
  assert (Hreq : previews_requested_once (rt := ascii_runtime)
                   [CheckPreviewFont notAvailable openSans;
                    CheckPreviewFont notAvailable lobster;
                    CheckFullFont notAvailable openSans] emptyDocument)
    by (vm_compute; repeat split).
  split; [exact Hreq|].
  refine (proj2 (X7_previews_requested_once (rt := ascii_runtime)
                   (lit "open-sans") _ emptyDocument _ _ Hreq)).
  - vm_compute. lia.
  - left. reflexivity.
Defined.
